(** * DLNA discovery and control: a shallow embedding of [src/index.js]

    The development follows the layout of the program.  First come the
    JavaScript string primitives the program uses, exceptions, and the
    values the XML parser produces; then the platform [URL] class; then the
    methods of [DLNADiscoverer] (header parsing, [parseDeviceDescription],
    [findAVTransportService], [normalizeURL], [parseDeviceType]) and one
    scan of [discover] as an event-driven state machine; then
    [DLNAController] ([play], [getDeviceDetails], [sendSoapRequest],
    [escapeXml]) over a recorded network.  The methods of the older copy of
    the discoverer in [src/unnamed/part_000] that differ are kept in module
    [Legacy].  The properties follow the definitions.

    JavaScript strings are represented by their UTF-8 bytes ([string]);
    every literal of the program is kept byte for byte.  What belongs to the
    runtime and not to the program (the XML parser, the URL parser outside
    the inputs written out here, lower-casing outside ASCII) is a parameter,
    see [Platform]. *)

From Stdlib Require Import ZArith Ascii String.
From stdpp Require Import base option list gmap strings.

Local Open Scope Z_scope.

(** ** JavaScript string primitives *)

Module JsString.

Definition char_eqb (a b : ascii) : bool := bool_decide (a = b).

(** [s.startsWith(p)] *)
Definition startsWith (s p : string) : bool := String.prefix p s.

(** [s.indexOf(needle)], with the result [-1] when [needle] does not
    occur. *)
Fixpoint indexOf_from (needle s : string) (i : Z) : Z :=
  if String.prefix needle s then i
  else match s with
       | EmptyString => -1
       | String _ s' => indexOf_from needle s' (i + 1)
       end.

Definition indexOf (s needle : string) : Z := indexOf_from needle s 0.

(** [s.slice(start, end)]: a negative index counts from the end of the
    string, indices are clamped to the length, and [end] defaults to the
    length. *)
Definition clamp_index (len i : Z) : Z :=
  if i <? 0 then Z.max (len + i) 0 else Z.min i len.

Definition slice (s : string) (start : Z) (stop : option Z) : string :=
  let len := Z.of_nat (String.length s) in
  let from := clamp_index len start in
  let to := match stop with None => len | Some e => clamp_index len e end in
  String.substring (Z.to_nat from) (Z.to_nat (Z.max (to - from) 0)) s.

(** Prepend a character to the first segment of a split. *)
Definition cons_head (a : ascii) (segs : list string) : list string :=
  match segs with
  | [] => [String a EmptyString]
  | h :: t => String a h :: t
  end.

(** [s.split(sep)] for a non-empty separator.  [skip] counts the
    characters of a separator occurrence that are still to be passed. *)
Fixpoint split_go (sep : string) (skip : nat) (s : string) : list string :=
  match s with
  | EmptyString => [EmptyString]
  | String a s' =>
      match skip with
      | S k => split_go sep k s'
      | O =>
          if String.prefix sep s
          then EmptyString :: split_go sep (Nat.pred (String.length sep)) s'
          else cons_head a (split_go sep 0 s')
      end
  end.

Definition split (s sep : string) : list string := split_go sep 0 s.

(** [segs.join(sep)] *)
Fixpoint join (sep : string) (segs : list string) : string :=
  match segs with
  | [] => EmptyString
  | [x] => x
  | x :: rest => x +:+ sep +:+ join sep rest
  end.

(** White space as [String.prototype.trim] sees it: the ASCII blanks and
    line terminators, and the UTF-8 encodings of U+00A0, U+1680,
    U+2000..U+200A, U+2028, U+2029, U+202F, U+205F, U+3000 and U+FEFF. *)
Definition is_ascii_ws (c : ascii) : bool :=
  let n := N_of_ascii c in
  ((9 <=? n) && (n <=? 13))%N || (n =? 32)%N.

Definition is_ws2 (c1 c2 : ascii) : bool :=
  (N_of_ascii c1 =? 194)%N && (N_of_ascii c2 =? 160)%N.

Definition is_ws3 (c1 c2 c3 : ascii) : bool :=
  let a := N_of_ascii c1 in
  let b := N_of_ascii c2 in
  let c := N_of_ascii c3 in
  ((a =? 225) && (b =? 154) && (c =? 128))%N
  || ((a =? 226) && (b =? 128)
      && (((128 <=? c) && (c <=? 138)) || (c =? 168) || (c =? 169)
          || (c =? 175)))%N
  || ((a =? 226) && (b =? 129) && (c =? 159))%N
  || ((a =? 227) && (b =? 128) && (c =? 128))%N
  || ((a =? 239) && (b =? 187) && (c =? 191))%N.

(** Drop leading white space; with [back = true] the string is read
    backwards, so the bytes of a character arrive last byte first. *)
Fixpoint strip (back : bool) (s : string) : string :=
  match s with
  | EmptyString => EmptyString
  | String c1 s1 =>
      if is_ascii_ws c1 then strip back s1
      else
        match s1 with
        | EmptyString => s
        | String c2 s2 =>
            if (if back then is_ws2 c2 c1 else is_ws2 c1 c2)
            then strip back s2
            else
              match s2 with
              | EmptyString => s
              | String c3 s3 =>
                  if (if back then is_ws3 c3 c2 c1 else is_ws3 c1 c2 c3)
                  then strip back s3
                  else s
              end
        end
  end.

Definition trimStart (s : string) : string := strip false s.
Definition trimEnd (s : string) : string :=
  String.rev (strip true (String.rev s)).
Definition trim (s : string) : string := trimEnd (trimStart s).

(** [s.replace(/\/+/g, '/')]: every maximal run of slashes becomes one
    slash. *)
Fixpoint collapse_slashes (s : string) : string :=
  match s with
  | EmptyString => EmptyString
  | String a s' =>
      if char_eqb a "/"
      then match s' with
           | String b _ =>
               if char_eqb b "/" then collapse_slashes s'
               else String a (collapse_slashes s')
           | EmptyString => String a EmptyString
           end
      else String a (collapse_slashes s')
  end.

Definition is_upper (c : ascii) : bool :=
  let n := N_of_ascii c in ((65 <=? n) && (n <=? 90))%N.
Definition is_lower (c : ascii) : bool :=
  let n := N_of_ascii c in ((97 <=? n) && (n <=? 122))%N.
Definition is_digit (c : ascii) : bool :=
  let n := N_of_ascii c in ((48 <=? n) && (n <=? 57))%N.
Definition is_alpha (c : ascii) : bool := is_upper c || is_lower c.
Definition is_alnum (c : ascii) : bool := is_alpha c || is_digit c.

Definition lower_char (c : ascii) : ascii :=
  if is_upper c then ascii_of_N (N_of_ascii c + 32) else c.

Fixpoint map_chars (f : ascii -> ascii) (s : string) : string :=
  match s with
  | EmptyString => EmptyString
  | String a s' => String (f a) (map_chars f s')
  end.

Fixpoint all_chars (p : ascii -> bool) (s : string) : bool :=
  match s with
  | EmptyString => true
  | String a s' => p a && all_chars p s'
  end.

Definition is_ascii_char (c : ascii) : bool := (N_of_ascii c <? 128)%N.

(** Decimal rendering of a number, as a template literal does it. *)
Definition digit_char (d : N) : ascii := ascii_of_N (48 + d).

Fixpoint decimal_go (fuel : nat) (n : N) (acc : string) : string :=
  match fuel with
  | O => acc
  | S k =>
      let acc' := String (digit_char (n mod 10)) acc in
      if (n <? 10)%N then acc' else decimal_go k (n / 10) acc'
  end.

Definition decimal (n : N) : string :=
  decimal_go (S (N.to_nat (N.log2 n))) n EmptyString.

(** [needle] occurs in [s]. *)
Definition includes (s needle : string) : bool :=
  bool_decide (indexOf s needle <> -1).

(** Strings without a given character. *)
Definition free_of (c : ascii) (s : string) : Prop :=
  all_chars (fun a => negb (char_eqb a c)) s = true.

End JsString.

(** ** Exceptions and completions

    A JavaScript evaluation either completes normally with a value or
    throws.  Only the [message] of an exception is ever observed by the
    program. *)

Inductive exn : Type :=
| Error (message : string)
| TypeError (message : string).

Definition message (e : exn) : string :=
  match e with Error m => m | TypeError m => m end.

Inductive completion (A : Type) : Type :=
| Normal (a : A)
| Throw (e : exn).
Arguments Normal {A} a.
Arguments Throw {A} e.

Global Instance completion_ret : MRet completion := fun A a => Normal a.
Global Instance completion_bind : MBind completion := fun A B f m =>
  match m with Normal a => f a | Throw e => Throw e end.

(** [try { body } catch (err) { handler }] *)
Definition try_catch {A} (body : completion A) (handler : exn -> A) : A :=
  match body with Normal a => a | Throw e => handler e end.

(** ** Values produced by the XML parser

    With [explicitArray: false] the parser yields strings for text-only
    elements, objects for elements with children or attributes (properties
    in order of first occurrence) and arrays for repeated siblings; an empty
    document yields [null].  [JUndefined] is what reading a missing
    property gives. *)

#[local] Set Warnings "-register-all".

Inductive jsval : Type :=
| JUndefined
| JNull
| JString (s : string)
| JArray (items : list jsval)
| JObject (props : list (string * jsval)).

Definition truthy (v : jsval) : bool :=
  match v with
  | JUndefined | JNull => false
  | JString s => negb (bool_decide (s = EmptyString))
  | JArray _ | JObject _ => true
  end.

(** [a || b] *)
Definition js_or (a b : jsval) : jsval := if truthy a then a else b.

Fixpoint assoc (k : string) (props : list (string * jsval)) : option jsval :=
  match props with
  | [] => None
  | (k', v) :: rest => if bool_decide (k' = k) then Some v else assoc k rest
  end.

(** [v.k] for the property names the program reads ([root], [device],
    [serviceList], [service], [serviceType], [controlURL], [friendlyName],
    [manufacturer], [deviceType]); none of them is a built-in property of
    strings or arrays. *)
Definition get_prop (v : jsval) (k : string) : completion jsval :=
  match v with
  | JUndefined =>
      Throw (TypeError ("Cannot read properties of undefined (reading '"
                          +:+ k +:+ "')"))
  | JNull =>
      Throw (TypeError ("Cannot read properties of null (reading '"
                          +:+ k +:+ "')"))
  | JString _ | JArray _ => Normal JUndefined
  | JObject props => Normal (default JUndefined (assoc k props))
  end.

(** [v?.k] *)
Definition get_prop_opt (v : jsval) (k : string) : completion jsval :=
  match v with
  | JUndefined | JNull => Normal JUndefined
  | _ => get_prop v k
  end.

(** [String(v)], the conversion applied by template literals and by the
    [URL] constructor. *)
Fixpoint to_string (v : jsval) : string :=
  match v with
  | JUndefined => "undefined"
  | JNull => "null"
  | JString s => s
  | JArray items =>
      JsString.join ","
        (map (fun x => match x with
                       | JUndefined | JNull => EmptyString
                       | _ => to_string x
                       end) items)
  | JObject _ => "[object Object]"
  end.

Definition not_a_function (what : string) : exn :=
  TypeError (what +:+ " is not a function").

(** ** [DLNADiscoverer.parseDeviceType] *)

Definition parseDeviceType (typeStr : jsval) : completion string :=
  parts ← match js_or typeStr (JString EmptyString) with
           | JString s => Normal (JsString.split s ":")
           | _ =>
               Throw (not_a_function
                        ("(typeStr || "
                         +:+ String "034" (String "034" ").split")))
           end;
  Normal (if bool_decide (4 ≤ length parts)%nat
          then nth 3 parts EmptyString
          else "MediaRenderer").


(** ** [DLNAController.escapeXml] *)

Definition escape_char (c : ascii) : string :=
  if JsString.char_eqb c "<" then "&lt;"
  else if JsString.char_eqb c ">" then "&gt;"
  else if JsString.char_eqb c "&" then "&amp;"
  else if JsString.char_eqb c "'" then "&apos;"
  else if JsString.char_eqb c "034" then "&quot;"
  else String c EmptyString.

Fixpoint escapeXml (str : string) : string :=
  match str with
  | EmptyString => EmptyString
  | String c rest => escape_char c +:+ escapeXml rest
  end.


(** ** The platform [URL] class

    [URL] is not code of the program but of the runtime (the WHATWG URL
    standard).  Its data model is the standard's URL record.  The parser is
    written out below for the inputs the program meets in practice: [http]
    and [https] URLs, and references relative to them, made of characters
    that need no percent-encoding, with a host that is a plain domain name or
    a dotted-decimal IPv4 address.  On every other input the parser answers
    [Beyond], and the result is left to the platform (see [Platform]). *)

Inductive url_path : Type :=
| OpaquePath (s : string)
| ListPath (segments : list string).

Record URLrecord : Type := mkURL {
  url_scheme : string;
  url_username : string;
  url_password : string;
  url_host : option string;
  url_port : option N;
  url_path_of : url_path;
  url_query : option string;
  url_fragment : option string;
}.

Module WhatWG.

Import JsString.

Inductive outcome : Type :=
| Parsed (u : URLrecord)
| Failure
| Beyond.

Fixpoint char_in (c : ascii) (set : string) : bool :=
  match set with
  | EmptyString => false
  | String a rest => char_eqb a c || char_in c rest
  end.

(** Characters that every parser state takes as they are. *)
Definition safe_char (c : ascii) : bool :=
  is_alnum c || char_in c "-._~:/?#=&+,;!$*()".

Definition default_port (scheme : string) : option N :=
  if bool_decide (scheme = "http") then Some 80%N
  else if bool_decide (scheme = "https") then Some 443%N
  else None.

Definition is_http (scheme : string) : bool :=
  bool_decide (scheme = "http") || bool_decide (scheme = "https").

(** Scheme start state and scheme state: the lower-cased scheme and what
    follows its colon, when the input begins with a scheme. *)
Fixpoint scan_scheme (s acc : string) : option (string * string) :=
  match s with
  | EmptyString => None
  | String c s' =>
      if char_eqb c ":" then Some (String.rev acc, s')
      else if is_alnum c || char_in c "+-."
           then scan_scheme s' (String (lower_char c) acc)
           else None
  end.

Definition take_scheme (s : string) : option (string * string) :=
  match s with
  | String c _ => if is_alpha c then scan_scheme s EmptyString else None
  | EmptyString => None
  end.

(** Special authority (ignore) slashes states. *)
Fixpoint drop_slashes (s : string) : string :=
  match s with
  | String c s' => if char_eqb c "/" then drop_slashes s' else s
  | EmptyString => EmptyString
  end.

(** The longest prefix without a character of [stops], and the rest. *)
Fixpoint break_at (stops : string) (s : string) : string * string :=
  match s with
  | EmptyString => (EmptyString, EmptyString)
  | String c s' =>
      if char_in c stops then (EmptyString, s)
      else let '(h, t) := break_at stops s' in (String c h, t)
  end.

Fixpoint parse_decimal (s : string) (acc : N) : N :=
  match s with
  | EmptyString => acc
  | String c s' => parse_decimal s' (10 * acc + (N_of_ascii c - 48))%N
  end.

(** A part of a dotted-decimal address in canonical form. *)
Definition canonical_octet (s : string) : bool :=
  negb (bool_decide (s = EmptyString))
  && all_chars is_digit s
  && (bool_decide (s = "0")
      || negb (String.prefix "0" s))
  && (String.length s <=? 3)%nat
  && (parse_decimal s 0 <=? 255)%N.

Definition is_hex_digit (c : ascii) : bool :=
  is_digit c || char_in (lower_char c) "abcdef".

(** The standard's "ends in a number" test on the last label. *)
Definition numeric_label (s : string) : bool :=
  (negb (bool_decide (s = EmptyString)) && all_chars is_digit s)
  || match s with
     | String z (String x rest) =>
         char_eqb z "0" && char_eqb (lower_char x) "x"
         && all_chars is_hex_digit rest
     | _ => false
     end.

Inductive host_class : Type :=
| HostOk (h : string)
| HostBeyond.

(** Host parsing for a non-empty host of a special scheme. *)
Definition classify_host (h : string) : host_class :=
  let labels := split h "." in
  if negb (all_chars (fun c => is_alnum c || char_in c ".-") h)
     || includes h "--"
     || bool_decide (EmptyString ∈ labels)
  then HostBeyond
  else if numeric_label (List.last labels EmptyString)
  then if bool_decide (length labels = 4%nat)
          && forallb canonical_octet labels
       then HostOk h else HostBeyond
  else HostOk (map_chars lower_char h).

(** Port state.  [None]: the port is invalid. *)
Definition parse_port (scheme p : string) : option (option N) :=
  if bool_decide (p = EmptyString) then Some None
  else if negb (all_chars is_digit p) then None
  else let n := parse_decimal p 0 in
       if (65535 <? n)%N then None
       else if bool_decide (default_port scheme = Some n) then Some None
            else Some (Some n).

(** One step of the path state: the segment [seg] ends, at a slash or
    not. *)
Definition close_segment (path : list string) (seg : string) (slash : bool)
  : list string :=
  if bool_decide (seg = "..")
  then if slash then removelast path else removelast path ++ [EmptyString]
  else if bool_decide (seg = ".")
  then if slash then path else path ++ [EmptyString]
  else path ++ [seg].

(** Path state; stops at [?] or [#] and returns what is left. *)
Fixpoint path_state (path : list string) (buf : string) (s : string)
  : list string * string :=
  match s with
  | EmptyString => (close_segment path (String.rev buf) false, EmptyString)
  | String c s' =>
      if char_eqb c "/"
      then path_state (close_segment path (String.rev buf) true) EmptyString s'
      else if char_in c "?#"
      then (close_segment path (String.rev buf) false, s)
      else path_state path (String c buf) s'
  end.

(** Path start state of a special URL: one leading slash is consumed. *)
Definition path_start (s : string) : list string * string :=
  match s with
  | String c s' =>
      if char_eqb c "/" then path_state [] EmptyString s'
      else path_state [] EmptyString s
  | EmptyString => path_state [] EmptyString s
  end.

(** Query state and fragment state. *)
Definition query_fragment (keep : option string) (s : string)
  : option string * option string :=
  match s with
  | String c s' =>
      if char_eqb c "?"
      then let '(q, t) := break_at "#" s' in
           (Some q, match t with
                    | String _ f => Some f
                    | EmptyString => None
                    end)
      else if char_eqb c "#" then (keep, Some s')
      else (keep, None)
  | EmptyString => (keep, None)
  end.

(** Authority, host and port states, then the path of a special URL. *)
Definition parse_authority (scheme : string) (s : string) : outcome :=
  let '(authority, rest) := break_at "/?#" s in
  let '(h, after) := break_at ":" authority in
  if bool_decide (h = EmptyString) then Failure
  else
    match classify_host h with
    | HostBeyond => Beyond
    | HostOk host =>
        match parse_port scheme
                (match after with String _ p => p | EmptyString => EmptyString end)
        with
        | None => Failure
        | Some port =>
            let '(path, rest') := path_start rest in
            let '(q, f) := query_fragment None rest' in
            Parsed (mkURL scheme EmptyString EmptyString (Some host) port
                      (ListPath path) q f)
        end
    end.

(** Relative state and relative slash state, against a special base. *)
Definition parse_relative (base : URLrecord) (bpath : list string)
    (s : string) : outcome :=
  let with_base path q f :=
    Parsed (mkURL (url_scheme base) (url_username base) (url_password base)
              (url_host base) (url_port base) (ListPath path) q f) in
  match s with
  | EmptyString => with_base bpath (url_query base) None
  | String c s1 =>
      if char_eqb c "/"
      then match s1 with
           | String c2 s2 =>
               if char_eqb c2 "/"
               then parse_authority (url_scheme base) (drop_slashes s2)
               else let '(path, rest) := path_state [] EmptyString s1 in
                    let '(q, f) := query_fragment None rest in
                    with_base path q f
           | EmptyString =>
               let '(path, rest) := path_state [] EmptyString s1 in
               let '(q, f) := query_fragment None rest in
               with_base path q f
           end
      else if char_eqb c "?"
      then let '(q, f) := query_fragment None s in with_base bpath q f
      else if char_eqb c "#"
      then let '(q, f) := query_fragment (url_query base) s in
           with_base bpath q f
      else let '(path, rest) := path_state (removelast bpath) EmptyString s in
           let '(q, f) := query_fragment None rest in
           with_base path q f
  end.

(** The basic URL parser on the modelled inputs. *)
Definition basic_parse (input : string) (base : option URLrecord) : outcome :=
  if negb (all_chars safe_char input) then Beyond
  else
    match take_scheme input with
    | Some (scheme, rest) =>
        if negb (is_http scheme) then Beyond
        else
          match base with
          | Some b =>
              if bool_decide (url_scheme b = scheme)
              then match url_path_of b with
                   | ListPath bpath =>
                       if String.prefix "//" rest
                       then parse_authority scheme (drop_slashes rest)
                       else parse_relative b bpath rest
                   | OpaquePath _ => Beyond
                   end
              else parse_authority scheme (drop_slashes rest)
          | None => parse_authority scheme (drop_slashes rest)
          end
    | None =>
        match base with
        | None => Failure
        | Some b =>
            match url_path_of b with
            | ListPath bpath =>
                if is_http (url_scheme b) then parse_relative b bpath input
                else Beyond
            | OpaquePath _ => Beyond
            end
        end
    end.

(** The [pathname] setter parses its value from the path start state with
    a state override, where [?] and [#] no longer end the path. *)
Definition plain_path_value (v : string) : bool :=
  all_chars (fun c => safe_char c && negb (char_in c "?#")) v.

(** URL path serializer. *)
Definition serialize_path (p : url_path) : string :=
  match p with
  | OpaquePath s => s
  | ListPath segs =>
      fold_right (fun seg acc => "/" +:+ seg +:+ acc) EmptyString segs
  end.

Definition serialize_port (p : option N) : string :=
  match p with None => EmptyString | Some n => decimal n end.

(** URL serializer. *)
Definition serialize (u : URLrecord) : string :=
  url_scheme u +:+ ":"
  +:+ match url_host u with
      | Some h =>
          "//"
          +:+ (if bool_decide (url_username u = EmptyString)
                  && bool_decide (url_password u = EmptyString)
               then EmptyString
               else url_username u
                    +:+ (if bool_decide (url_password u = EmptyString)
                         then EmptyString else ":" +:+ url_password u)
                    +:+ "@")
          +:+ h
          +:+ match url_port u with
              | Some n => ":" +:+ decimal n
              | None => EmptyString
              end
      | None =>
          match url_path_of u with
          | ListPath (first :: _ :: _) =>
              if bool_decide (first = EmptyString) then "/." else EmptyString
          | _ => EmptyString
          end
      end
  +:+ serialize_path (url_path_of u)
  +:+ match url_query u with Some q => "?" +:+ q | None => EmptyString end
  +:+ match url_fragment u with Some f => "#" +:+ f | None => EmptyString end.

(** Serialization of the tuple origin of a URL whose scheme has one. *)
Definition has_tuple_origin (scheme : string) : bool :=
  bool_decide (scheme ∈ ["ftp"; "http"; "https"; "ws"; "wss"]).

Definition serialize_tuple_origin (u : URLrecord) : string :=
  url_scheme u +:+ "://" +:+ default EmptyString (url_host u)
  +:+ match url_port u with
      | Some n => ":" +:+ decimal n
      | None => EmptyString
      end.

End WhatWG.

(** ** What the model takes from the platform

    The XML parsers of the two classes (the [xml2js] library with the
    options each constructor passes), the URL parser and the [pathname]
    setter outside the modelled inputs, and lower-casing of text that is not
    ASCII. *)

Class Platform : Type := {
  discoverer_parseString : string -> completion jsval;
  controller_parseString : string -> completion jsval;
  whatwg_parse_beyond : string -> option URLrecord -> option URLrecord;
  whatwg_set_pathname_beyond : URLrecord -> string -> URLrecord;
  unicode_toLowerCase : string -> string;
}.

(** ** Network exchanges

    A [fetch] either rejects or resolves to a response; reading the body of
    a response ([response.text()]) may itself reject. *)

Record response : Type := mkResponse {
  status : N;
  text : completion string;
}.

Definition ok (r : response) : bool :=
  ((200 <=? status r) && (status r <=? 299))%N.

Definition fetch_outcome : Type := completion response.

(** What [findAVTransportService] returns for a matching node. *)
Record avService : Type := mkService {
  serviceType : string;
  service_controlURL : jsval;
}.

(** The descriptor built by [parseDeviceDescription]. *)
Record descriptor : Type := mkDescriptor {
  name : string;
  type : string;
  manufacturer : string;
  controlURL : option string;
  ip : string;
  originalLocation : string;
  port : string;
}.

Definition set_ip (d : descriptor) (address : string) : descriptor :=
  mkDescriptor (name d) (type d) (manufacturer d) (controlURL d) address
    (originalLocation d) (port d).

Definition AVTransport_prefix : string :=
  "urn:schemas-upnp-org:service:AVTransport:".

Definition CRLF : string := String "013" (String "010" EmptyString).

(** A JavaScript [Map] keeps its entries in insertion order; [set] on a
    present key replaces the value in place. *)
Section JsMap.
Context {V : Type}.

Fixpoint map_get (k : string) (m : list (string * V)) : option V :=
  match m with
  | [] => None
  | (k', v) :: rest => if bool_decide (k' = k) then Some v else map_get k rest
  end.

Definition map_has (k : string) (m : list (string * V)) : bool :=
  bool_decide (is_Some (map_get k m)).

Fixpoint map_set (k : string) (v : V) (m : list (string * V))
  : list (string * V) :=
  match m with
  | [] => [(k, v)]
  | (k', v') :: rest =>
      if bool_decide (k' = k) then (k, v) :: rest
      else (k', v') :: map_set k v rest
  end.

Definition map_values (m : list (string * V)) : list V := map snd m.
End JsMap.

Section Program.

Context `{Platform}.

Import JsString.

(** [s.toLowerCase()] *)
Definition toLowerCase (s : string) : string :=
  if all_chars is_ascii_char s then map_chars lower_char s
  else unicode_toLowerCase s.

(** *** The [URL] class: constructor, getters and the [pathname] setter *)

Definition url_parse (input : string) (base : option URLrecord)
  : option URLrecord :=
  match WhatWG.basic_parse input base with
  | WhatWG.Parsed u => Some u
  | WhatWG.Failure => None
  | WhatWG.Beyond => whatwg_parse_beyond input base
  end.

(** [new URL(input)] and [new URL(input, base)] *)
Definition URL_new (input : string) (base : option string)
  : completion URLrecord :=
  match base with
  | None =>
      match url_parse input None with
      | Some u => Normal u
      | None => Throw (TypeError "Invalid URL")
      end
  | Some b =>
      match url_parse b None with
      | None => Throw (TypeError "Invalid URL")
      | Some parsedBase =>
          match url_parse input (Some parsedBase) with
          | Some u => Normal u
          | None => Throw (TypeError "Invalid URL")
          end
      end
  end.

Definition URL_protocol (u : URLrecord) : string := url_scheme u +:+ ":".
Definition URL_port (u : URLrecord) : string :=
  WhatWG.serialize_port (url_port u).
Definition URL_pathname (u : URLrecord) : string :=
  WhatWG.serialize_path (url_path_of u).
Definition URL_href (u : URLrecord) : string := WhatWG.serialize u.

Definition URL_origin (u : URLrecord) : string :=
  if WhatWG.has_tuple_origin (url_scheme u)
  then WhatWG.serialize_tuple_origin u
  else if bool_decide (url_scheme u = "blob")
  then match url_parse (URL_pathname u) None with
       | Some inner =>
           if WhatWG.is_http (url_scheme inner)
           then WhatWG.serialize_tuple_origin inner
           else "null"
       | None => "null"
       end
  else "null".

(** [u.pathname = value] *)
Definition URL_set_pathname (u : URLrecord) (value : string) : URLrecord :=
  match url_path_of u with
  | OpaquePath _ => u
  | ListPath _ =>
      if WhatWG.has_tuple_origin (url_scheme u)
         && WhatWG.plain_path_value value
      then mkURL (url_scheme u) (url_username u) (url_password u)
             (url_host u) (url_port u)
             (ListPath (fst (WhatWG.path_start value)))
             (url_query u) (url_fragment u)
      else whatwg_set_pathname_beyond u value
  end.

(** *** [DLNADiscoverer.isValidHttpUrl] *)
Definition isValidHttpUrl (url : string) : bool :=
  try_catch
    (parsed ← URL_new url None;
     Normal (bool_decide (URL_protocol parsed = "http:")
             || bool_decide (URL_protocol parsed = "https:")))
    (fun _ => false).

(** *** [DLNADiscoverer.normalizeURL]; [None] is JavaScript's [null] *)
Definition normalizeURL (base : string) (path : jsval) : option string :=
  try_catch
    (baseURL ← URL_new base None;
     resolved ← URL_new (to_string path) (Some (URL_origin baseURL));
     let resolved' :=
       URL_set_pathname resolved (collapse_slashes (URL_pathname resolved)) in
     Normal (Some (URL_href resolved')))
    (fun _ => None).

(** *** [DLNADiscoverer.findAVTransportService] *)
Fixpoint findAVTransportService (node : jsval)
  : completion (option avService) :=
  match node with
  | JUndefined | JNull => Normal None
  | JString _ => Normal None
  | JArray items =>
      (fix over_items (l : list jsval) : completion (option avService) :=
         match l with
         | [] => Normal None
         | item :: rest =>
             found ← findAVTransportService item;
             match found with
             | Some svc => Normal (Some svc)
             | None => over_items rest
             end
         end) items
  | JObject props =>
      let over_values :=
        (fix over_values (l : list (string * jsval))
           : completion (option avService) :=
           match l with
           | [] => Normal None
           | (_, value) :: rest =>
               found ← findAVTransportService value;
               match found with
               | Some svc => Normal (Some svc)
               | None => over_values rest
               end
           end) in
      match default JUndefined (assoc "serviceType" props) with
      | JString st =>
          if startsWith st AVTransport_prefix
          then Normal (Some (mkService st
                               (default JUndefined (assoc "controlURL" props))))
          else over_values props
      | JUndefined | JNull => over_values props
      | JArray _ | JObject _ =>
          Throw (not_a_function "node.serviceType?.startsWith")
      end
  end.

(** [result.root?.device || result.device] *)
Definition root_device (result : jsval) : completion jsval :=
  root ← get_prop result "root";
  rootDevice ← get_prop_opt root "device";
  if truthy rootDevice then Normal rootDevice
  else get_prop result "device".

(** [v?.trim() || fallback] *)
Definition trimmed_or (v : jsval) (what fallback : string)
  : completion string :=
  match v with
  | JUndefined | JNull => Normal fallback
  | JString s =>
      Normal (if bool_decide (trim s = EmptyString) then fallback else trim s)
  | JArray _ | JObject _ => Throw (not_a_function (what +:+ "?.trim"))
  end.

(** *** [DLNADiscoverer.parseDeviceDescription]

    [net] is the outcome of [fetch(location)]; it is consulted only when
    the location passes [isValidHttpUrl]. *)
Definition parseDeviceDescription (location : string) (net : fetch_outcome)
  : option descriptor :=
  try_catch
    (if negb (isValidHttpUrl location) then Normal None
     else
       res ← net;
       if negb (ok res)
       then Throw (Error ("HTTP " +:+ decimal (status res)))
       else
         xml ← text res;
         result ← discoverer_parseString xml;
         device ← root_device result;
         if negb (truthy device) then Normal None
         else
           serviceList ← get_prop device "serviceList";
           avTransport ← findAVTransportService serviceList;
           match avTransport with
           | None => Normal None
           | Some av =>
               url ← URL_new location None;
               friendlyName ← get_prop device "friendlyName";
               name ← trimmed_or friendlyName "device.friendlyName"
                        "Unnamed Device";
               deviceType ← get_prop device "deviceType";
               type ← parseDeviceType deviceType;
               manufacturer ← get_prop device "manufacturer";
               manufacturer ← trimmed_or manufacturer "device.manufacturer"
                                "Unknown Manufacturer";
               Normal (Some (mkDescriptor name type manufacturer
                               (normalizeURL location (service_controlURL av))
                               "Pending" location (URL_port url)))
           end)
    (fun _ => None).

(** *** Header parsing in the [message] handler of [discover] *)

(** [acc[key] = value] on a plain object: assigning a string to
    [__proto__] creates no property. *)
Definition object_assign (acc : gmap string string) (key value : string)
  : gmap string string :=
  if bool_decide (key = "__proto__") then acc else <[key := value]> acc.

Definition header_line (acc : gmap string string) (line : string)
  : gmap string string :=
  let colonIndex := indexOf line ":" in
  if bool_decide (colonIndex = -1) then acc
  else
    let key := toLowerCase (trim (slice line 0 (Some colonIndex))) in
    let value := trim (slice line (colonIndex + 1) None) in
    if negb (bool_decide (key = EmptyString))
       && negb (bool_decide (value = EmptyString))
    then object_assign acc key value
    else acc.

Definition parse_headers (msg : string) : gmap string string :=
  fold_left header_line (split msg CRLF) ∅.

End Program.

(** ** One scan of [DLNADiscoverer.discover]

    The state of a scan: the socket and the discoverer's set of active
    sockets, the timer, the listeners registered so far, the [devices] map,
    the invocations of the [message] handler that are suspended at their
    [await], the value the promise was resolved with, and the exceptions
    that escaped a callback. *)

Record scan : Type := mkScan {
  socket : nat;
  activeSockets : gset nat;
  closed : bool;
  listening : bool;
  timer : bool;
  on_message : bool;
  sent : list (string * string);
  devices : list (string * descriptor);
  awaiting : list (string * string);
  resolved : option (list descriptor);
  uncaught : list exn;
}.

(** What the platform delivers to a scan. *)
Inductive event : Type :=
| EvError (err : exn)
| EvListening (setBroadcast addMembership1 addMembership2 : completion unit)
    (random_mx : N)
| EvMessage (msg : string) (address : string)
| EvFetched (task : nat) (net : fetch_outcome)
| EvTimeout.

(** Callbacks change the scan and may throw. *)
Definition action (A : Type) : Type := scan -> completion A * scan.

Global Instance action_ret : MRet action := fun A a st => (Normal a, st).
Global Instance action_bind : MBind action := fun A B f m st =>
  match m st with
  | (Normal a, st') => f a st'
  | (Throw e, st') => (Throw e, st')
  end.

Definition lift {A} (c : completion A) : action A := fun st => (c, st).
Definition modify (f : scan -> scan) : action unit := fun st => (Normal tt, f st).
Definition inspect {A} (f : scan -> A) : action A := fun st => (Normal (f st), st).

(** [try { body } catch { handler }] inside a callback. *)
Definition action_try (body handler : action unit) : action unit := fun st =>
  match body st with
  | (Normal _, st') => (Normal tt, st')
  | (Throw _, st') => handler st'
  end.

(** A callback run by the event loop: an exception that escapes it is
    uncaught. *)
Definition run_callback (cb : action unit) (st : scan) : scan :=
  match cb st with
  | (Normal _, st') => st'
  | (Throw e, st') =>
      mkScan (socket st') (activeSockets st') (closed st') (listening st')
        (timer st') (on_message st') (sent st') (devices st') (awaiting st')
        (resolved st') (uncaught st' ++ [e])
  end.

Definition set_timer (b : bool) (st : scan) : scan :=
  mkScan (socket st) (activeSockets st) (closed st) (listening st) b
    (on_message st) (sent st) (devices st) (awaiting st) (resolved st)
    (uncaught st).

Definition set_closed (st : scan) : scan :=
  mkScan (socket st) (activeSockets st) true (listening st) (timer st)
    (on_message st) (sent st) (devices st) (awaiting st) (resolved st)
    (uncaught st).

Definition set_listening (st : scan) : scan :=
  mkScan (socket st) (activeSockets st) (closed st) true (timer st)
    (on_message st) (sent st) (devices st) (awaiting st) (resolved st)
    (uncaught st).

Definition set_on_message (st : scan) : scan :=
  mkScan (socket st) (activeSockets st) (closed st) (listening st) (timer st)
    true (sent st) (devices st) (awaiting st) (resolved st) (uncaught st).

Definition set_activeSockets (a : gset nat) (st : scan) : scan :=
  mkScan (socket st) a (closed st) (listening st) (timer st) (on_message st)
    (sent st) (devices st) (awaiting st) (resolved st) (uncaught st).

Definition set_sent (l : list (string * string)) (st : scan) : scan :=
  mkScan (socket st) (activeSockets st) (closed st) (listening st) (timer st)
    (on_message st) l (devices st) (awaiting st) (resolved st) (uncaught st).

Definition set_devices (m : list (string * descriptor)) (st : scan) : scan :=
  mkScan (socket st) (activeSockets st) (closed st) (listening st) (timer st)
    (on_message st) (sent st) m (awaiting st) (resolved st) (uncaught st).

Definition set_awaiting (l : list (string * string)) (st : scan) : scan :=
  mkScan (socket st) (activeSockets st) (closed st) (listening st) (timer st)
    (on_message st) (sent st) (devices st) l (resolved st) (uncaught st).

(** [resolve(value)]: only the first call settles the promise. *)
Definition resolve (value : list descriptor) : action unit :=
  modify (fun st =>
    match resolved st with
    | Some _ => st
    | None =>
        mkScan (socket st) (activeSockets st) (closed st) (listening st)
          (timer st) (on_message st) (sent st) (devices st) (awaiting st)
          (Some value) (uncaught st)
    end).

(** [socket.close()] throws on a socket that is already closed. *)
Definition socket_close : action unit := fun st =>
  if closed st then (Throw (Error "Not running"), st)
  else (Normal tt, set_closed st).

(** [socket.send(msg, 1900, address)] *)
Definition socket_send (msg address : string) : action unit :=
  modify (fun st => set_sent (sent st ++ [(msg, address)]) st).

(** The [cleanup] closure of [discover]. *)
Definition cleanup : action unit :=
  modify (set_timer false);;
  socket_close;;
  modify (fun st => set_activeSockets (activeSockets st ∖ {[socket st]}) st).

Definition searchMsg (mx : N) : string :=
  JsString.join CRLF
    [ "M-SEARCH * HTTP/1.1";
      "HOST: 239.255.255.250:1900";
      "MAN: " +:+ String "034" "ssdp:discover" +:+ String "034" EmptyString;
      "MX: " +:+ JsString.decimal mx;
      "ST: urn:schemas-upnp-org:service:AVTransport:1";
      CRLF ].

(** [discover] up to the point where it returns its promise: the socket is
    created and added to the active set, the [error] listener is registered
    and [bind] is requested. *)
Definition discover_start (active : gset nat) (sock : nat) : scan :=
  mkScan sock (active ∪ {[sock]}) false false false false [] [] [] None [].

(** The [error] listener. *)
Definition on_error (err : exn) : action unit :=
  cleanup;; resolve [].

(** The callback of [socket.bind(1900, ...)]. *)
Definition on_listening (setBroadcast addMembership1 addMembership2
    : completion unit) (random_mx : N) : action unit :=
  lift setBroadcast;;
  lift addMembership1;;
  lift addMembership2;;
  socket_send (searchMsg random_mx) "239.255.255.250";;
  socket_send (searchMsg random_mx) "255.255.255.255";;
  modify (set_timer true);;
  modify set_on_message.

(** The callback of [setTimeout]. *)
Definition on_timeout : action unit :=
  cleanup;;
  st ← inspect devices;
  resolve (map_values st).

Section Scan.

Context `{Platform}.

(** The [message] listener up to its [await]. *)
Definition on_message_received (msg address : string) : action unit :=
  let headers := parse_headers msg in
  match headers !! "location" with
  | None => mret tt
  | Some location =>
      has ← inspect (fun st => map_has location (devices st));
      if has : bool then mret tt
      else modify (fun st => set_awaiting (awaiting st ++ [(location, address)]) st)
  end.

(** The [message] listener after its [await], for the invocation that
    waits on [location]. *)
Definition on_message_resumed (location address : string)
    (net : fetch_outcome) : action unit :=
  match parseDeviceDescription location net with
  | Some device =>
      modify (fun st =>
        set_devices (map_set location (set_ip device address) (devices st)) st)
  | None => mret tt
  end.

(** The event loop: which callback an event runs, if any. *)
Definition deliver (st : scan) (ev : event) : scan :=
  match ev with
  | EvError err =>
      if closed st then st else run_callback (on_error err) st
  | EvListening sb am1 am2 mx =>
      if closed st || listening st then st
      else run_callback (on_listening sb am1 am2 mx) (set_listening st)
  | EvMessage msg address =>
      if on_message st && negb (closed st)
      then run_callback (on_message_received msg address) st
      else st
  | EvFetched task net =>
      match awaiting st !! task with
      | Some (location, address) =>
          run_callback (on_message_resumed location address net)
            (set_awaiting (delete task (awaiting st)) st)
      | None => st
      end
  | EvTimeout =>
      if timer st then run_callback on_timeout (set_timer false st) else st
  end.

Definition run (st : scan) (evs : list event) : scan :=
  fold_left deliver evs st.

End Scan.

(** ** [DLNAController]

    The controller talks to the network through [fetch].  A [network]
    answers a request knowing the requests issued before it; the requests
    issued are recorded in order. *)

Record request : Type := mkRequest {
  req_method : string;
  req_url : string;
  req_headers : list (string * string);
  req_body : option string;
}.

Definition network : Type := list request -> request -> fetch_outcome.

Definition io (A : Type) : Type := list request -> completion A * list request.

Global Instance io_ret : MRet io := fun A a issued => (Normal a, issued).
Global Instance io_bind : MBind io := fun A B f m issued =>
  match m issued with
  | (Normal a, issued') => f a issued'
  | (Throw e, issued') => (Throw e, issued')
  end.

Definition io_lift {A} (c : completion A) : io A := fun issued => (c, issued).

Definition io_try {A} (body : io A) (handler : exn -> io A) : io A :=
  fun issued =>
    match body issued with
    | (Normal a, issued') => (Normal a, issued')
    | (Throw e, issued') => handler e issued'
    end.

Definition fetch (net : network) (req : request) : io response :=
  fun issued => (net issued req, issued ++ [req]).

Record controlService : Type := mkControlService {
  cs_controlURL : jsval;
  cs_serviceType : jsval;
}.

(** The argument [deviceLocation] of [play]. *)
Record playTarget : Type := mkTarget {
  target_location : string;
  target_ip : string;
  target_port : string;
}.

(** The object [play] returns; [error] is absent on success. *)
Record playResult : Type := mkResult {
  success : bool;
  error : option string;
}.

Definition LF : string := String "010" EmptyString.
Definition DQ : string := String "034" EmptyString.

Definition soapEnvelope (serviceType action body : string) : string :=
  LF
  +:+ "            <?xml version=" +:+ DQ +:+ "1.0" +:+ DQ +:+ " encoding="
        +:+ DQ +:+ "utf-8" +:+ DQ +:+ "?>" +:+ LF
  +:+ "            <s:Envelope xmlns:s=" +:+ DQ
        +:+ "http://schemas.xmlsoap.org/soap/envelope/" +:+ DQ +:+ " " +:+ LF
  +:+ "                        s:encodingStyle=" +:+ DQ
        +:+ "http://schemas.xmlsoap.org/soap/encoding/" +:+ DQ +:+ ">" +:+ LF
  +:+ "                <s:Body>" +:+ LF
  +:+ "                    <u:" +:+ action +:+ " xmlns:u=" +:+ DQ
        +:+ serviceType +:+ DQ +:+ ">" +:+ LF
  +:+ "                        " +:+ body +:+ LF
  +:+ "                    </u:" +:+ action +:+ ">" +:+ LF
  +:+ "                </s:Body>" +:+ LF
  +:+ "            </s:Envelope>" +:+ LF
  +:+ "        ".

(** The request [sendSoapRequest] hands to [fetch]. *)
Definition soapRequest (controlURL serviceType action body : string) : request :=
  let envelope := soapEnvelope serviceType action body in
  mkRequest "POST" controlURL
    [ ("Content-Type", "text/xml; charset=" +:+ DQ +:+ "utf-8" +:+ DQ);
      ("SOAPAction", DQ +:+ serviceType +:+ "#" +:+ action +:+ DQ);
      ("Connection", "close");
      ("Content-Length",
       JsString.decimal (N.of_nat (String.length envelope))) ]
    (Some envelope).

(** The body of the [SetAVTransportURI] action built by [play]. *)
Definition setURIBody (mediaURL : string) : string :=
  "<CurrentURI>" +:+ escapeXml mediaURL +:+ "</CurrentURI>" +:+ LF
  +:+ "                 <CurrentURIMetaData></CurrentURIMetaData>".

Definition controlUrlFull (deviceLocation : playTarget) (av : controlService)
  : string :=
  "http://" +:+ target_ip deviceLocation +:+ ":"
  +:+ target_port deviceLocation +:+ to_string (cs_controlURL av).

Module DLNAController.
Section Controller.

Context `{Platform}.
Variable net : network.

(** [services.find(s => s.serviceType?.startsWith(prefix))] *)
Fixpoint find_service (services : list jsval) : completion (option jsval) :=
  match services with
  | [] => Normal None
  | s :: rest =>
      st ← get_prop s "serviceType";
      matches ← match st with
                 | JUndefined | JNull => Normal false
                 | JString t => Normal (JsString.startsWith t AVTransport_prefix)
                 | JArray _ | JObject _ =>
                     Throw (not_a_function "s.serviceType?.startsWith")
                 end;
      if matches : bool then Normal (Some s) else find_service rest
  end.

(** [DLNAController.findAVTransportService] *)
Definition findAVTransportService (serviceList : jsval)
  : completion (option controlService) :=
  service ← get_prop serviceList "service";
  let services := match service with JArray l => l | v => [v] end in
  avTransport ← find_service services;
  match avTransport with
  | None => Normal None
  | Some s =>
      controlURL ← get_prop s "controlURL";
      serviceType ← get_prop s "serviceType";
      Normal (Some (mkControlService controlURL serviceType))
  end.

(** [DLNAController.getDeviceDetails]; the result is its [avTransport]
    field. *)
Definition getDeviceDetails (location : string)
  : io (option controlService) :=
  io_try
    (res ← fetch net (mkRequest "GET" location [] None);
     xml ← io_lift (text res);
     result ← io_lift (controller_parseString xml);
     device ← io_lift (root_device result);
     serviceList ← io_lift (get_prop device "serviceList");
     io_lift (findAVTransportService serviceList))
    (fun err => io_lift (Throw (Error ("设备信息获取失败: " +:+ message err)))).

(** [DLNAController.sendSoapRequest] *)
Definition sendSoapRequest (controlURL serviceType action body : string)
  : io jsval :=
  response ← fetch net (soapRequest controlURL serviceType action body);
  if negb (ok response)
  then
    errorText ← io_lift (text response);
    io_lift (Throw (Error ("SOAP请求失败: " +:+ JsString.decimal (status response)
                             +:+ " - " +:+ errorText)))
  else
    received ← io_lift (text response);
    io_lift (controller_parseString received).

(** [DLNAController.play] *)
Definition play (deviceLocation : playTarget) (mediaURL : string)
  : io playResult :=
  io_try
    (avTransport ← getDeviceDetails (target_location deviceLocation);
     match avTransport with
     | None => io_lift (Throw (Error "设备不支持投屏功能"))
     | Some av =>
         let url := controlUrlFull deviceLocation av in
         sendSoapRequest url (to_string (cs_serviceType av))
           "SetAVTransportURI" (setURIBody mediaURL);;
         sendSoapRequest url (to_string (cs_serviceType av))
           "Play" "<Speed>1</Speed>";;
         mret (mkResult true None)
     end)
    (fun err => mret (mkResult false (Some (message err)))).

End Controller.
End DLNAController.

(** ** The older copy of the discoverer kept in the repository

    [src/unnamed/part_000] holds an earlier version of [DLNADiscoverer].
    The methods that differ from [src/index.js] and matter below are kept
    here for comparison. *)

Module Legacy.
Section Legacy.

Context `{Platform}.

(** [(typeStr || '').split(':').slice(-2, -1)[0] || 'MediaRenderer'] *)
Definition parseDeviceType (typeStr : jsval) : completion string :=
  parts ← match js_or typeStr (JString EmptyString) with
           | JString s => Normal (JsString.split s ":")
           | _ =>
               Throw (not_a_function
                        ("(typeStr || "
                         +:+ String "034" (String "034" ").split")))
           end;
  let picked :=
    match rev parts with
    | _ :: before_last :: _ => JString before_last
    | _ => JUndefined
    end in
  Normal (to_string (js_or picked (JString "MediaRenderer"))).

(** [const [key, value] = line.split(':').map((s) => s.trim())] *)
Definition header_line (acc : gmap string string) (line : string)
  : gmap string string :=
  let parts := map JsString.trim (JsString.split line ":") in
  match parts with
  | key :: value :: _ =>
      if negb (bool_decide (key = EmptyString))
         && negb (bool_decide (value = EmptyString))
      then object_assign acc (toLowerCase key) value
      else acc
  | _ => acc
  end.

Definition parse_headers (msg : string) : gmap string string :=
  fold_left header_line (JsString.split msg CRLF) ∅.

(** The callback of [socket.bind(...)], with the membership call and the
    send inside [try]/[catch]. *)
Definition on_listening (addMembership1 : completion unit) (random_mx : N)
  : action unit :=
  action_try
    (lift addMembership1;;
     socket_send (searchMsg random_mx) "239.255.255.250")
    (cleanup;; resolve []);;
  modify (set_timer true);;
  modify set_on_message.

End Legacy.
End Legacy.

(** ** Specification-side notions *)

(** The object nodes of a parsed tree in the order of a depth-first
    traversal: a node before its property values, values and array items
    in order. *)
Fixpoint objects_preorder (node : jsval) : list (list (string * jsval)) :=
  match node with
  | JUndefined | JNull | JString _ => []
  | JArray items =>
      (fix over_items (l : list jsval) : list (list (string * jsval)) :=
         match l with
         | [] => []
         | item :: rest => objects_preorder item ++ over_items rest
         end) items
  | JObject props =>
      props ::
      (fix over_values (l : list (string * jsval))
         : list (list (string * jsval)) :=
         match l with
         | [] => []
         | (_, value) :: rest => objects_preorder value ++ over_values rest
         end) props
  end.

(** The [serviceType] of a node begins with the AVTransport prefix. *)
Definition is_AVTransport (props : list (string * jsval)) : bool :=
  match assoc "serviceType" props with
  | Some (JString st) => JsString.startsWith st AVTransport_prefix
  | _ => false
  end.

(** The [serviceType] of a node is absent or plain text. *)
Definition plain_serviceType (props : list (string * jsval)) : bool :=
  match assoc "serviceType" props with
  | Some (JArray _) | Some (JObject _) => false
  | _ => true
  end.

Definition service_of (props : list (string * jsval)) : avService :=
  mkService
    (match assoc "serviceType" props with
     | Some (JString st) => st
     | _ => EmptyString
     end)
    (default JUndefined (assoc "controlURL" props)).

(** The first node of the traversal that decides the search: a match, or a
    node whose [serviceType] is not plain text. *)
Definition decisive (props : list (string * jsval)) : bool :=
  is_AVTransport props || negb (plain_serviceType props).

(** Keys of the [devices] map are distinct, every entry is filed under its
    own location, and a settled promise holds one entry per location. *)
Definition scan_inv (st : scan) : Prop :=
  NoDup (map fst (devices st))
  /\ Forall (fun kd => originalLocation kd.2 = kd.1) (devices st)
  /\ forall r, resolved st = Some r -> NoDup (originalLocation <$> r).

(** While the timer is pending the socket is open and the promise is not
    settled. *)
Definition scan_running (st : scan) : Prop :=
  (timer st = true -> closed st = false)
  /\ (closed st = false -> resolved st = None).

(** Two consecutive path separators occur in [s]. *)
Fixpoint has_double_slash (s : string) : bool :=
  match s with
  | String a ((String b _) as rest) =>
      (JsString.char_eqb a "/" && JsString.char_eqb b "/")
      || has_double_slash rest
  | _ => false
  end.

(** A path segment that is followed by another one: no separator inside,
    and not empty. *)
Definition inner_segment (seg : string) : Prop :=
  JsString.free_of "/" seg /\ seg <> EmptyString.

(** The default port of a scheme as it is written in a URL. *)
Definition default_port_text (scheme : string) : string :=
  match WhatWG.default_port scheme with
  | Some n => JsString.decimal n
  | None => EmptyString
  end.

(** [rest] is empty or begins with a character of [stops]. *)
Definition starts_with_one_of (stops : string) (rest : string) : bool :=
  match rest with
  | EmptyString => true
  | String c _ => WhatWG.char_in c stops
  end.

Definition is_error (ev : event) : bool :=
  match ev with EvError _ => true | _ => false end.

(** What the search must answer according to the first decisive node. *)
Definition outcome_of (found : option (list (string * jsval)))
  : completion (option avService) :=
  match found with
  | None => Normal None
  | Some props =>
      if is_AVTransport props then Normal (Some (service_of props))
      else Throw (not_a_function "node.serviceType?.startsWith")
  end.

Definition search_outcome (node : jsval) : completion (option avService) :=
  outcome_of (List.find decisive (objects_preorder node)).


(** The requests [play] issues, for the service [av] found in the device
    description. *)
Definition getRequest (location : string) : request :=
  mkRequest "GET" location [] None.

Definition setRequest (deviceLocation : playTarget) (av : controlService)
    (mediaURL : string) : request :=
  soapRequest (controlUrlFull deviceLocation av) (to_string (cs_serviceType av))
    "SetAVTransportURI" (setURIBody mediaURL).

Definition playRequest (deviceLocation : playTarget) (av : controlService)
  : request :=
  soapRequest (controlUrlFull deviceLocation av) (to_string (cs_serviceType av))
    "Play" "<Speed>1</Speed>".

(** The message of the error [sendSoapRequest] throws on a response that
    is not 2xx. *)
Definition soapFailure (res_status : N) (errorText : string) : string :=
  "SOAP请求失败: " +:+ JsString.decimal res_status +:+ " - " +:+ errorText.




(** ** A platform for the closed examples

    The XML parsers are tabulated on the documents the examples use (single
    line, no attributes, so both parsers of the program yield the same tree);
    nothing else of the platform is consulted by the examples. *)

Definition service_xml (svc : string * string) : string :=
  "<service><serviceType>" +:+ svc.1 +:+ "</serviceType><controlURL>"
  +:+ svc.2 +:+ "</controlURL></service>".

Definition service_tree (svc : string * string) : jsval :=
  JObject [("serviceType", JString svc.1); ("controlURL", JString svc.2)].

Definition device_xml (friendlyName : string) (services : list (string * string))
  : string :=
  "<root><device><friendlyName>" +:+ friendlyName
  +:+ "</friendlyName><serviceList>"
  +:+ fold_right (fun svc acc => service_xml svc +:+ acc) EmptyString services
  +:+ "</serviceList></device></root>".

Definition device_tree (friendlyName : string) (services : list (string * string))
  : jsval :=
  JObject
    [("root",
      JObject
        [("device",
          JObject
            [("friendlyName", JString friendlyName);
             ("serviceList",
              match services with
              | [] => JString EmptyString
              | [svc] => JObject [("service", service_tree svc)]
              | _ => JObject [("service", JArray (map service_tree services))]
              end)])])].

Definition AVTransport1 : string := "urn:schemas-upnp-org:service:AVTransport:1".
Definition AVTransport2 : string := "urn:schemas-upnp-org:service:AVTransport:2".
Definition RenderingControl1 : string :=
  "urn:schemas-upnp-org:service:RenderingControl:1".
Definition ConnectionManager1 : string :=
  "urn:schemas-upnp-org:service:ConnectionManager:1".

Definition example_devices : list (string * list (string * string)) :=
  [ ("Living Room TV", [(AVTransport1, "/upnp/control/AVTransport")]);
    ("Kitchen", [(RenderingControl1, "/rc"); (AVTransport2, "/av2")]);
    ("Speaker", [(RenderingControl1, "/rc"); (ConnectionManager1, "/cm")]);
    ("Projector", [(AVTransport1, "http://192.168.1.9:99999/ctl")]) ].

Definition example_documents : list (string * jsval) :=
  ("<ok></ok>", JObject [("ok", JString EmptyString)])
  :: map (fun d => (device_xml d.1 d.2, device_tree d.1 d.2)) example_devices.

(** What the discoverer's parser yields for a service list whose first
    service writes its type with an attribute,
    [<serviceType id=...>urn:...:RenderingControl:1</serviceType>], and
    whose second service is an AVTransport. *)
Definition attributed_serviceList : jsval :=
  JObject
    [("service",
      JArray
        [ JObject
            [("serviceType",
              JObject [("_", JString RenderingControl1); ("id", JString "1")]);
             ("controlURL", JString "/rc")];
          service_tree (AVTransport1, "/av") ])].

Definition tabulated_parser (xml : string) : completion jsval :=
  match assoc xml example_documents with
  | Some tree => Normal tree
  | None => Throw (Error "document outside the table")
  end.

Definition example_platform : Platform := {|
  discoverer_parseString := tabulated_parser;
  controller_parseString := tabulated_parser;
  whatwg_parse_beyond := fun _ _ => None;
  whatwg_set_pathname_beyond := fun u _ => u;
  unicode_toLowerCase := fun s => s;
|}.

(** Datagrams, exchanges and event sequences of the examples. *)
Definition example_datagram (location : string) : string :=
  "HTTP/1.1 200 OK" +:+ CRLF
  +:+ "CACHE-CONTROL: max-age=1800" +:+ CRLF
  +:+ "LOCATION: " +:+ location +:+ CRLF
  +:+ "ST: urn:schemas-upnp-org:service:AVTransport:1" +:+ CRLF
  +:+ CRLF.

Definition example_fetch (friendlyName : string)
    (services : list (string * string)) : fetch_outcome :=
  Normal (mkResponse 200 (Normal (device_xml friendlyName services))).

Definition joined : completion unit := Normal tt.

(** Two renderers with the same friendly name answer from two locations,
    the first one twice. *)
Definition example_two_renderers : list event :=
  [ EvListening joined joined joined 2;
    EvMessage (example_datagram "http://192.168.1.5/desc.xml") "192.168.1.5";
    EvMessage (example_datagram "http://192.168.1.6:8080/desc.xml") "192.168.1.6";
    EvMessage (example_datagram "http://192.168.1.5/desc.xml") "192.168.1.5";
    EvFetched 0
      (example_fetch "Living Room TV" [(AVTransport1, "/upnp/control/AVTransport")]);
    EvFetched 0
      (example_fetch "Living Room TV" [(AVTransport1, "/upnp/control/AVTransport")]);
    EvFetched 0
      (example_fetch "Living Room TV" [(AVTransport1, "/upnp/control/AVTransport")]) ].

(** A renderer whose control URL carries a port out of range. *)
Definition example_bad_control : list event :=
  [ EvListening joined joined joined 1;
    EvMessage (example_datagram "http://192.168.1.9/desc.xml") "192.168.1.9";
    EvFetched 0
      (example_fetch "Projector" [(AVTransport1, "http://192.168.1.9:99999/ctl")]);
    EvTimeout ].

(** A renderer that serves its description and refuses the first control
    request with status 500, and one that accepts everything. *)
Definition example_target : playTarget :=
  mkTarget "http://192.168.1.5/desc.xml" "192.168.1.5" "49152".

Definition example_service : controlService :=
  mkControlService (JString "/upnp/control/AVTransport") (JString AVTransport1).

Definition refusing_network : network := fun issued _ =>
  match issued with
  | [] => example_fetch "Living Room TV"
            [(AVTransport1, "/upnp/control/AVTransport")]
  | [_] => Normal (mkResponse 500 (Normal "UPnPError 714"))
  | _ => Normal (mkResponse 200 (Normal "<ok></ok>"))
  end.

Definition accepting_network : network := fun issued _ =>
  match issued with
  | [] => example_fetch "Living Room TV"
            [(AVTransport1, "/upnp/control/AVTransport")]
  | _ => Normal (mkResponse 200 (Normal "<ok></ok>"))
  end.

(** ** [DLNADiscoverer.shutdown]

    What [shutdown] does to a scan in flight.  The socket of the scan, when
    it is still in the active set, loses its listeners and is closed inside
    [try]/[catch]; then the set is cleared.  The timer of the scan lives in
    the closure of [discover] and is out of reach of [shutdown]. *)

Definition clear_listeners (st : scan) : scan :=
  mkScan (socket st) (activeSockets st) (closed st) (listening st) (timer st)
    false (sent st) (devices st) (awaiting st) (resolved st) (uncaught st).

(** [socket.removeAllListeners()] *)
Definition removeAllListeners : action unit := modify clear_listeners.

Definition shutdown (st : scan) : scan :=
  let closing : action unit :=
    if bool_decide (socket st ∈ activeSockets st)
    then action_try (removeAllListeners;; socket_close) (mret tt)
    else mret tt in
  set_activeSockets ∅ (closing st).2.

(** ** Further specification-side notions *)

(** The value of a property that is read from a device node. *)
Definition property (device : jsval) (k : string) : jsval :=
  match get_prop device k with Normal v => v | Throw _ => JUndefined end.

(** A value on which [?.trim()] and [(v || '').split] do not throw. *)
Definition text_or_absent (v : jsval) : bool :=
  match v with JArray _ | JObject _ => false | _ => true end.

(** The set-up calls of the [bind] callback all succeed. *)
Definition setup_ok (ev : event) : bool :=
  match ev with
  | EvListening (Normal _) (Normal _) (Normal _) _ => true
  | EvListening _ _ _ _ => false
  | _ => true
  end.

(** Some datagram among [evs] came from [address] and named [location]. *)
Definition announced `{Platform} (evs : list event) (location address : string)
  : bool :=
  existsb (fun ev =>
             match ev with
             | EvMessage msg from =>
                 bool_decide (from = address)
                 && bool_decide (parse_headers msg !! "location" = Some location)
             | _ => false
             end) evs.

(** The two datagrams a scan sends. *)
Definition search_datagrams (mx : N) : list (string * string) :=
  [ (searchMsg mx, "239.255.255.250"); (searchMsg mx, "255.255.255.255") ].

(** A descriptor of a result that is filed under a valid location, carries
    the address of a datagram that named this location, and has a name and a
    manufacturer to show. *)
Definition well_sourced `{Platform} (evs : list event) (d : descriptor) : Prop :=
  isValidHttpUrl (originalLocation d) = true
  /\ announced evs (originalLocation d) (ip d) = true
  /\ name d <> EmptyString /\ manufacturer d <> EmptyString.

(** ** The older [parseDeviceDescription]

    In [src/unnamed/part_000] the search for the AVTransport service is a
    closure [findServices] that collects every node with a [serviceType],
    each with its control URL already normalized, followed by a [find] on the
    collected array.  There is no check of the location and no check that a
    device node exists. *)

Module LegacyResolver.
Section LegacyResolver.

Context `{Platform}.

(** The objects [findServices] pushes. *)
Record serviceEntry : Type := mkEntry {
  entry_serviceType : jsval;
  entry_controlURL : option string;
}.

(** [if (node.serviceType) services.push({...})] *)
Definition push_service (location : string) (props : list (string * jsval))
  : list serviceEntry :=
  let serviceType := default JUndefined (assoc "serviceType" props) in
  if truthy serviceType
  then [mkEntry serviceType
          (normalizeURL location (default JUndefined (assoc "controlURL" props)))]
  else [].

(** [findServices(node)], the array it returns. *)
Fixpoint findServices (location : string) (node : jsval) : list serviceEntry :=
  match node with
  | JUndefined | JNull | JString _ => []
  | JArray items =>
      (fix over_items (l : list jsval) : list serviceEntry :=
         match l with
         | [] => []
         | item :: rest => findServices location item ++ over_items rest
         end) items
  | JObject props =>
      push_service location props
      ++ (fix over_values (l : list (string * jsval)) : list serviceEntry :=
            match l with
            | [] => []
            | (_, value) :: rest =>
                findServices location value ++ over_values rest
            end) props
  end.

(** [services.find((s) => s.serviceType.startsWith(prefix))] *)
Fixpoint find_AVTransport (services : list serviceEntry)
  : completion (option serviceEntry) :=
  match services with
  | [] => Normal None
  | s :: rest =>
      matches ← match entry_serviceType s with
                 | JString t => Normal (JsString.startsWith t AVTransport_prefix)
                 | JUndefined =>
                     Throw (TypeError
                              "Cannot read properties of undefined (reading 'startsWith')")
                 | JNull =>
                     Throw (TypeError
                              "Cannot read properties of null (reading 'startsWith')")
                 | JArray _ | JObject _ =>
                     Throw (not_a_function "s.serviceType.startsWith")
                 end;
      if matches : bool then Normal (Some s) else find_AVTransport rest
  end.

(** The descriptor the older copy builds. *)
Record descriptor : Type := mkDescriptor {
  name : string;
  type : string;
  manufacturer : string;
  controlURL : option string;
  ip : string;
}.

Definition parseDeviceDescription (location : string) (net : fetch_outcome)
  : option descriptor :=
  try_catch
    (res ← net;
     if negb (ok res)
     then Throw (Error ("HTTP " +:+ JsString.decimal (status res)))
     else
       xml ← text res;
       result ← discoverer_parseString xml;
       device ← root_device result;
       serviceList ← get_prop device "serviceList";
       avTransport ← find_AVTransport (findServices location serviceList);
       match avTransport with
       | None => Normal None
       | Some av =>
           friendlyName ← get_prop device "friendlyName";
           name ← trimmed_or friendlyName "device.friendlyName"
                    "Unknown Device";
           deviceType ← get_prop device "deviceType";
           type ← Legacy.parseDeviceType deviceType;
           manufacturer ← get_prop device "manufacturer";
           manufacturer ← trimmed_or manufacturer "device.manufacturer"
                            "Unknown";
           Normal (Some (mkDescriptor name type manufacturer
                           (entry_controlURL av) "Pending"))
       end)
    (fun _ => None).

End LegacyResolver.
End LegacyResolver.

(** The value of a completion, when there is one. *)
Definition settled {A : Type} (c : completion A) : option A :=
  match c with Normal a => Some a | Throw _ => None end.

(** The entry the older search yields for a service the current search
    yields. *)
Definition normalized `{Platform} (location : string) (svc : avService)
  : LegacyResolver.serviceEntry :=
  LegacyResolver.mkEntry (JString (serviceType svc))
    (normalizeURL location (service_controlURL svc)).

(** Two descriptors of one device, from the older and the current
    resolver: the same control URL and address, and the same name and
    manufacturer unless both fell back to their defaults. *)
Definition same_device (old : LegacyResolver.descriptor) (new : descriptor)
  : Prop :=
  LegacyResolver.controlURL old = controlURL new
  /\ LegacyResolver.ip old = ip new
  /\ (LegacyResolver.name old = name new
      \/ LegacyResolver.name old = "Unknown Device"
         /\ name new = "Unnamed Device")
  /\ (LegacyResolver.manufacturer old = manufacturer new
      \/ LegacyResolver.manufacturer old = "Unknown"
         /\ manufacturer new = "Unknown Manufacturer").

(** What [getDeviceDetails] computes from the outcome of its [fetch], before
    its [catch] wraps a failure. *)
Definition avTransport_of `{Platform} (r : fetch_outcome)
  : completion (option controlService) :=
  res ← r;
  xml ← text res;
  result ← controller_parseString xml;
  device ← root_device result;
  serviceList ← get_prop device "serviceList";
  DLNAController.findAVTransportService serviceList.

(** What [sendSoapRequest] computes from the outcome of its [fetch]. *)
Definition soap_exchange `{Platform} (r : fetch_outcome) : completion jsval :=
  response ← r;
  if negb (ok response)
  then errorText ← text response;
       Throw (Error (soapFailure (status response) errorText))
  else received ← text response;
       controller_parseString received.

(** The control exchange [r] was accepted: a 2xx status and a body that can
    be read and parses. *)
Definition accepted `{Platform} (r : fetch_outcome) : Prop :=
  exists res body v,
    r = Normal res /\ ok res = true /\ text res = Normal body
    /\ controller_parseString body = Normal v.

(** Messages of the errors [play] reports before any control request. *)
Definition description_failure (cause : string) : string :=
  "设备信息获取失败: " +:+ cause.

Definition unsupported_device : string := "设备不支持投屏功能".

(** A service list as the parser yields it for services that consist of
    text elements only. *)
Definition text_only (props : list (string * jsval)) : Prop :=
  Forall (fun kv => exists s, kv.2 = JString s) props.

Definition flat_serviceList (services : list (list (string * jsval))) : jsval :=
  JObject [("service",
            match services with
            | [props] => JObject props
            | _ => JArray (JObject <$> services)
            end)].

Definition control_of (props : list (string * jsval)) : controlService :=
  mkControlService (default JUndefined (assoc "controlURL" props))
    (default JUndefined (assoc "serviceType" props)).

(** ** The heartbeat of a WebSocket connection

    Each connection carries a flag [isAlive] and an interval.  A tick of the
    interval terminates the connection when the flag is down, and otherwise
    lowers the flag and sends a ping; a pong raises the flag; closing the
    connection clears the interval. *)

Module Heartbeat.

Record connection : Type := mkConnection {
  isAlive : bool;
  heartbeat : bool;
  terminated : bool;
  pings : nat;
}.

Inductive event : Type :=
| Tick
| Pong
| Close.


Definition deliver (c : connection) (ev : event) : connection :=
  match ev with
  | Tick =>
      if heartbeat c
      then if negb (isAlive c)
           then mkConnection (isAlive c) (heartbeat c) true (pings c)
           else mkConnection false (heartbeat c) (terminated c) (S (pings c))
      else c
  | Pong => mkConnection true (heartbeat c) (terminated c) (pings c)
  | Close => mkConnection (isAlive c) false (terminated c) (pings c)
  end.

Definition run (c : connection) (evs : list event) : connection :=
  fold_left deliver evs c.


End Heartbeat.

(** A path segment that the URL parser keeps as it is: characters that need
    no encoding, no separator, and not a dot segment. *)
Definition plain_segment (seg : string) : Prop :=
  JsString.all_chars
    (fun c => WhatWG.safe_char c && negb (WhatWG.char_in c "/?#")) seg = true
  /\ seg <> "." /\ seg <> "..".

(** The port as it is written after the host. *)
Definition port_suffix (p : option N) : string :=
  match p with
  | Some n => ":" +:+ JsString.decimal n
  | None => EmptyString
  end.

(** A port that is written in canonical form and is not the default of the
    scheme. *)
Definition canonical_port (scheme : string) (p : option N) : Prop :=
  forall n, p = Some n ->
            WhatWG.parse_port scheme (JsString.decimal n) = Some (Some n).

(** ** Commands over the WebSocket

    The [message] handler of a connection parses a command and answers it.
    [JSON.parse] belongs to the platform and is a parameter here.  Of a
    number the program only ever uses the truth value and the rendering as a
    string, so a number is represented by these two.  Reading a missing
    property yields [undefined], which is [None] below.  A reply is the
    object the handler passes to [JSON.stringify] and [ws.send]. *)

Inductive json : Type :=
| JsonNull
| JsonBool (b : bool)
| JsonNumber (rendering : string) (nonzero : bool)
| JsonString (s : string)
| JsonArray (items : list json)
| JsonObject (props : list (string * json)).

Definition json_truthy (v : option json) : bool :=
  match v with
  | None | Some JsonNull => false
  | Some (JsonBool b) => b
  | Some (JsonNumber _ nonzero) => nonzero
  | Some (JsonString s) => negb (bool_decide (s = EmptyString))
  | Some (JsonArray _) | Some (JsonObject _) => true
  end.

Fixpoint json_assoc (k : string) (props : list (string * json)) : option json :=
  match props with
  | [] => None
  | (k', v) :: rest => if bool_decide (k' = k) then Some v else json_assoc k rest
  end.

(** [v.k] for the property names the handler and [play] read ([type],
    [data], [device], [mediaURL], [location], [ip], [port]); none of them is
    a built-in property of a primitive or an array. *)
Definition json_get (v : option json) (k : string) : completion (option json) :=
  match v with
  | None =>
      Throw (TypeError ("Cannot read properties of undefined (reading '"
                          +:+ k +:+ "')"))
  | Some JsonNull =>
      Throw (TypeError ("Cannot read properties of null (reading '"
                          +:+ k +:+ "')"))
  | Some (JsonObject props) => Normal (json_assoc k props)
  | Some _ => Normal None
  end.

(** [v?.k] *)
Definition json_get_opt (v : option json) (k : string)
  : completion (option json) :=
  match v with
  | None | Some JsonNull => Normal None
  | _ => json_get v k
  end.

(** [String(v)] *)
Fixpoint json_to_string (v : json) : string :=
  match v with
  | JsonNull => "null"
  | JsonBool b => if b then "true" else "false"
  | JsonNumber rendering _ => rendering
  | JsonString s => s
  | JsonArray items =>
      JsString.join ","
        (map (fun x => match x with
                       | JsonNull => EmptyString
                       | _ => json_to_string x
                       end) items)
  | JsonObject _ => "[object Object]"
  end.

Definition json_text (v : option json) : string :=
  match v with None => "undefined" | Some x => json_to_string x end.

Definition json_is (v : option json) (s : string) : bool :=
  match v with
  | Some (JsonString t) => bool_decide (t = s)
  | _ => false
  end.

Inductive reply : Type :=
| Devices (data : list descriptor) (timestamp : N)
| InvalidParameters
| Result (data : playResult)
| CommandError (details : string).

(** The [location], [ip] and [port] that [play] reads from the device of a
    command. *)
Definition target_of (device : option json) : playTarget :=
  mkTarget
    (json_text (default None (settled (json_get device "location"))))
    (json_text (default None (settled (json_get device "ip"))))
    (json_text (default None (settled (json_get device "port")))).

Section Commands.

Context `{Platform}.
Variable JSON_parse : string -> completion json.
Variable net : network.

(** [controller.play(device, mediaURL)] on the values of a command.  With
    a media URL that is not a string, [escapeXml] throws when the arguments
    of the first control request are evaluated. *)
Definition play_command (device mediaURL : option json) : io playResult :=
  match mediaURL with
  | Some (JsonString s) => DLNAController.play net (target_of device) s
  | _ =>
      io_try
        (avTransport ← DLNAController.getDeviceDetails net
                         (target_location (target_of device));
         match avTransport with
         | None => io_lift (Throw (Error unsupported_device))
         | Some _ => io_lift (Throw (not_a_function "str.replace"))
         end)
        (fun err => mret (mkResult false (Some (message err))))
  end.

(** [{ ...d, name: d.name, ip: d.ip, controlURL: d.controlURL, type: d.type }] *)
Definition copy_device (d : descriptor) : descriptor :=
  mkDescriptor (name d) (type d) (manufacturer d) (controlURL d) (ip d)
    (originalLocation d) (port d).

(** The [message] handler.  [scanned] is what the scan started by a
    [discover] command answers, [None] when it never answers; [now] is
    [Date.now()] at the reply.  The result lists the replies sent. *)
Definition on_ws_message (scanned : option (list descriptor)) (now : N)
    (received : string) : io (list reply) :=
  io_try
    (command ← io_lift (JSON_parse received);
     type ← io_lift (json_get (Some command) "type");
     if json_is type "discover"
     then match scanned with
          | Some devices =>
              mret [Devices (copy_device <$> filter (fun _ => True) devices) now]
          | None => mret []
          end
     else if json_is type "play"
     then
       data ← io_lift (json_get (Some command) "data");
       device ← io_lift (json_get_opt data "device");
       mediaURL ← io_lift (json_get_opt data "mediaURL");
       if negb (json_truthy device) || negb (json_truthy mediaURL)
       then mret [InvalidParameters]
       else result ← play_command device mediaURL;
            mret [Result result]
     else mret [])
    (fun err => mret [CommandError (message err)]).

End Commands.

(** The value a command carries under [data.k]. *)
Definition command_field (data : option json) (k : string) : option json :=
  default None (settled (json_get_opt data k)).

(** What a [discover] command is answered with. *)
Definition discover_reply (scanned : option (list descriptor)) (now : N)
  : list reply :=
  match scanned with
  | Some devices => [Devices devices now]
  | None => []
  end.

(** ** [DLNADiscoverer.parseDeviceDescription] with its request

    The resolver over a recorded [network], as the controller is modelled:
    [fetch(location)] is a request of its own, issued once the location has
    passed [isValidHttpUrl]; whatever is thrown after that is caught and
    gives [null]. *)
Module Traced.
Section Resolver.

Context `{Platform}.
Variable net : network.

Definition parseDeviceDescription (location : string)
  : io (option descriptor) :=
  io_try
    (if negb (isValidHttpUrl location) then mret None
     else
       res ← fetch net (mkRequest "GET" location [] None);
       if negb (ok res)
       then io_lift (Throw (Error ("HTTP " +:+ JsString.decimal (status res))))
       else
         xml ← io_lift (text res);
         result ← io_lift (discoverer_parseString xml);
         device ← io_lift (root_device result);
         if negb (truthy device) then mret None
         else
           serviceList ← io_lift (get_prop device "serviceList");
           avTransport ← io_lift (findAVTransportService serviceList);
           match avTransport with
           | None => mret None
           | Some av =>
               url ← io_lift (URL_new location None);
               friendlyName ← io_lift (get_prop device "friendlyName");
               name ← io_lift (trimmed_or friendlyName "device.friendlyName"
                                 "Unnamed Device");
               deviceType ← io_lift (get_prop device "deviceType");
               type ← io_lift (parseDeviceType deviceType);
               manufacturer ← io_lift (get_prop device "manufacturer");
               manufacturer ← io_lift (trimmed_or manufacturer
                                         "device.manufacturer"
                                         "Unknown Manufacturer");
               mret (Some (mkDescriptor name type manufacturer
                             (normalizeURL location (service_controlURL av))
                             "Pending" location (URL_port url)))
           end)
    (fun _ => mret None).

End Resolver.
End Traced.

(** ** What a scan has sent

    The datagrams a scan has sent after the events [evs], read off the
    events: the first [error] or [listening] event decides, the events
    before it find no listener and no timer. *)
Fixpoint searched (evs : list event) : list (string * string) :=
  match evs with
  | [] => []
  | EvError _ :: _ => []
  | EvListening (Normal _) (Normal _) (Normal _) mx :: _ => search_datagrams mx
  | EvListening _ _ _ _ :: _ => []
  | _ :: rest => searched rest
  end.

(** A renderer that answers [SetAVTransportURI] with status 500 and breaks
    the connection before the body is through. *)
Definition unreadable_network : network := fun issued _ =>
  match issued with
  | [] => example_fetch "Living Room TV"
            [(AVTransport1, "/upnp/control/AVTransport")]
  | [_] => Normal (mkResponse 500 (Throw (TypeError "terminated")))
  | _ => Normal (mkResponse 200 (Normal "<ok></ok>"))
  end.

(** * Properties *)

(** ** Strings *)

Section StringFacts.

Import JsString.

Lemma app_cons (c : ascii) (s t : string) :
  String c s +:+ t = String c (s +:+ t).
Proof. reflexivity. Qed.

Lemma app_empty_l (s : string) : EmptyString +:+ s = s.
Proof. reflexivity. Qed.

Lemma app_empty_r (s : string) : s +:+ EmptyString = s.
Proof. induction s as [|c s IH]; [done|]. by rewrite app_cons, IH. Qed.

Lemma app_assoc (s t u : string) : (s +:+ t) +:+ u = s +:+ (t +:+ u).
Proof. induction s as [|c s IH]; [done|]. by rewrite !app_cons, IH. Qed.

Lemma length_app (s t : string) :
  String.length (s +:+ t) = (String.length s + String.length t)%nat.
Proof. induction s as [|c s IH]; [done|]. rewrite app_cons. simpl. lia. Qed.

Lemma prefix_app (p s : string) : String.prefix p (p +:+ s) = true.
Proof.
  induction p as [|c p IH]; [by destruct s|].
  rewrite app_cons. simpl. by destruct (ascii_dec c c).
Qed.

Lemma prefix_cons (a b : ascii) (p s : string) :
  String.prefix (String a p) (String b s)
  = char_eqb a b && String.prefix p s.
Proof.
  simpl. unfold char_eqb.
  destruct (ascii_dec a b); case_bool_decide; done.
Qed.

Lemma prefix_empty (s : string) : String.prefix EmptyString s = true.
Proof. by destruct s. Qed.

Lemma char_eqb_eq (a b : ascii) : char_eqb a b = true <-> a = b.
Proof. unfold char_eqb. by rewrite bool_decide_eq_true. Qed.

Lemma char_eqb_refl (a : ascii) : char_eqb a a = true.
Proof. by apply char_eqb_eq. Qed.

Lemma free_of_cons (c a : ascii) (s : string) :
  free_of c (String a s) <-> a <> c /\ free_of c s.
Proof.
  unfold free_of. simpl. rewrite andb_true_iff, negb_true_iff.
  unfold char_eqb. by rewrite bool_decide_eq_false.
Qed.

Lemma split_char_step (c a : ascii) (s : string) :
  split_go (String c EmptyString) 0 (String a s)
  = if char_eqb c a
    then EmptyString :: split_go (String c EmptyString) 0 s
    else cons_head a (split_go (String c EmptyString) 0 s).
Proof.
  cbn [split_go]. rewrite prefix_cons, prefix_empty, andb_true_r.
  by destruct (char_eqb c a).
Qed.

Lemma split_char_nonempty (c : ascii) (s : string) :
  split_go (String c EmptyString) 0 s <> [].
Proof.
  destruct s as [|a s]; [done|]. rewrite split_char_step.
  destruct (char_eqb c a); [done|].
  by destruct (split_go _ 0 s).
Qed.

Lemma split_free (c : ascii) (x : string) :
  free_of c x -> split x (String c EmptyString) = [x].
Proof.
  unfold split. induction x as [|a x IH]; [done|].
  intros [Hne Hx]%free_of_cons. rewrite split_char_step.
  destruct (char_eqb c a) eqn:E; [apply char_eqb_eq in E; congruence|].
  by rewrite IH.
Qed.

Lemma split_free_app (c : ascii) (x rest : string) :
  free_of c x ->
  split (x +:+ String c rest) (String c EmptyString)
  = x :: split rest (String c EmptyString).
Proof.
  unfold split. induction x as [|a x IH].
  - intros _. rewrite app_empty_l, split_char_step.
    by rewrite char_eqb_refl.
  - intros [Hne Hx]%free_of_cons. rewrite app_cons, split_char_step.
    destruct (char_eqb c a) eqn:E; [apply char_eqb_eq in E; congruence|].
    by rewrite IH.
Qed.

(** [split] undoes [join] on segments free of the separator ... *)
Lemma split_join (c : ascii) (segs : list string) :
  segs <> [] -> Forall (free_of c) segs ->
  split (join (String c EmptyString) segs) (String c EmptyString) = segs.
Proof.
  induction segs as [|x segs IH]; [done|]. intros _ Hall.
  apply Forall_cons in Hall as [Hx Hall].
  destruct segs as [|y segs]; [by apply split_free|].
  change (join (String c EmptyString) (x :: y :: segs))
    with (x +:+ String c EmptyString +:+ join (String c EmptyString) (y :: segs)).
  rewrite app_cons, app_empty_l, split_free_app by done.
  by rewrite IH.
Qed.

(** ... and every string is such a [join], of the segments [split]
    finds. *)
Lemma join_split (c : ascii) (s : string) :
  join (String c EmptyString) (split s (String c EmptyString)) = s
  /\ Forall (free_of c) (split s (String c EmptyString)).
Proof.
  unfold split. induction s as [|a s [IHj IHf]]; [by repeat constructor|].
  rewrite split_char_step.
  pose proof (split_char_nonempty c s) as Hne.
  destruct (char_eqb c a) eqn:E.
  - apply char_eqb_eq in E as <-. split; [|by constructor].
    destruct (split_go _ 0 s) as [|h t]; [done|].
    change (join (String c EmptyString) (EmptyString :: h :: t))
      with (EmptyString +:+ String c EmptyString
            +:+ join (String c EmptyString) (h :: t)).
    by rewrite IHj.
  - destruct (split_go _ 0 s) as [|h t]; [done|].
    apply Forall_cons in IHf as [Hh Ht]. split.
    + destruct t as [|h' t]; simpl in *; [by subst|].
      rewrite app_cons. f_equal. done.
    + constructor; [|done]. apply free_of_cons. split; [|done].
      intros ->. by rewrite char_eqb_refl in E.
Qed.

End StringFacts.

(** ** C7: [parseDeviceType] *)

(** C7.  For every deviceType string, the extracted type is the element at
    index 3 of the string split on [":"]; with fewer than 4 segments, and
    for an absent deviceType, it is ["MediaRenderer"]. *)
Theorem parseDeviceType_index3 :
  (forall segs : list string,
      segs <> [] -> Forall (JsString.free_of ":") segs ->
      parseDeviceType (JString (JsString.join ":" segs))
      = Normal (if bool_decide (4 ≤ length segs)%nat
                then nth 3 segs EmptyString else "MediaRenderer"))
  /\ (forall s : string,
         JsString.join ":" (JsString.split s ":") = s
         /\ Forall (JsString.free_of ":") (JsString.split s ":")
         /\ parseDeviceType (JString s)
            = Normal (if bool_decide (4 ≤ length (JsString.split s ":"))%nat
                      then nth 3 (JsString.split s ":") EmptyString
                      else "MediaRenderer"))
  /\ parseDeviceType (JString "urn:schemas-upnp-org:device:MediaRenderer:1")
     = Normal "MediaRenderer"
  /\ parseDeviceType JUndefined = Normal "MediaRenderer"
  /\ parseDeviceType JNull = Normal "MediaRenderer".
Proof.
  assert (Hs : forall s : string,
             parseDeviceType (JString s)
             = Normal (if bool_decide (4 ≤ length (JsString.split s ":"))%nat
                       then nth 3 (JsString.split s ":") EmptyString
                       else "MediaRenderer")).
  { intros s. unfold parseDeviceType, js_or. simpl.
    case_bool_decide as Hs; simpl; [by subst|done]. }
  split; [|split; [|by repeat split]].
  - intros segs Hne Hall. rewrite Hs. by rewrite (split_join ":" segs).
  - intros s. destruct (join_split ":" s) as [Hj Hf]. by repeat split.
Qed.

Lemma parseDeviceType_index3_witness :
  parseDeviceType (JString "urn:a:b:Class:7:x") = Normal "Class"
  /\ parseDeviceType (JString "a:b:c") = Normal "MediaRenderer".
Proof.
  split.
  - apply (proj1 parseDeviceType_index3 ["urn"; "a"; "b"; "Class"; "7"; "x"]).
    + done.
    + by repeat constructor.
  - apply (proj1 parseDeviceType_index3 ["a"; "b"; "c"]).
    + done.
    + by repeat constructor.
Defined.

(** The older copy takes the element before the last one instead. *)
Example legacy_parseDeviceType_differs :
  Legacy.parseDeviceType (JString "a:b:c:d:e:f") = Normal "e"
  /\ parseDeviceType (JString "a:b:c:d:e:f") = Normal "d"
  /\ Legacy.parseDeviceType (JString "x:y") = Normal "x".
Proof. by repeat split. Qed.

(** ** [escapeXml] *)

Section EscapeFacts.

Import JsString.

Lemma char_eqb_sym (a b : ascii) : char_eqb a b = char_eqb b a.
Proof. unfold char_eqb. apply bool_decide_ext. naive_solver. Qed.

Lemma substring_all (s : string) : String.substring 0 (String.length s) s = s.
Proof. induction s as [|c s IH]; [done|]. simpl. by rewrite IH. Qed.

Lemma substring_skip (x s : string) (n : nat) :
  String.substring (String.length x) n (x +:+ s) = String.substring 0 n s.
Proof. induction x as [|c x IH]; [done|]. by rewrite app_cons. Qed.

(** [(x + s).slice(x.length)] is [s]. *)
Lemma slice_drop (x s : string) :
  slice (x +:+ s) (Z.of_nat (String.length x)) None = s.
Proof.
  unfold slice, clamp_index. rewrite length_app.
  destruct (Z.ltb_spec (Z.of_nat (String.length x)) 0) as [?|_]; [lia|].
  rewrite Z.min_l by lia. rewrite Nat2Z.id.
  replace (Z.to_nat _) with (String.length s) by lia.
  by rewrite substring_skip, substring_all.
Qed.

(** [(k + rest).slice(0, k.length)] is [k]. *)
Lemma substring_prefix (k rest : string) :
  String.substring 0 (String.length k) (k +:+ rest) = k.
Proof.
  induction k as [|c k IH]; [by destruct rest|].
  rewrite app_cons. simpl. by rewrite IH.
Qed.

Lemma slice_take (k rest : string) :
  slice (k +:+ rest) 0 (Some (Z.of_nat (String.length k))) = k.
Proof.
  unfold slice, clamp_index. rewrite length_app.
  destruct (Z.ltb_spec (Z.of_nat (String.length k)) 0) as [?|_]; [lia|].
  change (0 <? 0) with false. cbv iota.
  rewrite !Z.min_l by lia. rewrite Z.sub_0_r, Z.max_l by lia.
  by rewrite Nat2Z.id, substring_prefix.
Qed.

Lemma indexOf_char_free (c : ascii) (s : string) (i : Z) :
  free_of c s -> indexOf_from (String c EmptyString) s i = -1.
Proof.
  revert i. induction s as [|a s IH]; intros i; [done|].
  intros [Hne Hs]%free_of_cons. cbn [indexOf_from].
  rewrite prefix_cons, prefix_empty, andb_true_r.
  destruct (char_eqb c a) eqn:E; [apply char_eqb_eq in E; congruence|].
  by apply IH.
Qed.









Local Arguments slice : simpl never.




End EscapeFacts.

(** ** C6: header parsing *)

Section HeaderFacts.

Context `{Platform}.
Import JsString.

Lemma indexOf_first (c : ascii) (k v : string) (i : Z) :
  free_of c k ->
  indexOf_from (String c EmptyString) (k +:+ String c v) i
  = i + Z.of_nat (String.length k).
Proof.
  revert i. induction k as [|a k IH]; intros i.
  - intros _. rewrite app_empty_l. cbn [indexOf_from].
    rewrite prefix_cons, prefix_empty, char_eqb_refl. simpl. lia.
  - intros [Hne Hk]%free_of_cons. rewrite app_cons. cbn [indexOf_from].
    rewrite prefix_cons, prefix_empty, andb_true_r.
    destruct (char_eqb c a) eqn:E; [apply char_eqb_eq in E; congruence|].
    rewrite IH by done. simpl String.length. lia.
Qed.

Lemma header_line_no_colon (acc : gmap string string) (line : string) :
  free_of ":" line -> header_line acc line = acc.
Proof.
  intros Hfree. unfold header_line, indexOf.
  rewrite indexOf_char_free by done. by rewrite bool_decide_eq_true_2.
Qed.

Lemma header_line_first_colon (acc : gmap string string) (k v : string) :
  free_of ":" k ->
  header_line acc (k +:+ ":" +:+ v)
  = let key := toLowerCase (trim k) in
    let value := trim v in
    if negb (bool_decide (key = EmptyString))
       && negb (bool_decide (value = EmptyString))
    then object_assign acc key value
    else acc.
Proof.
  intros Hfree. unfold header_line, indexOf.
  change (":" +:+ v) with (String ":" v).
  rewrite indexOf_first by done. rewrite Z.add_0_l.
  rewrite bool_decide_eq_false_2 by lia.
  rewrite slice_take.
  replace (k +:+ String ":" v) with ((k +:+ ":") +:+ v)
    by (by rewrite app_assoc).
  replace (Z.of_nat (String.length k) + 1)
    with (Z.of_nat (String.length (k +:+ ":")))
    by (rewrite length_app; simpl; lia).
  by rewrite slice_drop.
Qed.

End HeaderFacts.

(** C6.  The header mapping of a datagram is built line by line: a line
    without a colon contributes nothing; a line is cut at its first colon,
    the key is trimmed and lower-cased, the value is trimmed (and so keeps
    its own colons), and the pair is recorded when neither is empty. *)
Theorem header_mapping `{Platform} :
  (forall (acc : gmap string string) (line : string),
      JsString.free_of ":" line -> header_line acc line = acc)
  /\ (forall (acc : gmap string string) (k v : string),
         JsString.free_of ":" k ->
         header_line acc (k +:+ ":" +:+ v)
         = if negb (bool_decide (toLowerCase (JsString.trim k) = EmptyString))
              && negb (bool_decide (JsString.trim v = EmptyString))
           then object_assign acc (toLowerCase (JsString.trim k))
                  (JsString.trim v)
           else acc)
  /\ (forall (acc : gmap string string) (k v : string),
         JsString.free_of ":" k ->
         toLowerCase (JsString.trim k) <> EmptyString ->
         toLowerCase (JsString.trim k) <> "__proto__" ->
         JsString.trim v <> EmptyString ->
         header_line acc (k +:+ ":" +:+ v) !! toLowerCase (JsString.trim k)
         = Some (JsString.trim v))
  /\ (forall msg : string,
         parse_headers msg = fold_left header_line (JsString.split msg CRLF) ∅)
  /\ parse_headers
       ("HTTP/1.1 200 OK" +:+ CRLF
        +:+ "LOCATION: http://host:8080/desc.xml" +:+ CRLF
        +:+ "ST: urn:schemas-upnp-org:service:AVTransport:1" +:+ CRLF
        +:+ CRLF) !! "location"
     = Some "http://host:8080/desc.xml".
Proof.
  split; [apply @header_line_no_colon|].
  split; [apply @header_line_first_colon|].
  split; [|split; [done|by vm_compute]].
  intros acc k v Hfree Hk Hproto Hv.
  rewrite header_line_first_colon by done. cbv zeta.
  rewrite !bool_decide_eq_false_2 by done. simpl.
  unfold object_assign. rewrite bool_decide_eq_false_2 by done.
  apply lookup_insert_eq.
Qed.

Lemma header_mapping_witness :
  @header_line example_platform ∅ "LOCATION: http://host:8080/desc.xml"
    !! "location"
  = Some "http://host:8080/desc.xml"
  /\ @header_line example_platform ∅ "HTTP/1.1 200 OK" = ∅.
Proof.
  split.
  - apply (proj1 (proj2 (proj2 (@header_mapping example_platform)))
             ∅ "LOCATION" " http://host:8080/desc.xml").
    + reflexivity.
    + by vm_compute.
    + by vm_compute.
    + by vm_compute.
  - apply (proj1 (@header_mapping example_platform) ∅ "HTTP/1.1 200 OK").
    reflexivity.
Defined.

(** The older copy cuts a line at every colon and keeps the second piece
    only, so a location loses everything after its scheme. *)
Example legacy_header_line_truncates :
  @Legacy.header_line example_platform ∅
    "LOCATION: http://host:8080/desc.xml" !! "location"
  = Some "http".
Proof. by vm_compute. Qed.

(** ** C3: the service search *)

Section SearchFacts.

Context `{Platform}.

(** Induction on parsed values, through arrays and property lists. *)
Lemma jsval_nested_ind (P : jsval -> Prop) :
  P JUndefined -> P JNull -> (forall s, P (JString s)) ->
  (forall items, Forall P items -> P (JArray items)) ->
  (forall props, Forall (fun kv => P kv.2) props -> P (JObject props)) ->
  forall v, P v.
Proof.
  intros Hu Hn Hs Ha Ho. fix IH 1. intros [| |s|items|props].
  - exact Hu.
  - exact Hn.
  - apply Hs.
  - apply Ha. induction items as [|x items IHitems]; constructor.
    + apply IH.
    + exact IHitems.
  - apply Ho. induction props as [|[k x] props IHprops]; constructor.
    + apply IH.
    + exact IHprops.
Qed.

Lemma find_app_split {A} (f : A -> bool) (l1 l2 : list A) :
  List.find f (l1 ++ l2)
  = match List.find f l1 with
    | Some x => Some x
    | None => List.find f l2
    end.
Proof.
  induction l1 as [|x l1 IH]; [done|]. simpl. by destruct (f x).
Qed.

(** Sequencing two searches: the second runs only when the first found
    nothing and did not throw. *)
Lemma outcome_of_app (l1 l2 : list (list (string * jsval))) :
  outcome_of (List.find decisive (l1 ++ l2))
  = found ← outcome_of (List.find decisive l1);
    match found with
    | Some svc => Normal (Some svc)
    | None => outcome_of (List.find decisive l2)
    end.
Proof.
  rewrite find_app_split. destruct (List.find decisive l1) as [props|]; [|done].
  simpl. by destruct (is_AVTransport props).
Qed.

Lemma findAVTransportService_outcome (node : jsval) :
  findAVTransportService node = search_outcome node.
Proof.
  unfold search_outcome.
  induction node as [| |s|items IH|props IH] using jsval_nested_ind;
    try done.
  - cbn [findAVTransportService objects_preorder].
    induction IH as [|item items Hitem _ IHitems]; [done|].
    rewrite outcome_of_app, <- Hitem, <- IHitems. done.
  - cbn [findAVTransportService objects_preorder].
    assert (Hvalues :
      (fix over_values (l : list (string * jsval))
         : completion (option avService) :=
         match l with
         | [] => Normal None
         | (_, value) :: rest =>
             found ← findAVTransportService value;
             match found with
             | Some svc => Normal (Some svc)
             | None => over_values rest
             end
         end) props
      = outcome_of (List.find decisive
          ((fix over_values (l : list (string * jsval))
              : list (list (string * jsval)) :=
              match l with
              | [] => []
              | (_, value) :: rest => objects_preorder value ++ over_values rest
              end) props))).
    { induction IH as [|[k value] rest Hvalue _ IHrest]; [done|].
      simpl in Hvalue. rewrite outcome_of_app, <- Hvalue, <- IHrest. done. }
    rewrite Hvalues. clear Hvalues IH.
    cbn [List.find].
    assert (Hdec : decisive props
                   = match assoc "serviceType" props with
                     | Some (JString st) =>
                         JsString.startsWith st AVTransport_prefix
                     | Some (JArray _) | Some (JObject _) => true
                     | _ => false
                     end).
    { unfold decisive, is_AVTransport, plain_serviceType.
      destruct (assoc "serviceType" props) as [[| |st|items|inner]|];
        try done. apply orb_false_r. }
    rewrite Hdec. clear Hdec.
    destruct (assoc "serviceType" props) as [[| |st|items|inner]|] eqn:E;
      simpl; try done.
    + destruct (JsString.startsWith st AVTransport_prefix) eqn:Est; simpl.
      * unfold is_AVTransport, service_of. by rewrite E, Est.
      * done.
    + unfold is_AVTransport. by rewrite E.
    + unfold is_AVTransport. by rewrite E.
Qed.

End SearchFacts.

(** ** What a descriptor returned by [parseDeviceDescription] tells *)

Section ResolverFacts.

Context `{Platform}.

Lemma parseDeviceDescription_Some (location : string) (net : fetch_outcome)
    (d : descriptor) :
  parseDeviceDescription location net = Some d ->
  isValidHttpUrl location = true
  /\ exists res xml result device serviceList av url,
      net = Normal res /\ ok res = true /\ text res = Normal xml
      /\ discoverer_parseString xml = Normal result
      /\ root_device result = Normal device
      /\ truthy device = true
      /\ get_prop device "serviceList" = Normal serviceList
      /\ findAVTransportService serviceList = Normal (Some av)
      /\ URL_new location None = Normal url
      /\ controlURL d = normalizeURL location (service_controlURL av)
      /\ originalLocation d = location
      /\ port d = URL_port url
      /\ ip d = "Pending".
Proof.
  unfold parseDeviceDescription, try_catch.
  destruct (isValidHttpUrl location) eqn:Hvalid; cbn [negb]; [|done].
  destruct net as [res|e]; cbn [mbind completion_bind]; [|done].
  destruct (ok res) eqn:Hok; cbn [negb]; [|done].
  destruct (text res) as [xml|e] eqn:Htext; cbn [mbind completion_bind];
    [|done].
  destruct (discoverer_parseString xml) as [result|e] eqn:Hparse;
    cbn [mbind completion_bind]; [|done].
  destruct (root_device result) as [device|e] eqn:Hdevice;
    cbn [mbind completion_bind]; [|done].
  destruct (truthy device) eqn:Htruthy; cbn [negb]; [|done].
  destruct (get_prop device "serviceList") as [serviceList|e] eqn:Hlist;
    cbn [mbind completion_bind]; [|done].
  destruct (findAVTransportService serviceList) as [[av|]|e] eqn:Hfind;
    cbn [mbind completion_bind]; [|done|done].
  destruct (URL_new location None) as [url|e] eqn:Hurl;
    cbn [mbind completion_bind]; [|done].
  destruct (get_prop device "friendlyName") as [fn|e];
    cbn [mbind completion_bind]; [|done].
  destruct (trimmed_or fn _ _) as [nm|e]; cbn [mbind completion_bind];
    [|done].
  destruct (get_prop device "deviceType") as [dt|e];
    cbn [mbind completion_bind]; [|done].
  destruct (parseDeviceType dt) as [ty|e]; cbn [mbind completion_bind];
    [|done].
  destruct (get_prop device "manufacturer") as [mf|e];
    cbn [mbind completion_bind]; [|done].
  destruct (trimmed_or mf _ _) as [mn|e]; cbn [mbind completion_bind];
    [|done].
  intros [= <-]. split; [done|].
  exists res, xml, result, device, serviceList, av, url. by repeat split.
Qed.

Lemma find_decisive_plain (l : list (list (string * jsval))) :
  Forall (fun props => plain_serviceType props = true) l ->
  List.find decisive l = List.find is_AVTransport l.
Proof.
  induction 1 as [|props l Hplain _ IH]; [done|]. simpl.
  unfold decisive at 1. rewrite Hplain, orb_false_r.
  by destruct (is_AVTransport props).
Qed.

Lemma find_is_AVTransport (l : list (list (string * jsval))) props :
  List.find is_AVTransport l = Some props -> is_AVTransport props = true.
Proof. intros Hf. by apply find_some in Hf as [_ ?]. Qed.

End ResolverFacts.

(** The claim of C3 as stated fails on a tree the parser can produce: the
    first node whose serviceType begins with the prefix is the second
    service, but the search throws at the first service, whose serviceType
    is an object. *)
Lemma search_throws_before_first_match :
  List.find is_AVTransport (objects_preorder attributed_serviceList)
  = Some [("serviceType", JString AVTransport1); ("controlURL", JString "/av")]
  /\ findAVTransportService attributed_serviceList
     = Throw (not_a_function "node.serviceType?.startsWith").
Proof. by split. Qed.

(** C3 (amended).  On a tree in which every serviceType is absent or plain
    text, the search returns the first node, in depth-first order, whose
    serviceType begins with the AVTransport prefix (any version), and
    nothing when there is none.  In general the first node that matches or
    whose serviceType is not plain text decides: a match is returned, the
    other kind makes the search throw.  A descriptor is produced only from a
    service list in which the deciding node is a match. *)
Theorem service_search_first_match `{Platform} :
  (forall node : jsval,
      Forall (fun props => plain_serviceType props = true)
        (objects_preorder node) ->
      findAVTransportService node
      = Normal (service_of <$> List.find is_AVTransport (objects_preorder node)))
  /\ (forall node : jsval, findAVTransportService node = search_outcome node)
  /\ (forall (props : list (string * jsval)) (version : string),
         assoc "serviceType" props
         = Some (JString (AVTransport_prefix +:+ version)) ->
         is_AVTransport props = true)
  /\ (forall (location : string) (net : fetch_outcome) (d : descriptor),
         parseDeviceDescription location net = Some d ->
         exists res xml result device serviceList props,
           net = Normal res /\ text res = Normal xml
           /\ discoverer_parseString xml = Normal result
           /\ root_device result = Normal device
           /\ get_prop device "serviceList" = Normal serviceList
           /\ List.find decisive (objects_preorder serviceList) = Some props
           /\ is_AVTransport props = true).
Proof.
  split; [|split; [|split]].
  - intros node Hplain. rewrite findAVTransportService_outcome.
    unfold search_outcome. rewrite find_decisive_plain by done.
    destruct (List.find is_AVTransport _) as [props|] eqn:Hf; [|done].
    simpl. by rewrite (find_is_AVTransport _ _ Hf).
  - apply findAVTransportService_outcome.
  - intros props version Hst. unfold is_AVTransport. rewrite Hst.
    apply prefix_app.
  - intros location net d Hd.
    apply parseDeviceDescription_Some in Hd
      as (_ & res & xml & result & device & serviceList & av & url & Hnet
          & _ & Htext & Hparse & Hdev & _ & Hlist & Hfind & _).
    exists res, xml, result, device, serviceList.
    rewrite findAVTransportService_outcome in Hfind. unfold search_outcome in Hfind.
    destruct (List.find decisive _) as [props|] eqn:Hf; [|done].
    exists props. simpl in Hfind.
    destruct (is_AVTransport props) eqn:Hav; [|done]. by repeat split.
Qed.

Lemma service_search_first_match_witness :
  @findAVTransportService
    (JObject [("service",
               JArray [service_tree (RenderingControl1, "/rc");
                       service_tree (AVTransport2, "/av2");
                       service_tree (AVTransport1, "/av1")])])
  = Normal (Some (mkService AVTransport2 (JString "/av2")))
  /\ @findAVTransportService
       (JObject [("service",
                  JArray [service_tree (RenderingControl1, "/rc");
                          service_tree (ConnectionManager1, "/cm")])])
     = Normal None.
Proof.
  split.
  - apply (proj1 (@service_search_first_match example_platform)
             (JObject [("service",
                        JArray [service_tree (RenderingControl1, "/rc");
                                service_tree (AVTransport2, "/av2");
                                service_tree (AVTransport1, "/av1")])])).
    by repeat constructor.
  - apply (proj1 (@service_search_first_match example_platform)
             (JObject [("service",
                        JArray [service_tree (RenderingControl1, "/rc");
                                service_tree (ConnectionManager1, "/cm")])])).
    by repeat constructor.
Defined.

(** A description that exposes an AVTransport service, version 1 or 2, is
    resolved; one that exposes only RenderingControl and ConnectionManager
    is not. *)
Example renderers_only_are_resolved :
  (controlURL <$>
     @parseDeviceDescription example_platform "http://192.168.1.7:8000/d.xml"
       (example_fetch "Kitchen" [(RenderingControl1, "/rc"); (AVTransport2, "/av2")]))
  = Some (Some "http://192.168.1.7:8000/av2")
  /\ @parseDeviceDescription example_platform "http://192.168.1.8/d.xml"
       (example_fetch "Speaker"
          [(RenderingControl1, "/rc"); (ConnectionManager1, "/cm")])
     = None.
Proof. split; by vm_compute. Qed.

(** ** The scan: what each event does to the map and to the promise *)

Section MapFacts.

Context {V : Type}.
Implicit Types (m : list (string * V)) (k : string) (v : V).

Lemma map_get_set_eq m k v : map_get k (map_set k v m) = Some v.
Proof.
  induction m as [|[k' v'] m IH]; simpl.
  - by rewrite bool_decide_eq_true_2.
  - case_bool_decide as Hk; simpl.
    + by rewrite bool_decide_eq_true_2.
    + by rewrite bool_decide_eq_false_2.
Qed.

Lemma map_get_set_ne m k k' v :
  k <> k' -> map_get k' (map_set k v m) = map_get k' m.
Proof.
  intros Hne. induction m as [|[k0 v0] m IH]; simpl.
  - by rewrite bool_decide_eq_false_2.
  - case_bool_decide as Hk; simpl.
    + subst k0. by rewrite !bool_decide_eq_false_2.
    + by rewrite IH.
Qed.

Lemma map_set_keys m k v :
  map fst (map_set k v m)
  = if bool_decide (k ∈ map fst m) then map fst m else map fst m ++ [k].
Proof.
  induction m as [|[k' v'] m IH]; [done|]. simpl.
  destruct (decide (k' = k)) as [->|Hk].
  - rewrite (bool_decide_eq_true_2 (k = k)) by done.
    rewrite bool_decide_eq_true_2; [done|]. apply list_elem_of_here.
  - rewrite (bool_decide_eq_false_2 (k' = k)) by done. simpl.
    rewrite IH. destruct (decide (k ∈ map fst m)) as [Hin|Hin].
    + rewrite (bool_decide_eq_true_2 _ Hin).
      rewrite bool_decide_eq_true_2; [done|]. by apply list_elem_of_further.
    + rewrite (bool_decide_eq_false_2 _ Hin).
      rewrite bool_decide_eq_false_2; [done|].
      intros [?|?]%elem_of_cons; congruence.
Qed.

Lemma map_set_NoDup m k v :
  NoDup (map fst m) -> NoDup (map fst (map_set k v m)).
Proof.
  intros Hnd. rewrite map_set_keys. case_bool_decide as Hin; [done|].
  apply NoDup_app. split; [done|]. split.
  - intros x Hx ->%list_elem_of_singleton. done.
  - apply NoDup_singleton.
Qed.

Lemma map_set_Forall (P : string * V -> Prop) m k v :
  P (k, v) -> Forall P m -> Forall P (map_set k v m).
Proof.
  intros Hkv. induction 1 as [|[k' v'] m Hx Hm IH]; simpl.
  - by constructor.
  - case_bool_decide; by constructor.
Qed.

Lemma map_get_values m k v : map_get k m = Some v -> v ∈ map_values m.
Proof.
  induction m as [|[k' v'] m IH]; [done|]. simpl.
  case_bool_decide.
  - intros [= ->]. apply list_elem_of_here.
  - intros Hm. apply list_elem_of_further. by apply IH.
Qed.

End MapFacts.

Section ScanFacts.

Context `{Platform}.

Local Ltac callback :=
  cbv [run_callback on_error on_listening on_timeout on_message_received
       on_message_resumed cleanup socket_close socket_send resolve modify
       inspect lift mbind mret action_bind action_ret];
  simpl.

Lemma deliver_devices (st : scan) (ev : event) :
  devices (deliver st ev)
  = match ev with
    | EvFetched task net =>
        match awaiting st !! task with
        | Some (location, address) =>
            match parseDeviceDescription location net with
            | Some d => map_set location (set_ip d address) (devices st)
            | None => devices st
            end
        | None => devices st
        end
    | _ => devices st
    end.
Proof.
  destruct ev as [err|sb am1 am2 mx|msg address|task net|]; simpl.
  - destruct (closed st) eqn:E; [done|]. callback.
    rewrite E. simpl. by destruct (resolved st).
  - destruct (closed st || listening st); [done|].
    by destruct sb as [[]|], am1 as [[]|], am2 as [[]|].
  - destruct (on_message st && negb (closed st)); [|done]. callback.
    destruct (parse_headers msg !! "location") as [location|]; [|done].
    simpl. by destruct (map_has location (devices st)).
  - destruct (awaiting st !! task) as [[location address]|]; [|done].
    callback. by destruct (parseDeviceDescription location net).
  - destruct (timer st); [|done]. callback.
    destruct (closed st); simpl; [done|]. by destruct (resolved st).
Qed.

(** The promise is settled at most once, with the empty list or with the
    values of the map. *)
Lemma deliver_resolved (st : scan) (ev : event) :
  resolved (deliver st ev) = resolved st
  \/ resolved st = None
     /\ (resolved (deliver st ev) = Some []
         \/ resolved (deliver st ev) = Some (map_values (devices st))).
Proof.
  destruct ev as [err|sb am1 am2 mx|msg address|task net|]; simpl.
  - destruct (closed st) eqn:E; [by left|]. callback.
    rewrite E. simpl. destruct (resolved st) eqn:R; simpl; [by left|].
    right. auto.
  - destruct (closed st || listening st); [by left|].
    by destruct sb as [[]|], am1 as [[]|], am2 as [[]|]; left.
  - destruct (on_message st && negb (closed st)); [|by left]. callback.
    destruct (parse_headers msg !! "location") as [location|]; [|by left].
    simpl. by destruct (map_has location (devices st)); left.
  - destruct (awaiting st !! task) as [[location address]|]; [|by left].
    callback. by destruct (parseDeviceDescription location net); left.
  - destruct (timer st); [|by left]. callback.
    destruct (closed st); simpl; [by left|].
    destruct (resolved st) eqn:R; simpl; [by left|]. right. auto.
Qed.

End ScanFacts.

Section ScanInvariants.

Context `{Platform}.

Local Ltac callback :=
  cbv [run_callback on_error on_listening on_timeout on_message_received
       on_message_resumed cleanup socket_close socket_send resolve modify
       inspect lift mbind mret action_bind action_ret];
  simpl.

Lemma values_NoDup (m : list (string * descriptor)) :
  NoDup (map fst m) ->
  Forall (fun kd => originalLocation kd.2 = kd.1) m ->
  NoDup (originalLocation <$> map_values m).
Proof.
  intros Hnd Hall. unfold map_values.
  replace (originalLocation <$> map snd m) with (map fst m); [done|].
  induction Hall as [|[k d] m Hkd _ IH]; [done|]. simpl in *.
  apply NoDup_cons in Hnd as [_ Hnd]. by rewrite Hkd, IH.
Qed.

Lemma scan_inv_start (active : gset nat) (sock : nat) :
  scan_inv (discover_start active sock)
  /\ scan_running (discover_start active sock).
Proof. repeat split; simpl; try done; constructor. Qed.

Lemma scan_inv_deliver (st : scan) (ev : event) :
  scan_inv st -> scan_inv (deliver st ev).
Proof.
  intros (Hnd & Hkeys & Hres).
  assert (Hdev : NoDup (map fst (devices (deliver st ev)))
                 /\ Forall (fun kd => originalLocation kd.2 = kd.1)
                      (devices (deliver st ev))).
  { rewrite deliver_devices.
    destruct ev as [| | |task net|]; try done.
    destruct (awaiting st !! task) as [[location address]|]; [|done].
    destruct (parseDeviceDescription location net) as [d|] eqn:Hd; [|done].
    split; [by apply map_set_NoDup|].
    apply map_set_Forall; [|done]. simpl.
    by apply parseDeviceDescription_Some
      in Hd as (_ & ? & ? & ? & ? & ? & ? & ? & ? & ? & ? & ? & ? & ? & ? & ? & ? & ? & ? & ?). }
  destruct Hdev as [Hnd' Hkeys']. split; [done|]. split; [done|].
  intros r Hr.
  destruct (deliver_resolved st ev) as [Hsame|(_ & [Hempty|Hvalues])].
  - apply Hres. congruence.
  - assert (r = []) as -> by congruence. constructor.
  - assert (r = map_values (devices st)) as -> by congruence.
    by apply values_NoDup.
Qed.

Lemma scan_running_deliver (st : scan) (ev : event) :
  scan_running st -> scan_running (deliver st ev).
Proof.
  intros Hrun. pose proof Hrun as [Htimer Hclosed].
  assert (Hfin : forall st', timer st' = false -> closed st' = true ->
                             scan_running st').
  { intros st' T C. split; congruence. }
  assert (Hsame : forall st', closed st' = closed st ->
                              resolved st' = resolved st ->
                              (timer st' = true -> closed st = false) ->
                              scan_running st').
  { intros st' C R T. split; [rewrite C; exact T|].
    rewrite C, R. exact Hclosed. }
  destruct ev as [err|sb am1 am2 mx|msg address|task net|]; simpl.
  - destruct (closed st) eqn:E; [exact Hrun|]. callback.
    rewrite E. simpl. destruct (resolved st); by apply Hfin.
  - destruct (closed st) eqn:E; simpl; [exact Hrun|].
    destruct (listening st); [exact Hrun|].
    destruct sb as [[]|], am1 as [[]|], am2 as [[]|]; callback;
      apply Hsame; simpl; auto.
  - destruct (on_message st && negb (closed st)); [|exact Hrun]. callback.
    destruct (parse_headers msg !! "location") as [location|];
      [|by apply Hsame].
    simpl. destruct (map_has location (devices st)); by apply Hsame.
  - destruct (awaiting st !! task) as [[location address]|]; [|exact Hrun].
    callback. destruct (parseDeviceDescription location net); by apply Hsame.
  - destruct (timer st) eqn:T; [|exact Hrun]. callback.
    rewrite Htimer by done. simpl.
    rewrite Hclosed by auto. by apply Hfin.
Qed.

Lemma run_invariants (st : scan) (evs : list event) :
  scan_inv st -> scan_running st ->
  scan_inv (run st evs) /\ scan_running (run st evs).
Proof.
  revert st. induction evs as [|ev evs IH]; intros st Hinv Hrun; [done|].
  simpl. apply IH; [by apply scan_inv_deliver|by apply scan_running_deliver].
Qed.

Lemma deliver_timeout (st : scan) :
  timer st = true -> closed st = false -> resolved st = None ->
  resolved (deliver st EvTimeout) = Some (map_values (devices st)).
Proof.
  intros T C R. simpl. rewrite T. callback. rewrite C. simpl. by rewrite R.
Qed.

End ScanInvariants.

(** ** C2: one entry per location *)

(** C2.  Whatever datagrams arrive, however often and in whatever order
    their resolutions complete, the result of a scan holds at most one
    descriptor per location; a datagram without a location header changes
    nothing; a resolved device is filed under its location and leaves the
    entries of other locations alone, so two devices at distinct locations
    are both in the result, whatever their names. *)
Theorem discovery_dedup `{Platform} :
  (forall (active : gset nat) (sock : nat) (evs : list event)
          (r : list descriptor),
      resolved (run (discover_start active sock) evs) = Some r ->
      NoDup (originalLocation <$> r))
  /\ (forall (st : scan) (msg address : string),
         parse_headers msg !! "location" = None ->
         deliver st (EvMessage msg address) = st)
  /\ (forall (st : scan) (task : nat) (net : fetch_outcome)
             (location address : string) (d : descriptor),
         awaiting st !! task = Some (location, address) ->
         parseDeviceDescription location net = Some d ->
         map_get location (devices (deliver st (EvFetched task net)))
         = Some (set_ip d address)
         /\ forall other : string,
             other <> location ->
             map_get other (devices (deliver st (EvFetched task net)))
             = map_get other (devices st))
  /\ (forall (active : gset nat) (sock : nat) (evs : list event)
             (l1 l2 : string) (d1 d2 : descriptor),
         let st := run (discover_start active sock) evs in
         timer st = true ->
         l1 <> l2 ->
         map_get l1 (devices st) = Some d1 ->
         map_get l2 (devices st) = Some d2 ->
         exists r, resolved (deliver st EvTimeout) = Some r
                   /\ d1 ∈ r /\ d2 ∈ r).
Proof.
  split; [|split; [|split]].
  - intros active sock evs r Hr.
    destruct (scan_inv_start active sock) as [Hinv Hrun].
    destruct (run_invariants _ evs Hinv Hrun) as [(_ & _ & Hres) _].
    by apply Hres.
  - intros st msg address Hloc. simpl.
    destruct (on_message st && negb (closed st)); [|done].
    unfold run_callback, on_message_received. rewrite Hloc. by destruct st.
  - intros st task net location address d Htask Hd.
    rewrite deliver_devices, Htask, Hd. split.
    + apply map_get_set_eq.
    + intros other Hne. by apply map_get_set_ne.
  - intros active sock evs l1 l2 d1 d2 st T Hne H1 H2.
    destruct (scan_inv_start active sock) as [Hinv Hrun].
    destruct (run_invariants _ evs Hinv Hrun) as [_ [Hopen Hpending]].
    exists (map_values (devices st)). split.
    + apply deliver_timeout; [done|by apply Hopen|]. apply Hpending.
      by apply Hopen.
    + split; by eapply map_get_values.
Qed.

Lemma discovery_dedup_witness :
  NoDup (originalLocation <$>
           [ mkDescriptor "Living Room TV" "MediaRenderer" "Unknown Manufacturer"
               (Some "http://192.168.1.5/upnp/control/AVTransport")
               "192.168.1.5" "http://192.168.1.5/desc.xml" "";
             mkDescriptor "Living Room TV" "MediaRenderer" "Unknown Manufacturer"
               (Some "http://192.168.1.6:8080/upnp/control/AVTransport")
               "192.168.1.6" "http://192.168.1.6:8080/desc.xml" "8080" ])
  /\ exists r,
      resolved (@deliver example_platform (@run example_platform (discover_start ∅ 7)
                           example_two_renderers) EvTimeout) = Some r
      /\ mkDescriptor "Living Room TV" "MediaRenderer" "Unknown Manufacturer"
           (Some "http://192.168.1.5/upnp/control/AVTransport")
           "192.168.1.5" "http://192.168.1.5/desc.xml" "" ∈ r
      /\ mkDescriptor "Living Room TV" "MediaRenderer" "Unknown Manufacturer"
           (Some "http://192.168.1.6:8080/upnp/control/AVTransport")
           "192.168.1.6" "http://192.168.1.6:8080/desc.xml" "8080" ∈ r.
Proof.
  split.
  - apply (proj1 (@discovery_dedup example_platform) ∅ 7%nat
             (example_two_renderers ++ [EvTimeout])).
    by vm_compute.
  - apply (proj2 (proj2 (proj2 (@discovery_dedup example_platform))) ∅ 7%nat
             example_two_renderers
             "http://192.168.1.5/desc.xml" "http://192.168.1.6:8080/desc.xml").
    + by vm_compute.
    + by vm_compute.
    + by vm_compute.
    + by vm_compute.
Defined.

(** Locations are compared as strings: two spellings of one URL are two
    entries. *)
Example locations_are_not_canonicalized :
  originalLocation <$>
    default []
      (resolved
         (@run example_platform (discover_start ∅ 7)
            [ EvListening joined joined joined 3;
              EvMessage (example_datagram "http://192.168.1.5/desc.xml")
                "192.168.1.5";
              EvMessage (example_datagram "http://192.168.1.5:80/desc.xml")
                "192.168.1.5";
              EvFetched 1
                (example_fetch "Living Room TV"
                   [(AVTransport1, "/upnp/control/AVTransport")]);
              EvFetched 0
                (example_fetch "Living Room TV"
                   [(AVTransport1, "/upnp/control/AVTransport")]);
              EvTimeout ]))
  = ["http://192.168.1.5:80/desc.xml"; "http://192.168.1.5/desc.xml"].
Proof. by vm_compute. Qed.

(** ** C9: failures while the socket is set up *)

Section SetupFacts.

Context `{Platform}.

Lemma deliver_stuck (st : scan) (ev : event) :
  timer st = false -> on_message st = false -> listening st = true ->
  awaiting st = [] -> is_error ev = false ->
  deliver st ev = st.
Proof.
  intros T M L A E. destruct ev as [| | | |]; try done; simpl.
  - by rewrite L, orb_true_r.
  - by rewrite M.
  - by rewrite A.
  - by rewrite T.
Qed.

Lemma run_stuck (st : scan) (evs : list event) :
  timer st = false -> on_message st = false -> listening st = true ->
  awaiting st = [] ->
  run st (filter (fun ev => is_error ev = false) evs) = st.
Proof.
  intros T M L A. induction evs as [|ev evs IH]; [done|].
  rewrite filter_cons. case_decide as E; [|done].
  simpl. rewrite deliver_stuck by done. exact IH.
Qed.

End SetupFacts.

(** C9.  What the code does when socket set-up fails.  A failure of [bind]
    reaches the [error] listener: the scan cleans up and answers the empty
    list.  A failure of the multicast join is thrown inside the callback of
    [bind], where nothing catches it: the exception escapes, the socket
    stays open and registered, and as long as no socket error follows the
    promise is never settled.  The older copy of the callback catches the
    failure, cleans up and answers the empty list. *)
Theorem discover_join_failure_escapes `{Platform} :
  forall (active : gset nat) (sock : nat) (err : exn)
         (addMembership2 : completion unit) (mx : N),
    (let st := deliver (discover_start active sock)
                 (EvListening joined (Throw err) addMembership2 mx) in
     resolved st = None /\ closed st = false /\ (sock ∈ activeSockets st)
     /\ timer st = false /\ uncaught st = [err]
     /\ forall evs : list event,
         resolved (run st (filter (fun ev => is_error ev = false) evs)) = None)
    /\ (let st := deliver (discover_start active sock) (EvError err) in
        resolved st = Some [] /\ closed st = true /\ timer st = false
        /\ (sock ∉ activeSockets st) /\ uncaught st = [])
    /\ (let st := run_callback (Legacy.on_listening (Throw err) mx)
                    (set_listening (discover_start active sock)) in
        resolved st = Some [] /\ closed st = true
        /\ (sock ∉ activeSockets st)).
Proof.
  intros active sock err am2 mx.
  assert (Hgone : sock ∉ (active ∪ {[sock]}) ∖ {[sock]}).
  { intros [_ Hn]%elem_of_difference. by apply Hn, elem_of_singleton. }
  cbv zeta. split_and!;
    first [ done
          | exact Hgone
          | by apply elem_of_union_r, elem_of_singleton
          | by intros evs; rewrite run_stuck ].
Qed.

(** In the older copy the timer is armed after the failure was handled; when
    it fires, [cleanup] closes a closed socket and throws. *)
Example legacy_timer_outlives_cleanup :
  let st := run_callback (Legacy.on_listening (Throw (Error "ENODEV")) 1)
              (set_listening (discover_start ∅ 1)) in
  timer st = true
  /\ uncaught (run_callback on_timeout (set_timer false st))
     = [Error "Not running"].
Proof. by vm_compute. Qed.

(** ** C4: a control URL that cannot be normalized *)

(** The claim of C4 as stated fails: the control URL of this renderer has a
    port out of range, [normalizeURL] answers [null], and the renderer is
    in the result of the scan all the same, with [controlURL] null. *)
Lemma unnormalizable_control_url_not_skipped :
  @normalizeURL example_platform "http://192.168.1.9/desc.xml"
    (JString "http://192.168.1.9:99999/ctl") = None
  /\ resolved (@run example_platform (discover_start ∅ 1) example_bad_control)
     = Some [ mkDescriptor "Projector" "MediaRenderer" "Unknown Manufacturer"
                None "192.168.1.9" "http://192.168.1.9/desc.xml" "" ].
Proof. split; by vm_compute. Qed.

(** C4 (amended).  The [controlURL] of a descriptor is whatever
    [normalizeURL] answered for the control URL of the matched service,
    none included; a descriptor with no [controlURL] is filed in the result
    map like any other, and completing a resolution never lets an exception
    escape. *)
Theorem unnormalizable_control_url_kept `{Platform} :
  (forall (location : string) (net : fetch_outcome) (d : descriptor),
      parseDeviceDescription location net = Some d ->
      exists res xml result device serviceList av,
        net = Normal res /\ text res = Normal xml
        /\ discoverer_parseString xml = Normal result
        /\ root_device result = Normal device
        /\ get_prop device "serviceList" = Normal serviceList
        /\ findAVTransportService serviceList = Normal (Some av)
        /\ controlURL d = normalizeURL location (service_controlURL av))
  /\ (forall (st : scan) (task : nat) (net : fetch_outcome)
             (location address : string) (d : descriptor),
         awaiting st !! task = Some (location, address) ->
         parseDeviceDescription location net = Some d ->
         controlURL d = None ->
         map_get location (devices (deliver st (EvFetched task net)))
         = Some (set_ip d address))
  /\ (forall (st : scan) (task : nat) (net : fetch_outcome),
         uncaught (deliver st (EvFetched task net)) = uncaught st
         /\ resolved (deliver st (EvFetched task net)) = resolved st
         /\ closed (deliver st (EvFetched task net)) = closed st).
Proof.
  split; [|split].
  - intros location net d Hd.
    apply parseDeviceDescription_Some in Hd
      as (_ & res & xml & result & device & serviceList & av & url & Hnet
          & _ & Htext & Hparse & Hdev & _ & Hlist & Hfind & _ & Hcu & _).
    exists res, xml, result, device, serviceList, av. by repeat split.
  - intros st task net location address d Htask Hd _.
    rewrite deliver_devices, Htask, Hd. apply map_get_set_eq.
  - intros st task net. simpl.
    destruct (awaiting st !! task) as [[location address]|]; [|done].
    unfold run_callback, on_message_resumed.
    by destruct (parseDeviceDescription location net).
Qed.

Lemma unnormalizable_control_url_kept_witness :
  map_get "http://192.168.1.9/desc.xml"
    (devices
       (@deliver example_platform
          (@run example_platform (discover_start ∅ 1)
             [ EvListening joined joined joined 1;
               EvMessage (example_datagram "http://192.168.1.9/desc.xml")
                 "192.168.1.9" ])
          (EvFetched 0
             (example_fetch "Projector"
                [(AVTransport1, "http://192.168.1.9:99999/ctl")]))))
  = Some (mkDescriptor "Projector" "MediaRenderer" "Unknown Manufacturer"
            None "192.168.1.9" "http://192.168.1.9/desc.xml" "").
Proof.
  apply (proj1 (proj2 (@unnormalizable_control_url_kept example_platform))
           _ 0%nat _ "http://192.168.1.9/desc.xml" "192.168.1.9"
           (mkDescriptor "Projector" "MediaRenderer" "Unknown Manufacturer"
              None "Pending" "http://192.168.1.9/desc.xml" "")).
  - by vm_compute.
  - by vm_compute.
  - reflexivity.
Defined.

(** ** URLs: collapsing separators *)

Section SlashFacts.

Import JsString.

Lemma collapse_cons_slash (s : string) :
  collapse_slashes (String "/" s)
  = match s with
    | String b _ =>
        if char_eqb b "/" then collapse_slashes s
        else String "/" (collapse_slashes s)
    | EmptyString => "/"
    end.
Proof. done. Qed.

Lemma collapse_cons_other (a : ascii) (s : string) :
  a <> "/"%char -> collapse_slashes (String a s) = String a (collapse_slashes s).
Proof.
  intros Hne. cbn [collapse_slashes].
  destruct (char_eqb a "/") eqn:E; [by apply char_eqb_eq in E|done].
Qed.

(** The head of a collapsed string is the head of the string. *)
Lemma collapse_head (a : ascii) (s : string) :
  exists t, collapse_slashes (String a s) = String a t.
Proof.
  revert a. induction s as [|b s IH]; intros a.
  - cbn. destruct (char_eqb a "/"); eauto.
  - destruct (decide (a = "/"%char)) as [->|Hne].
    + rewrite collapse_cons_slash.
      destruct (char_eqb b "/") eqn:E.
      * apply char_eqb_eq in E as ->. apply IH.
      * eauto.
    + rewrite collapse_cons_other by done. eauto.
Qed.

Lemma has_double_slash_cons (a b : ascii) (r : string) :
  has_double_slash (String a (String b r))
  = (char_eqb a "/" && char_eqb b "/") || has_double_slash (String b r).
Proof. done. Qed.

Lemma collapse_no_double_slash (s : string) :
  has_double_slash (collapse_slashes s) = false.
Proof.
  induction s as [|a s IH]; [done|].
  destruct (decide (a = "/"%char)) as [->|Hne].
  - rewrite collapse_cons_slash. destruct s as [|b s]; [done|].
    destruct (char_eqb b "/") eqn:E; [done|].
    destruct (collapse_head b s) as [t Ht]. rewrite Ht in *.
    by rewrite has_double_slash_cons, IH, E, andb_false_r.
  - rewrite collapse_cons_other by done.
    destruct s as [|b s]; [done|].
    destruct (collapse_head b s) as [t Ht]. rewrite Ht in *.
    rewrite has_double_slash_cons, IH.
    destruct (char_eqb a "/") eqn:E; [by apply char_eqb_eq in E|done].
Qed.

Lemma collapse_fixed (s : string) :
  has_double_slash s = false -> collapse_slashes s = s.
Proof.
  induction s as [|a s IH]; [done|]. destruct s as [|b s].
  - intros _. cbn. by destruct (char_eqb a "/").
  - rewrite has_double_slash_cons. intros [Hab Hs]%orb_false_iff.
    destruct (decide (a = "/"%char)) as [->|Hne].
    + rewrite collapse_cons_slash. simpl in Hab. rewrite Hab.
      by rewrite IH.
    + rewrite collapse_cons_other by done. by rewrite IH.
Qed.

(** One separator of a run is dropped at a time. *)
Lemma collapse_run (a b : string) :
  collapse_slashes (a +:+ "//" +:+ b) = collapse_slashes (a +:+ "/" +:+ b).
Proof.
  change ("//" +:+ b) with (String "/" (String "/" b)).
  change ("/" +:+ b) with (String "/" b).
  induction a as [|c a IH].
  - rewrite !app_empty_l. by rewrite (collapse_cons_slash (String "/" b)).
  - rewrite !app_cons. destruct (decide (c = "/"%char)) as [->|Hne].
    + rewrite !collapse_cons_slash. destruct a as [|h a].
      * rewrite !app_empty_l in *. simpl (char_eqb "/" "/"). cbv iota.
        by rewrite IH.
      * rewrite !app_cons in *. destruct (char_eqb h "/"); by rewrite IH.
    + rewrite !collapse_cons_other by done. by rewrite IH.
Qed.

Lemma collapse_all_chars (p : ascii -> bool) (s : string) :
  all_chars p s = true -> all_chars p (collapse_slashes s) = true.
Proof.
  induction s as [|a s IH]; [done|]. cbn [all_chars].
  intros [Ha Hs]%andb_true_iff.
  destruct (decide (a = "/"%char)) as [->|Hne].
  - rewrite collapse_cons_slash. destruct s as [|b s].
    + cbn. by rewrite Ha.
    + destruct (char_eqb b "/"); [by apply IH|].
      cbn [all_chars]. by rewrite Ha, IH.
  - rewrite collapse_cons_other by done. cbn [all_chars]. by rewrite Ha, IH.
Qed.

End SlashFacts.

(** ** URLs: the path state and the [pathname] setter *)

Section PathFacts.

Import JsString.

Lemma all_chars_app (p : ascii -> bool) (s t : string) :
  all_chars p (s +:+ t) = all_chars p s && all_chars p t.
Proof.
  induction s as [|a s IH]; [done|].
  rewrite app_cons. cbn [all_chars]. by rewrite IH, andb_assoc.
Qed.

Lemma all_chars_rev_app (p : ascii -> bool) (s acc : string) :
  all_chars p (String.rev_app s acc) = all_chars p s && all_chars p acc.
Proof.
  revert acc. induction s as [|a s IH]; intros acc; [done|].
  cbn [String.rev_app all_chars]. rewrite IH. cbn [all_chars].
  by destruct (p a), (all_chars p s).
Qed.

Lemma all_chars_rev (p : ascii -> bool) (s : string) :
  all_chars p (String.rev s) = all_chars p s.
Proof. unfold String.rev. by rewrite all_chars_rev_app, andb_true_r. Qed.

Lemma rev_app_nonempty (a : ascii) (s acc : string) :
  String.rev_app s (String a acc) <> EmptyString.
Proof. revert a acc. induction s as [|b s IH]; intros a acc; [done|]. apply IH. Qed.

Lemma rev_cons_nonempty (a : ascii) (s : string) :
  String.rev (String a s) <> EmptyString.
Proof. apply rev_app_nonempty. Qed.

Lemma all_chars_impl (p q : ascii -> bool) (s : string) :
  (forall c, p c = true -> q c = true) ->
  all_chars p s = true -> all_chars q s = true.
Proof.
  intros Hpq. induction s as [|a s IH]; [done|]. cbn [all_chars].
  intros [Ha Hs]%andb_true_iff. by rewrite (Hpq a Ha), IH.
Qed.

Lemma Forall_removelast {A} (P : A -> Prop) (l : list A) :
  Forall P l -> Forall P (removelast l).
Proof.
  induction 1 as [|x l Hx Hl IH]; [done|]. simpl.
  destruct l; [constructor|]. by constructor.
Qed.

(** A segment closed at a slash joins the inner segments ... *)
Lemma close_segment_inner (path : list string) (seg : string) :
  Forall inner_segment path -> inner_segment seg ->
  Forall inner_segment (WhatWG.close_segment path seg true).
Proof.
  intros Hpath Hseg. unfold WhatWG.close_segment.
  repeat case_bool_decide; try done.
  - by apply Forall_removelast.
  - apply Forall_app. split; [done|]. by constructor.
Qed.

(** ... and the one closed at the end of the path comes last. *)
Lemma close_segment_last (path : list string) (seg : string) :
  Forall inner_segment path -> free_of "/" seg ->
  exists segs last,
    WhatWG.close_segment path seg false = segs ++ [last]
    /\ Forall inner_segment segs /\ free_of "/" last.
Proof.
  intros Hpath Hseg. unfold WhatWG.close_segment.
  repeat case_bool_decide.
  - exists (removelast path), EmptyString.
    split; [done|]. split; [by apply Forall_removelast|done].
  - exists path, EmptyString. by repeat split.
  - exists path, seg. by repeat split.
Qed.

Lemma path_state_plain (s : string) (path : list string) (buf : string) :
  Forall inner_segment path -> free_of "/" buf ->
  all_chars (fun c => negb (WhatWG.char_in c "?#")) s = true ->
  has_double_slash s = false ->
  (buf = EmptyString -> String.prefix "/" s = false) ->
  exists segs last,
    WhatWG.path_state path buf s = (segs ++ [last], EmptyString)
    /\ Forall inner_segment segs /\ free_of "/" last.
Proof.
  revert path buf. induction s as [|c s IH]; intros path buf Hpath Hbuf Hs Hds Hfirst.
  - cbn [WhatWG.path_state].
    destruct (close_segment_last path (String.rev buf)) as (segs & last & E & ? & ?);
      [done|by unfold free_of; rewrite all_chars_rev|].
    exists segs, last. by rewrite E.
  - cbn [all_chars] in Hs. apply andb_true_iff in Hs as [Hc Hs].
    apply negb_true_iff in Hc. cbn [WhatWG.path_state]. rewrite Hc.
    destruct (char_eqb c "/") eqn:Ec.
    + apply char_eqb_eq in Ec as ->.
      destruct buf as [|b buf].
      { specialize (Hfirst eq_refl).
        by rewrite prefix_cons, prefix_empty, char_eqb_refl in Hfirst. }
      apply IH; try done.
      * apply close_segment_inner; [done|]. split.
        -- by unfold free_of; rewrite all_chars_rev.
        -- apply rev_cons_nonempty.
      * destruct s as [|d s]; [done|].
        rewrite has_double_slash_cons in Hds. by apply orb_false_iff in Hds as [_ ?].
      * intros _. destruct s as [|d s]; [done|].
        rewrite has_double_slash_cons in Hds.
        apply orb_false_iff in Hds as [Hd _]. simpl in Hd.
        rewrite prefix_cons, prefix_empty, andb_true_r.
        by rewrite char_eqb_sym.
    + apply IH; try done.
      * apply free_of_cons. split; [|done]. intros ->. by rewrite char_eqb_refl in Ec.
      * destruct s as [|d s]; [done|].
        rewrite has_double_slash_cons in Hds. by apply orb_false_iff in Hds as [_ ?].
Qed.

Lemma double_slash_segment (seg rest : string) :
  free_of "/" seg -> seg <> EmptyString ->
  has_double_slash rest = false ->
  has_double_slash ("/" +:+ seg +:+ rest) = false.
Proof.
  intros Hseg Hne Hrest.
  assert (Hin : forall s, free_of "/" s ->
                          has_double_slash (s +:+ rest) = false).
  { induction s as [|a s IHs]; [done|]. intros [Ha Hs]%free_of_cons.
    rewrite app_cons. destruct (s +:+ rest) as [|b r] eqn:E; [done|].
    rewrite has_double_slash_cons, (IHs Hs).
    destruct (char_eqb a "/") eqn:Ea; [by apply char_eqb_eq in Ea|done]. }
  destruct seg as [|a seg]; [done|].
  change ("/" +:+ String a seg +:+ rest) with (String "/" (String a (seg +:+ rest))).
  rewrite has_double_slash_cons. rewrite <- app_cons, (Hin _ Hseg).
  apply free_of_cons in Hseg as [Ha _].
  destruct (char_eqb a "/") eqn:Ea; [by apply char_eqb_eq in Ea|done].
Qed.

Lemma double_slash_last (last : string) :
  free_of "/" last -> has_double_slash ("/" +:+ last) = false.
Proof.
  intros Hlast.
  assert (Hin : forall s, free_of "/" s -> has_double_slash s = false).
  { induction s as [|a s IHs]; [done|]. intros [Ha Hs]%free_of_cons.
    destruct s as [|b r]; [done|].
    rewrite has_double_slash_cons, (IHs Hs).
    destruct (char_eqb a "/") eqn:Ea; [by apply char_eqb_eq in Ea|done]. }
  destruct last as [|a last]; [done|].
  change ("/" +:+ String a last) with (String "/" (String a last)).
  rewrite has_double_slash_cons, (Hin _ Hlast).
  apply free_of_cons in Hlast as [Ha _].
  destruct (char_eqb a "/") eqn:Ea; [by apply char_eqb_eq in Ea|done].
Qed.

Lemma serialize_path_no_double_slash (segs : list string) (last : string) :
  Forall inner_segment segs -> free_of "/" last ->
  has_double_slash (WhatWG.serialize_path (ListPath (segs ++ [last]))) = false.
Proof.
  intros Hsegs Hlast. induction Hsegs as [|seg segs [Hfree Hne] _ IH].
  - simpl. rewrite app_empty_r. exact (double_slash_last last Hlast).
  - exact (double_slash_segment seg _ Hfree Hne IH).
Qed.

End PathFacts.

Section NormalizeFacts.

Context `{Platform}.
Import JsString.

Lemma set_pathname_no_double_slash (u : URLrecord) (v : string) :
  WhatWG.has_tuple_origin (url_scheme u) = true ->
  (exists segs, url_path_of u = ListPath segs) ->
  WhatWG.plain_path_value v = true ->
  has_double_slash v = false ->
  has_double_slash (URL_pathname (URL_set_pathname u v)) = false.
Proof.
  intros Hscheme [segs0 Hpath] Hplain Hds.
  unfold URL_set_pathname. rewrite Hpath, Hscheme, Hplain. simpl.
  unfold URL_pathname. cbn [url_path_of].
  assert (Hstops : all_chars (fun c => negb (WhatWG.char_in c "?#")) v = true).
  { revert Hplain. unfold WhatWG.plain_path_value. apply all_chars_impl.
    by intros c [_ ?]%andb_true_iff. }
  assert (Hstate : exists segs last,
             WhatWG.path_start v = (segs ++ [last], EmptyString)
             /\ Forall inner_segment segs /\ free_of "/" last).
  { unfold WhatWG.path_start. destruct v as [|c v].
    - by apply path_state_plain.
    - destruct (char_eqb c "/") eqn:Ec.
      + apply char_eqb_eq in Ec as ->.
        cbn [all_chars] in Hstops. apply andb_true_iff in Hstops as [_ Hstops].
        apply path_state_plain; try done.
        * destruct v as [|d v]; [done|]. rewrite has_double_slash_cons in Hds.
          by apply orb_false_iff in Hds as [_ ?].
        * intros _. destruct v as [|d v]; [done|].
          rewrite has_double_slash_cons in Hds.
          apply orb_false_iff in Hds as [Hd _]. simpl in Hd.
          rewrite prefix_cons, prefix_empty, andb_true_r.
          by rewrite char_eqb_sym.
      + apply path_state_plain; try done. intros _.
        rewrite prefix_cons, prefix_empty, andb_true_r.
        by rewrite char_eqb_sym. }
  destruct Hstate as (segs & last & -> & Hsegs & Hlast). simpl.
  by apply serialize_path_no_double_slash.
Qed.

Lemma normalizeURL_Some (base : string) (path : jsval) (href : string) :
  normalizeURL base path = Some href ->
  exists baseURL resolved,
    URL_new base None = Normal baseURL
    /\ URL_new (to_string path) (Some (URL_origin baseURL)) = Normal resolved
    /\ href = URL_href (URL_set_pathname resolved
                          (collapse_slashes (URL_pathname resolved))).
Proof.
  unfold normalizeURL, try_catch.
  destruct (URL_new base None) as [baseURL|e]; cbn [mbind completion_bind];
    [|done].
  destruct (URL_new (to_string path) (Some (URL_origin baseURL)))
    as [resolved|e] eqn:Hr; cbn [mbind completion_bind]; [|done].
  intros [= <-]. exists baseURL, resolved. by repeat split.
Qed.

Lemma normalizeURL_origin_only (b1 b2 : string) (u1 u2 : URLrecord)
    (path : jsval) :
  URL_new b1 None = Normal u1 -> URL_new b2 None = Normal u2 ->
  URL_origin u1 = URL_origin u2 ->
  normalizeURL b1 path = normalizeURL b2 path.
Proof.
  intros H1 H2 Ho. unfold normalizeURL. rewrite H1, H2.
  cbn [mbind completion_bind]. by rewrite Ho.
Qed.

End NormalizeFacts.

(** ** C5: [normalizeURL] *)

(** The claim of C5 as stated fails on its own first example: the URL
    parser drops the default port of the scheme, so the result carries no
    [:80]. *)
Lemma normalizeURL_drops_default_port :
  @normalizeURL example_platform "http://192.168.1.5:80/desc.xml"
    (JString "/upnp/control/AVTransport")
  <> Some "http://192.168.1.5:80/upnp/control/AVTransport".
Proof. by vm_compute. Qed.

(** C5 (amended).  [normalizeURL] resolves the path against the origin of
    the base, so two bases with the same origin give the same result and
    the path of the base plays no part; the path name it assigns has every
    run of separators collapsed into one, and so has the path name of the
    result; on the two examples the result is
    [http://192.168.1.5/upnp/control/AVTransport], the default port [:80]
    of the base being dropped by the URL parser. *)
Theorem normalizeURL_resolution `{Platform} :
  (forall (b1 b2 : string) (u1 u2 : URLrecord) (path : jsval),
      URL_new b1 None = Normal u1 -> URL_new b2 None = Normal u2 ->
      URL_origin u1 = URL_origin u2 ->
      normalizeURL b1 path = normalizeURL b2 path)
  /\ (forall s : string,
         has_double_slash (JsString.collapse_slashes s) = false
         /\ (has_double_slash s = false -> JsString.collapse_slashes s = s))
  /\ (forall a b : string,
         JsString.collapse_slashes (a +:+ "//" +:+ b)
         = JsString.collapse_slashes (a +:+ "/" +:+ b))
  /\ (forall (base : string) (path : jsval) (href : string),
         normalizeURL base path = Some href ->
         exists baseURL resolved,
           URL_new base None = Normal baseURL
           /\ URL_new (to_string path) (Some (URL_origin baseURL))
              = Normal resolved
           /\ href = URL_href (URL_set_pathname resolved
                       (JsString.collapse_slashes (URL_pathname resolved)))
           /\ (WhatWG.has_tuple_origin (url_scheme resolved) = true ->
               (exists segs, url_path_of resolved = ListPath segs) ->
               WhatWG.plain_path_value (URL_pathname resolved) = true ->
               has_double_slash
                 (URL_pathname (URL_set_pathname resolved
                    (JsString.collapse_slashes (URL_pathname resolved))))
               = false))
  /\ normalizeURL "http://192.168.1.5:80/desc.xml"
       (JString "/upnp/control/AVTransport")
     = Some "http://192.168.1.5/upnp/control/AVTransport"
  /\ normalizeURL "http://192.168.1.5:80/desc.xml"
       (JString "upnp//control//AVTransport")
     = Some "http://192.168.1.5/upnp/control/AVTransport"
  /\ normalizeURL "http://192.168.1.5:8080/a/b/desc.xml" (JString "ctl")
     = Some "http://192.168.1.5:8080/ctl".
Proof.
  split_and!.
  - apply @normalizeURL_origin_only.
  - intros s. split; [apply collapse_no_double_slash|apply collapse_fixed].
  - apply collapse_run.
  - intros base path href Hn.
    apply normalizeURL_Some in Hn as (baseURL & resolved & Hb & Hr & Hh).
    exists baseURL, resolved. split_and!; try done.
    intros Hscheme Hpath Hplain.
    apply set_pathname_no_double_slash; try done.
    + unfold WhatWG.plain_path_value. by apply collapse_all_chars.
    + apply collapse_no_double_slash.
  - by vm_compute.
  - by vm_compute.
  - by vm_compute.
Qed.

Lemma normalizeURL_resolution_witness :
  @normalizeURL example_platform "http://192.168.1.5:8080/desc.xml"
    (JString "upnp//control//AVTransport")
  = @normalizeURL example_platform "http://192.168.1.5:8080/a/b/c.xml"
      (JString "upnp//control//AVTransport")
  /\ JsString.collapse_slashes "/upnp/control" = "/upnp/control".
Proof.
  split.
  - apply (proj1 (@normalizeURL_resolution example_platform)
             "http://192.168.1.5:8080/desc.xml"
             "http://192.168.1.5:8080/a/b/c.xml"
             (mkURL "http" "" "" (Some "192.168.1.5") (Some 8080%N)
                (ListPath ["desc.xml"]) None None)
             (mkURL "http" "" "" (Some "192.168.1.5") (Some 8080%N)
                (ListPath ["a"; "b"; "c.xml"]) None None)).
    + by vm_compute.
    + by vm_compute.
    + by vm_compute.
  - apply (proj1 (proj2 (@normalizeURL_resolution example_platform))).
    by vm_compute.
Defined.

(** ** URLs: locations without an explicit port of their own *)

Section PortFacts.

Context `{Platform}.
Import JsString.

Lemma host_char_facts (c : ascii) :
  is_alnum c || WhatWG.char_in c ".-" = true ->
  WhatWG.char_in c "/?#" = false /\ WhatWG.char_in c ":" = false
  /\ WhatWG.safe_char c = true /\ char_eqb c "/" = false.
Proof.
  destruct c as [[] [] [] [] [] [] [] []]; vm_compute; intros;
    by repeat split.
Qed.

Lemma classify_host_chars (host h : string) :
  WhatWG.classify_host host = WhatWG.HostOk h ->
  all_chars (fun c => is_alnum c || WhatWG.char_in c ".-") host = true
  /\ host <> EmptyString.
Proof.
  unfold WhatWG.classify_host.
  destruct (all_chars _ host) eqn:Hall; simpl; [|done].
  intros Hc. split; [done|]. by intros ->.
Qed.

Lemma break_at_app (stops x rest : string) :
  all_chars (fun c => negb (WhatWG.char_in c stops)) x = true ->
  starts_with_one_of stops rest = true ->
  WhatWG.break_at stops (x +:+ rest) = (x, rest).
Proof.
  intros Hx Hrest. induction x as [|a x IH].
  - rewrite app_empty_l. destruct rest as [|c rest]; [done|].
    simpl in *. by rewrite Hrest.
  - cbn [all_chars] in Hx. apply andb_true_iff in Hx as [Ha Hx].
    apply negb_true_iff in Ha. rewrite app_cons. cbn [WhatWG.break_at].
    by rewrite Ha, (IH Hx).
Qed.

(** Parsing [scheme://host] with the default port written out or left
    out, followed by a path, query or fragment. *)
Lemma parse_plain_location (scheme host h rest : string) (explicit : bool) :
  scheme = "http" \/ scheme = "https" ->
  WhatWG.classify_host host = WhatWG.HostOk h ->
  all_chars WhatWG.safe_char rest = true ->
  starts_with_one_of "/?#" rest = true ->
  exists path q f,
    WhatWG.basic_parse
      (scheme +:+ "://" +:+ host
       +:+ (if explicit then ":" +:+ default_port_text scheme else EmptyString)
       +:+ rest) None
    = WhatWG.Parsed
        (mkURL scheme EmptyString EmptyString (Some h) None (ListPath path) q f).
Proof.
  intros Hscheme Hhost Hrest Hstart.
  destruct (classify_host_chars _ _ Hhost) as [Hchars Hne].
  set (portpart := if explicit then ":" +:+ default_port_text scheme
                   else EmptyString).
  assert (Hport : all_chars WhatWG.safe_char portpart = true
                  /\ all_chars (fun c => negb (WhatWG.char_in c "/?#")) portpart
                     = true
                  /\ starts_with_one_of ":" portpart = true
                  /\ WhatWG.parse_port scheme
                       (match portpart with
                        | String _ p => p
                        | EmptyString => EmptyString
                        end) = Some None).
  { unfold portpart. destruct explicit; [|by destruct Hscheme as [->| ->]].
    by destruct Hscheme as [->| ->]. }
  destruct Hport as (Hpsafe & Hpstop & Hpcolon & Hpparse).
  assert (Hhsafe : all_chars WhatWG.safe_char host = true).
  { revert Hchars. apply all_chars_impl. intros c Hc.
    by destruct (host_char_facts c Hc) as (_ & _ & ? & _). }
  assert (Hhstop : all_chars (fun c => negb (WhatWG.char_in c "/?#")) host = true).
  { revert Hchars. apply all_chars_impl. intros c Hc.
    destruct (host_char_facts c Hc) as (-> & _). done. }
  assert (Hhcolon : all_chars (fun c => negb (WhatWG.char_in c ":")) host = true).
  { revert Hchars. apply all_chars_impl. intros c Hc.
    destruct (host_char_facts c Hc) as (_ & -> & _). done. }
  assert (Hsafe : all_chars WhatWG.safe_char
                    (scheme +:+ "://" +:+ host +:+ portpart +:+ rest) = true).
  { rewrite !all_chars_app, Hhsafe, Hpsafe, Hrest.
    by destruct Hscheme as [->| ->]. }
  unfold WhatWG.basic_parse. rewrite Hsafe. cbn [negb].
  assert (Hdrop : WhatWG.drop_slashes ("//" +:+ host +:+ portpart +:+ rest)
                  = host +:+ portpart +:+ rest).
  { destruct host as [|a host]; [done|].
    cbn [all_chars] in Hchars. apply andb_true_iff in Hchars as [Ha _].
    destruct (host_char_facts a Ha) as (_ & _ & _ & Hslash).
    change ("//" +:+ String a host +:+ portpart +:+ rest)
      with (String "/" (String "/" (String a (host +:+ portpart +:+ rest)))).
    cbn [WhatWG.drop_slashes]. rewrite Hslash. done. }
  assert (Hauth : WhatWG.parse_authority scheme (host +:+ portpart +:+ rest)
                  = let '(path, rest') := WhatWG.path_start rest in
                    let '(q, f) := WhatWG.query_fragment None rest' in
                    WhatWG.Parsed
                      (mkURL scheme EmptyString EmptyString (Some h) None
                         (ListPath path) q f)).
  { unfold WhatWG.parse_authority.
    replace (host +:+ portpart +:+ rest) with ((host +:+ portpart) +:+ rest)
      by apply app_assoc.
    rewrite break_at_app; [|by rewrite all_chars_app, Hhstop, Hpstop|done].
    rewrite break_at_app by done.
    rewrite bool_decide_eq_false_2 by done.
    by rewrite Hhost, Hpparse. }
  assert (Hscan : WhatWG.take_scheme
                    (scheme +:+ "://" +:+ host +:+ portpart +:+ rest)
                  = Some (scheme, "//" +:+ host +:+ portpart +:+ rest)).
  { by destruct Hscheme as [->| ->]. }
  rewrite Hscan.
  assert (WhatWG.is_http scheme = true) as -> by (by destruct Hscheme as [->| ->]).
  cbn [negb]. rewrite Hdrop, Hauth.
  destruct (WhatWG.path_start rest) as [path rest'].
  destruct (WhatWG.query_fragment None rest') as [q f].
  by exists path, q, f.
Qed.

(** The fields [port] and [originalLocation] are written once, by
    [parseDeviceDescription]; the address stored afterwards leaves them. *)
Lemma set_ip_port (d : descriptor) (address : string) :
  port (set_ip d address) = port d
  /\ originalLocation (set_ip d address) = originalLocation d.
Proof. done. Qed.

(** A property every resolved descriptor has, whichever address is then
    written into it, holds of every entry of the map and of every
    descriptor a scan answers with. *)
Lemma answer_Forall (P : descriptor -> Prop) :
  (forall location net d address,
      parseDeviceDescription location net = Some d -> P (set_ip d address)) ->
  forall (evs : list event) (st : scan),
    Forall (fun kd => P kd.2) (devices st) ->
    (forall r, resolved st = Some r -> Forall P r) ->
    Forall (fun kd => P kd.2) (devices (run st evs))
    /\ forall r, resolved (run st evs) = Some r -> Forall P r.
Proof.
  intros Hparse. induction evs as [|ev evs IH]; intros st Hd Hr; [done|].
  change (run st (ev :: evs)) with (run (deliver st ev) evs). apply IH.
  - rewrite deliver_devices. destruct ev as [| | |task net|]; try done.
    destruct (awaiting st !! task) as [[location address]|]; [|done].
    destruct (parseDeviceDescription location net) as [d|] eqn:Hd'; [|done].
    apply map_set_Forall; [|done]. simpl. by eapply Hparse.
  - intros r Hres.
    destruct (deliver_resolved st ev) as [Hsame|[_ [Hempty|Hvalues]]].
    + rewrite Hsame in Hres. by apply Hr.
    + rewrite Hempty in Hres. by injection Hres as <-.
    + rewrite Hvalues in Hres. injection Hres as <-.
      unfold map_values. by apply Forall_fmap.
Qed.

(** Every descriptor of the answer of a scan carries the port of the URL
    parsed from its own location. *)
Lemma answer_port (active : gset nat) (sock : nat) (evs : list event)
    (r : list descriptor) (d : descriptor) :
  resolved (run (discover_start active sock) evs) = Some r ->
  d ∈ r ->
  exists url,
    URL_new (originalLocation d) None = Normal url /\ port d = URL_port url.
Proof.
  intros Hres Hd.
  destruct (answer_Forall
              (fun d => exists url,
                   URL_new (originalLocation d) None = Normal url
                   /\ port d = URL_port url)) with (evs := evs)
      (st := discover_start active sock) as [_ Hanswer].
  - intros location net d' address Hd'.
    apply parseDeviceDescription_Some in Hd'
      as (_ & res & xml & result & device & serviceList & av & url & _ & _ & _
          & _ & _ & _ & _ & _ & Hurl & _ & Horiginal & Hport & _).
    exists url. simpl. by rewrite Horiginal.
  - by apply Forall_nil.
  - done.
  - by apply (proj1 (Forall_forall _ _) (Hanswer r Hres)).
Qed.

End PortFacts.

(** ** C10: the [port] field of a descriptor *)

(** C10.  Every descriptor a scan answers with carries, as [port], the port
    of the URL parsed from its own location, rendered as a string: empty
    when the parsed URL has no port, the decimal number otherwise.  A
    location that writes no port, or writes the default port of its scheme,
    parses to a URL without port, so the field of such a descriptor is the
    empty string.  The field is set by [parseDeviceDescription] and kept
    when the address is stored and when the map is turned into the
    answer. *)
Theorem descriptor_port `{Platform} :
  (forall (active : gset nat) (sock : nat) (evs : list event)
          (r : list descriptor) (d : descriptor),
      resolved (run (discover_start active sock) evs) = Some r ->
      d ∈ r ->
      exists url,
        URL_new (originalLocation d) None = Normal url
        /\ port d = URL_port url
        /\ (url_port url = None -> port d = EmptyString)
        /\ (forall n, url_port url = Some n -> port d = JsString.decimal n))
  /\ (forall (active : gset nat) (sock : nat) (evs : list event)
             (r : list descriptor) (d : descriptor)
             (scheme host h rest : string) (explicit : bool),
         resolved (run (discover_start active sock) evs) = Some r ->
         d ∈ r ->
         scheme = "http" \/ scheme = "https" ->
         WhatWG.classify_host host = WhatWG.HostOk h ->
         JsString.all_chars WhatWG.safe_char rest = true ->
         starts_with_one_of "/?#" rest = true ->
         originalLocation d
         = scheme +:+ "://" +:+ host
           +:+ (if explicit then ":" +:+ default_port_text scheme
                else EmptyString)
           +:+ rest ->
         port d = EmptyString)
  /\ (forall (location : string) (net : fetch_outcome) (d : descriptor),
         parseDeviceDescription location net = Some d ->
         exists url,
           URL_new location None = Normal url
           /\ port d = URL_port url
           /\ (url_port url = None -> port d = EmptyString)
           /\ (forall n, url_port url = Some n -> port d = JsString.decimal n))
  /\ (forall (d : descriptor) (address : string),
         port (set_ip d address) = port d
         /\ originalLocation (set_ip d address) = originalLocation d)
  /\ (forall (scheme host h rest : string) (explicit : bool),
         scheme = "http" \/ scheme = "https" ->
         WhatWG.classify_host host = WhatWG.HostOk h ->
         JsString.all_chars WhatWG.safe_char rest = true ->
         starts_with_one_of "/?#" rest = true ->
         exists url,
           URL_new
             (scheme +:+ "://" +:+ host
              +:+ (if explicit then ":" +:+ default_port_text scheme
                   else EmptyString)
              +:+ rest) None = Normal url
           /\ url_port url = None /\ URL_port url = EmptyString)
  /\ (exists url, URL_new "http://192.168.1.5:80/desc.xml" None = Normal url
                  /\ URL_port url = EmptyString)
  /\ (exists url, URL_new "http://192.168.1.5:8080/desc.xml" None = Normal url
                  /\ URL_port url = "8080").
Proof.
  assert (Hplain : forall (scheme host h rest : string) (explicit : bool),
             scheme = "http" \/ scheme = "https" ->
             WhatWG.classify_host host = WhatWG.HostOk h ->
             JsString.all_chars WhatWG.safe_char rest = true ->
             starts_with_one_of "/?#" rest = true ->
             exists url,
               URL_new
                 (scheme +:+ "://" +:+ host
                  +:+ (if explicit then ":" +:+ default_port_text scheme
                       else EmptyString)
                  +:+ rest) None = Normal url
               /\ url_port url = None /\ URL_port url = EmptyString).
  { intros scheme host h rest explicit Hscheme Hhost Hrest Hstart.
    destruct (parse_plain_location scheme host h rest explicit)
      as (path & q & f & Hparse); try done.
    eexists. unfold URL_new, url_parse. rewrite Hparse. by split_and!. }
  split_and!.
  - intros active sock evs r d Hres Hd.
    destruct (answer_port active sock evs r d Hres Hd) as (url & Hurl & Hport).
    exists url. split_and!; try done.
    + intros Hnone. rewrite Hport. unfold URL_port. by rewrite Hnone.
    + intros n Hn. rewrite Hport. unfold URL_port. by rewrite Hn.
  - intros active sock evs r d scheme host h rest explicit Hres Hd Hscheme
      Hhost Hrest Hstart Hlocation.
    destruct (answer_port active sock evs r d Hres Hd) as (url & Hurl & Hport).
    destruct (Hplain scheme host h rest explicit)
      as (url' & Hurl' & _ & Hempty); try done.
    rewrite Hlocation, Hurl' in Hurl. injection Hurl as <-.
    by rewrite Hport.
  - intros location net d Hd.
    apply parseDeviceDescription_Some in Hd
      as (_ & res & xml & result & device & serviceList & av & url & _ & _ & _
          & _ & _ & _ & _ & _ & Hurl & _ & _ & Hport & _).
    exists url. split_and!; try done.
    + intros Hnone. rewrite Hport. unfold URL_port. by rewrite Hnone.
    + intros n Hn. rewrite Hport. unfold URL_port. by rewrite Hn.
  - done.
  - exact Hplain.
  - eexists. split; by vm_compute.
  - eexists. split; by vm_compute.
Qed.

Lemma descriptor_port_witness :
  exists first second,
    resolved (@run example_platform (discover_start ∅ 7)
                (example_two_renderers ++ [EvTimeout]))
    = Some [first; second]
    /\ originalLocation first = "http://192.168.1.5/desc.xml"
    /\ port first = EmptyString
    /\ originalLocation second = "http://192.168.1.6:8080/desc.xml"
    /\ port second = "8080"
    /\ exists url,
        @URL_new example_platform (originalLocation second) None = Normal url
        /\ port second = URL_port url
        /\ (url_port url = None -> port second = EmptyString)
        /\ (forall n, url_port url = Some n ->
                      port second = JsString.decimal n).
Proof.
  eexists _, _. split; [by vm_compute|].
  split; [reflexivity|]. split; [|split; [reflexivity|split; [reflexivity|]]].
  - eapply (proj1 (proj2 (@descriptor_port example_platform)) ∅ 7%nat
              (example_two_renderers ++ [EvTimeout]))
      with (scheme := "http") (host := "192.168.1.5") (h := "192.168.1.5")
           (rest := "/desc.xml") (explicit := false).
    + by vm_compute.
    + apply elem_of_cons. by left.
    + by left.
    + by vm_compute.
    + by vm_compute.
    + by vm_compute.
    + by vm_compute.
  - eapply (proj1 (@descriptor_port example_platform) ∅ 7%nat
              (example_two_renderers ++ [EvTimeout])).
    + by vm_compute.
    + apply elem_of_cons. right. apply elem_of_cons. by left.
Defined.

(** ** The controller: which requests [play] issues *)

Section ControllerFacts.

Context `{Platform}.
Variable net : network.
Import JsString.

Lemma indexOf_from_prefix (needle s : string) (i : Z) :
  String.prefix needle s = true -> indexOf_from needle s i = i.
Proof. intros Hp. destruct s; cbn [indexOf_from]; by rewrite Hp. Qed.

Lemma indexOf_from_found (b c a : string) (i : Z) :
  0 <= i -> 0 <= indexOf_from b (a +:+ b +:+ c) i.
Proof.
  revert i. induction a as [|x a IH]; intros i Hi.
  - rewrite app_empty_l, indexOf_from_prefix; [done|apply prefix_app].
  - rewrite app_cons. cbn [indexOf_from].
    destruct (String.prefix b _); [done|]. apply IH. lia.
Qed.

Lemma includes_middle (a b c : string) : includes (a +:+ b +:+ c) b = true.
Proof.
  unfold includes, indexOf. apply bool_decide_eq_true.
  pose proof (indexOf_from_found b c a 0). lia.
Qed.

Lemma getDeviceDetails_issues (location : string) (issued : list request) :
  exists c, DLNAController.getDeviceDetails net location issued
            = (c, issued ++ [getRequest location]).
Proof.
  unfold DLNAController.getDeviceDetails, io_try, fetch, getRequest.
  cbv [mbind io_bind io_lift].
  destruct (net issued _) as [res|e]; [|eauto].
  destruct (text res) as [xml|e]; [|eauto].
  destruct (controller_parseString xml) as [result|e]; [|eauto].
  destruct (root_device result) as [device|e]; [|eauto].
  destruct (get_prop device "serviceList") as [serviceList|e]; [|eauto].
  destruct (DLNAController.findAVTransportService serviceList); eauto.
Qed.

Lemma sendSoapRequest_issues (url serviceType action body : string)
    (issued : list request) :
  let req := soapRequest url serviceType action body in
  exists c,
    DLNAController.sendSoapRequest net url serviceType action body issued
    = (c, issued ++ [req])
    /\ (forall v, c = Normal v ->
          exists res, net issued req = Normal res /\ ok res = true)
    /\ (forall res, net issued req = Normal res -> ok res = false ->
          exists e, c = Throw e
                    /\ forall errorText, text res = Normal errorText ->
                         e = Error (soapFailure (status res) errorText)).
Proof.
  intros req. unfold DLNAController.sendSoapRequest, fetch. fold req.
  cbv [mbind io_bind io_lift].
  destruct (net issued req) as [res|e] eqn:Hnet.
  - destruct (ok res) eqn:Hok; cbn [negb].
    + destruct (text res) as [received|e].
      * eexists. split; [done|]. split; [|intros ? [= <-] ?; congruence].
        intros v _. by exists res.
      * eexists. split; [done|]. split; [done|intros ? [= <-] ?; congruence].
    + destruct (text res) as [errorText|e] eqn:Htext.
      * eexists. split; [done|]. split; [done|].
        intros ? [= <-] _. eexists. split; [done|]. rewrite Htext.
        by intros ? [= <-].
      * eexists. split; [done|]. split; [done|].
        intros ? [= <-] _. eexists. split; [done|]. by rewrite Htext.
  - eexists. split; [done|]. split; done.
Qed.

(** The requests of [play], and what each possible trace tells. *)
Lemma play_trace (deviceLocation : playTarget) (mediaURL : string) :
  let get := getRequest (target_location deviceLocation) in
  exists r issued,
    DLNAController.play net deviceLocation mediaURL [] = (Normal r, issued)
    /\ (success r = true /\ error r = None
        \/ success r = false /\ exists msg, error r = Some msg)
    /\ (issued = [get] /\ success r = false
        /\ (forall av,
              DLNAController.getDeviceDetails net (target_location deviceLocation) []
              <> (Normal (Some av), [get]))
        \/ exists av,
            DLNAController.getDeviceDetails net (target_location deviceLocation) []
            = (Normal (Some av), [get])
            /\ (issued = [get; setRequest deviceLocation av mediaURL]
                /\ success r = false
                /\ (forall res,
                      net [get] (setRequest deviceLocation av mediaURL)
                      = Normal res ->
                      ok res = false ->
                      forall errorText, text res = Normal errorText ->
                        error r = Some (soapFailure (status res) errorText))
                \/ issued = [get; setRequest deviceLocation av mediaURL;
                             playRequest deviceLocation av]
                   /\ exists res,
                       net [get] (setRequest deviceLocation av mediaURL)
                       = Normal res
                       /\ ok res = true)).
Proof.
  intros get. unfold DLNAController.play, io_try.
  destruct (getDeviceDetails_issues (target_location deviceLocation) [])
    as [c Hget]. simpl in Hget. fold get in Hget.
  cbv [mbind io_bind mret io_ret io_lift]. rewrite Hget.
  destruct c as [[av|]|e].
  - destruct (sendSoapRequest_issues (controlUrlFull deviceLocation av)
                (to_string (cs_serviceType av)) "SetAVTransportURI"
                (setURIBody mediaURL) [get]) as (c1 & Hset & Hok1 & Hfail1).
    fold (setRequest deviceLocation av mediaURL) in Hset, Hok1, Hfail1.
    rewrite Hset. destruct c1 as [v1|e1].
    + destruct (sendSoapRequest_issues (controlUrlFull deviceLocation av)
                  (to_string (cs_serviceType av)) "Play" "<Speed>1</Speed>"
                  ([get] ++ [setRequest deviceLocation av mediaURL]))
        as (c2 & Hplay & _ & _).
      fold (playRequest deviceLocation av) in Hplay. rewrite Hplay.
      destruct (Hok1 v1 eq_refl) as (res & Hres & Hokres).
      destruct c2 as [v2|e2]; eexists _, _; (split; [done|]).
      * split; [by left|]. right. exists av. split; [done|]. right.
        split; [done|]. by exists res.
      * split; [right; eauto|]. right. exists av. split; [done|]. right.
        split; [done|]. by exists res.
    + eexists _, _. split; [done|]. split; [right; eauto|].
      right. exists av. split; [done|]. left. split; [done|]. split; [done|].
      intros res Hres Hnok errorText Htext.
      destruct (Hfail1 res Hres Hnok) as (e & [= ->] & He).
      simpl. by rewrite (He errorText Htext).
  - eexists _, _. split; [done|]. split; [right; eauto|]. by left.
  - eexists _, _. split; [done|]. split; [right; eauto|]. by left.
Qed.

(** A response to [SetAVTransportURI] that is not 2xx ends [play]. *)
Lemma play_set_refused (deviceLocation : playTarget) (mediaURL : string)
    (av : controlService) (res : response) (r : playResult)
    (issued : list request) :
  let get := getRequest (target_location deviceLocation) in
  DLNAController.play net deviceLocation mediaURL [] = (Normal r, issued) ->
  DLNAController.getDeviceDetails net (target_location deviceLocation) []
  = (Normal (Some av), [get]) ->
  net [get] (setRequest deviceLocation av mediaURL) = Normal res ->
  ok res = false ->
  issued = [get; setRequest deviceLocation av mediaURL]
  /\ success r = false
  /\ forall errorText, text res = Normal errorText ->
       error r = Some (soapFailure (status res) errorText)
       /\ includes (soapFailure (status res) errorText)
            (decimal (status res)) = true.
Proof.
  intros get Hplay Hdetails Hnet Hnok.
  destruct (play_trace deviceLocation mediaURL)
    as (r' & issued' & Hplay' & _ & Hshape).
  fold get in Hshape. rewrite Hplay in Hplay'.
  injection Hplay' as <- <-.
  destruct Hshape as [(_ & _ & Hno)|(av' & Hav & Hcases)];
    [by destruct (Hno av)|].
  rewrite Hdetails in Hav. injection Hav as <-.
  destruct Hcases as [(Hissued & Hfalse & Herr)|(_ & res' & Hres' & Hok')].
  - split; [done|]. split; [done|]. intros errorText Htext.
    split; [by eapply Herr|]. apply includes_middle.
  - congruence.
Qed.

(** When the body of the refused response cannot be read either, [play]
    reports the failure of the read. *)
Lemma play_set_unreadable (deviceLocation : playTarget) (mediaURL : string)
    (av : controlService) (res : response) (e : exn) (r : playResult)
    (issued : list request) :
  let get := getRequest (target_location deviceLocation) in
  DLNAController.play net deviceLocation mediaURL [] = (Normal r, issued) ->
  DLNAController.getDeviceDetails net (target_location deviceLocation) []
  = (Normal (Some av), [get]) ->
  net [get] (setRequest deviceLocation av mediaURL) = Normal res ->
  ok res = false ->
  text res = Throw e ->
  error r = Some (message e).
Proof.
  intros get Hplay Hdetails Hnet Hnok Htext.
  unfold DLNAController.play, io_try in Hplay.
  cbv [mbind io_bind mret io_ret io_lift] in Hplay.
  rewrite Hdetails in Hplay.
  unfold DLNAController.sendSoapRequest at 1, fetch in Hplay.
  cbv [mbind io_bind mret io_ret io_lift] in Hplay.
  unfold setRequest in Hnet. rewrite Hnet, Hnok in Hplay. cbn [negb] in Hplay.
  rewrite Htext in Hplay. by injection Hplay as <- _.
Qed.

End ControllerFacts.
(** ** C1: [play] *)

(** The claim of C1 as stated fails on a renderer that answers
    [SetAVTransportURI] with status 500 and whose body cannot be read:
    [play] reports the failure of the read, and the status is not in the
    error text. *)
Lemma play_error_without_status :
  @DLNAController.play example_platform unreadable_network example_target
    "http://media.local/a.mp4" []
  = (Normal (mkResult false (Some "terminated")),
     [ getRequest "http://192.168.1.5/desc.xml";
       setRequest example_target example_service "http://media.local/a.mp4" ])
  /\ unreadable_network [getRequest "http://192.168.1.5/desc.xml"]
       (setRequest example_target example_service "http://media.local/a.mp4")
     = Normal (mkResponse 500 (Throw (TypeError "terminated")))
  /\ ok (mkResponse 500 (Throw (TypeError "terminated"))) = false
  /\ JsString.includes "terminated" (JsString.decimal 500) = false.
Proof. by vm_compute. Qed.

(** C1 (amended).  [play] always returns a result value.  It first fetches
    the device description, then sends [SetAVTransportURI], then [Play],
    and nothing else; [Play] is sent only after [SetAVTransportURI] was
    answered with a 2xx status.  When [SetAVTransportURI] is answered with
    another status, no [Play] request is issued and the result is a
    failure: when the body of that response can be read, the error text
    carries the status, followed by the body; when reading the body fails,
    the error text is the message of that failure.  A failure always comes
    with an error text.  The two control requests are POSTs to the same
    URL, told apart by their [SOAPAction] header and their body. *)
Theorem play_sequencing `{Platform} :
  forall (net : network) (deviceLocation : playTarget) (mediaURL : string),
    let get := getRequest (target_location deviceLocation) in
    exists r issued,
      DLNAController.play net deviceLocation mediaURL [] = (Normal r, issued)
      /\ (success r = true /\ error r = None
          \/ success r = false /\ exists msg, error r = Some msg)
      /\ (issued = [get] /\ success r = false
          \/ exists av,
              DLNAController.getDeviceDetails net (target_location deviceLocation) []
              = (Normal (Some av), [get])
              /\ (issued = [get; setRequest deviceLocation av mediaURL]
                  /\ success r = false
                  \/ issued = [get; setRequest deviceLocation av mediaURL;
                               playRequest deviceLocation av]
                     /\ exists res,
                         net [get] (setRequest deviceLocation av mediaURL)
                         = Normal res
                         /\ ok res = true))
      /\ (forall (av : controlService) (res : response),
             DLNAController.getDeviceDetails net (target_location deviceLocation) []
             = (Normal (Some av), [get]) ->
             net [get] (setRequest deviceLocation av mediaURL) = Normal res ->
             ok res = false ->
             issued = [get; setRequest deviceLocation av mediaURL]
             /\ success r = false
             /\ (forall errorText, text res = Normal errorText ->
                   error r = Some (soapFailure (status res) errorText)
                   /\ JsString.includes (soapFailure (status res) errorText)
                        (JsString.decimal (status res)) = true)
             /\ (forall e, text res = Throw e -> error r = Some (message e)))
      /\ (forall av : controlService,
             let set := setRequest deviceLocation av mediaURL in
             let play := playRequest deviceLocation av in
             let st := to_string (cs_serviceType av) in
             req_method set = "POST" /\ req_method play = "POST"
             /\ req_url set = controlUrlFull deviceLocation av
             /\ req_url play = controlUrlFull deviceLocation av
             /\ req_headers set !! 1%nat
                = Some ("SOAPAction",
                        DQ +:+ st +:+ "#" +:+ "SetAVTransportURI" +:+ DQ)
             /\ req_headers play !! 1%nat
                = Some ("SOAPAction", DQ +:+ st +:+ "#" +:+ "Play" +:+ DQ)
             /\ req_body set
                = Some (soapEnvelope st "SetAVTransportURI"
                          (setURIBody mediaURL))
             /\ req_body play = Some (soapEnvelope st "Play" "<Speed>1</Speed>")
             /\ set <> play /\ get <> set /\ get <> play).
Proof.
  intros net deviceLocation mediaURL get.
  destruct (play_trace net deviceLocation mediaURL)
    as (r & issued & Hplay & Hresult & Hshape).
  fold get in Hshape. exists r, issued. split_and!; try done.
  - destruct Hshape as [(? & ? & _)|(av & Hav & Hcases)]; [by left|].
    right. exists av. split; [done|].
    destruct Hcases as [(? & ? & _)|?]; [by left|by right].
  - intros av res Hav Hnet Hnok.
    destruct (play_set_refused net deviceLocation mediaURL av res r issued)
      as (Hissued & Hfalse & Hstatus); try done.
    split_and!; try done. intros e Htext.
    by apply (play_set_unreadable net deviceLocation mediaURL av res e r issued).
Qed.

Lemma play_sequencing_witness :
  exists r issued,
    @DLNAController.play example_platform refusing_network example_target
      "http://media.local/a.mp4?x=1&y=2" []
    = (Normal r, issued)
    /\ issued = [ getRequest "http://192.168.1.5/desc.xml";
                  setRequest example_target example_service
                    "http://media.local/a.mp4?x=1&y=2" ]
    /\ success r = false
    /\ error r = Some (soapFailure 500 "UPnPError 714")
    /\ JsString.includes (soapFailure 500 "UPnPError 714") "500" = true.
Proof.
  destruct (@play_sequencing example_platform refusing_network example_target
              "http://media.local/a.mp4?x=1&y=2")
    as (r & issued & Hplay & _ & _ & Hrefused & _).
  destruct (Hrefused example_service
              (mkResponse 500 (Normal "UPnPError 714")))
    as (Hissued & Hfalse & Herror & _).
  - by vm_compute.
  - by vm_compute.
  - by vm_compute.
  - destruct (Herror "UPnPError 714") as [Herr Hincl]; [reflexivity|].
    exists r, issued. by split_and!.
Defined.

(** With a renderer that accepts, the three requests go out in order. *)
Example play_accepted :
  @DLNAController.play example_platform accepting_network example_target
    "http://media.local/a.mp4" []
  = (Normal (mkResult true None),
     [ getRequest "http://192.168.1.5/desc.xml";
       setRequest example_target example_service "http://media.local/a.mp4";
       playRequest example_target example_service ]).
Proof. by vm_compute. Qed.

(** ** C8: the media URL inside the [SetAVTransportURI] body *)



(** * Further properties of the program *)

(** ** Which locations are resolved *)

Section GateFacts.

Context `{Platform}.
Import JsString.

Lemma append_colon_inj (s t : string) : s +:+ ":" = t +:+ ":" -> s = t.
Proof.
  revert t. induction s as [|a s IH]; intros [|b t]; rewrite ?app_cons,
    ?app_empty_l; intros Heq.
  - done.
  - injection Heq as <- Heq. by destruct t.
  - injection Heq as -> Heq. by destruct s.
  - injection Heq as -> Heq. f_equal. by apply IH.
Qed.

Lemma protocol_is_http (u : URLrecord) :
  bool_decide (URL_protocol u = "http:") || bool_decide (URL_protocol u = "https:")
  = WhatWG.is_http (url_scheme u).
Proof.
  unfold URL_protocol, WhatWG.is_http. f_equal; apply bool_decide_ext; split.
  - intros Heq. by apply append_colon_inj.
  - by intros ->.
  - intros Heq. by apply append_colon_inj.
  - by intros ->.
Qed.

Lemma isValidHttpUrl_parsed (url : string) :
  isValidHttpUrl url = true <->
  exists u, URL_new url None = Normal u /\ WhatWG.is_http (url_scheme u) = true.
Proof.
  unfold isValidHttpUrl, try_catch.
  destruct (URL_new url None) as [u|e]; cbn [mbind completion_bind].
  - rewrite protocol_is_http. split; [by exists u|]. by intros (? & [= <-] & ?).
  - split; [done|]. by intros (? & [=] & _).
Qed.

Lemma no_scheme_is_invalid (url : string) :
  all_chars WhatWG.safe_char url = true ->
  WhatWG.take_scheme url = None ->
  isValidHttpUrl url = false.
Proof.
  intros Hsafe Hscheme.
  unfold isValidHttpUrl, try_catch, URL_new, url_parse, WhatWG.basic_parse.
  by rewrite Hsafe, Hscheme.
Qed.

Lemma parseDeviceType_text (v : jsval) :
  text_or_absent v = true -> exists t, parseDeviceType v = Normal t.
Proof.
  unfold parseDeviceType, js_or.
  destruct v as [| |s| |]; try done; intros _; cbn [truthy mbind completion_bind];
    [by eexists|by eexists|].
  destruct (negb _); by eexists.
Qed.

Lemma parseDeviceType_throws (v : jsval) :
  text_or_absent v = false -> exists e, parseDeviceType v = Throw e.
Proof. destruct v; try done; intros _; by eexists. Qed.

Lemma trimmed_or_text (v : jsval) (what fallback : string) :
  text_or_absent v = true ->
  exists t, trimmed_or v what fallback = Normal t
            /\ (fallback <> EmptyString -> t <> EmptyString).
Proof.
  destruct v as [| |s| |]; try done; intros _; cbn [trimmed_or];
    [by eexists|by eexists|].
  eexists. split; [done|]. intros Hne. by case_bool_decide.
Qed.

Lemma trimmed_or_throws (v : jsval) (what fallback : string) :
  text_or_absent v = false -> exists e, trimmed_or v what fallback = Throw e.
Proof. destruct v; try done; intros _; by eexists. Qed.

Lemma get_prop_truthy (device : jsval) (k : string) :
  truthy device = true -> get_prop device k = Normal (property device k).
Proof. unfold property. by destruct device. Qed.

(** The resolver with its request answers as the resolver that is handed
    the outcome of the fetch, and issues the request exactly when the
    location passes [isValidHttpUrl]. *)
Lemma traced_resolution (net : network) (location : string)
    (issued : list request) :
  Traced.parseDeviceDescription net location issued
  = (Normal (parseDeviceDescription location
               (net issued (mkRequest "GET" location [] None))),
     if isValidHttpUrl location
     then issued ++ [mkRequest "GET" location [] None]
     else issued).
Proof.
  unfold Traced.parseDeviceDescription, parseDeviceDescription, io_try,
    try_catch, fetch.
  destruct (isValidHttpUrl location); cbn [negb]; [|done].
  cbv [mbind io_bind mret io_ret io_lift completion_bind].
  destruct (net issued _) as [res|e]; [|done].
  destruct (ok res); cbn [negb]; [|done].
  destruct (text res) as [xml|e]; [|done].
  destruct (discoverer_parseString xml) as [result|e]; [|done].
  destruct (root_device result) as [device|e]; [|done].
  destruct (truthy device); cbn [negb]; [|done].
  destruct (get_prop device "serviceList") as [serviceList|e]; [|done].
  destruct (findAVTransportService serviceList) as [[av|]|e]; [|done|done].
  destruct (URL_new location None) as [url|e]; [|done].
  destruct (get_prop device "friendlyName") as [fn|e]; [|done].
  destruct (trimmed_or fn _ _) as [nm|e]; [|done].
  destruct (get_prop device "deviceType") as [dt|e]; [|done].
  destruct (parseDeviceType dt) as [ty|e]; [|done].
  destruct (get_prop device "manufacturer") as [mf|e]; [|done].
  by destruct (trimmed_or mf _ _) as [mn|e].
Qed.

End GateFacts.

(** X1.  [isValidHttpUrl] accepts exactly the strings that [new URL] parses
    to a URL of scheme [http] or [https].  For a location it rejects, the
    resolver answers [null] and issues no request: the description is never
    fetched.  In particular a location without a scheme, such as a bare
    [host/path], is never fetched.  For a location it accepts, the resolver
    issues one request, a [GET] of the location without headers or body,
    whatever comes of it, and its answer depends on the outcome of that
    request alone. *)
Theorem invalid_location_never_fetched `{Platform} :
  (forall location : string,
      isValidHttpUrl location = true <->
      exists u, URL_new location None = Normal u
                /\ (url_scheme u = "http" \/ url_scheme u = "https"))
  /\ (forall (net : network) (location : string) (issued : list request),
         isValidHttpUrl location = false ->
         Traced.parseDeviceDescription net location issued
         = (Normal None, issued))
  /\ (forall (net : network) (location : string) (issued : list request),
         JsString.all_chars WhatWG.safe_char location = true ->
         WhatWG.take_scheme location = None ->
         Traced.parseDeviceDescription net location issued
         = (Normal None, issued))
  /\ (forall (net : network) (location : string) (issued : list request),
         isValidHttpUrl location = true ->
         Traced.parseDeviceDescription net location issued
         = (Normal (parseDeviceDescription location
                      (net issued (mkRequest "GET" location [] None))),
            issued ++ [mkRequest "GET" location [] None]))
  /\ (forall location : string,
         isValidHttpUrl location = false ->
         forall net : fetch_outcome, parseDeviceDescription location net = None).
Proof.
  assert (Hrejected : forall location : string,
             isValidHttpUrl location = false ->
             forall net : fetch_outcome,
               parseDeviceDescription location net = None).
  { intros location Hinvalid net.
    unfold parseDeviceDescription. by rewrite Hinvalid. }
  assert (Hsilent : forall (net : network) (location : string)
                           (issued : list request),
             isValidHttpUrl location = false ->
             Traced.parseDeviceDescription net location issued
             = (Normal None, issued)).
  { intros net location issued Hinvalid.
    by rewrite traced_resolution, Hinvalid, Hrejected. }
  split_and!.
  - intros location. rewrite isValidHttpUrl_parsed.
    split; intros (u & Hu & Hscheme); exists u; (split; [done|]).
    + unfold WhatWG.is_http in Hscheme.
      apply orb_true_iff in Hscheme as [Hs|Hs]; apply bool_decide_eq_true in Hs;
        [by left|by right].
    + unfold WhatWG.is_http. by destruct Hscheme as [->| ->].
  - exact Hsilent.
  - intros net location issued Hsafe Hscheme.
    apply Hsilent. by apply no_scheme_is_invalid.
  - intros net location issued Hvalid.
    by rewrite traced_resolution, Hvalid.
  - exact Hrejected.
Qed.

Lemma invalid_location_never_fetched_witness :
  @Traced.parseDeviceDescription example_platform accepting_network
    "192.168.1.5/desc.xml" []
  = (Normal None, [])
  /\ @Traced.parseDeviceDescription example_platform accepting_network
       "ftp://192.168.1.5/desc.xml" [getRequest "http://192.168.1.5/desc.xml"]
     = (Normal None, [getRequest "http://192.168.1.5/desc.xml"])
  /\ exists d,
      @Traced.parseDeviceDescription example_platform accepting_network
        "http://192.168.1.5/desc.xml" []
      = (Normal (Some d), [getRequest "http://192.168.1.5/desc.xml"]).
Proof.
  split_and!.
  - apply (proj1 (proj2 (proj2 (@invalid_location_never_fetched
                                  example_platform)))
             accepting_network "192.168.1.5/desc.xml" []); reflexivity.
  - apply (proj1 (proj2 (@invalid_location_never_fetched example_platform))
             accepting_network "ftp://192.168.1.5/desc.xml"
             [getRequest "http://192.168.1.5/desc.xml"]).
    by vm_compute.
  - eexists.
    rewrite (proj1 (proj2 (proj2 (proj2 (@invalid_location_never_fetched
                                           example_platform))))
               accepting_network "http://192.168.1.5/desc.xml" [])
      by (by vm_compute).
    by vm_compute.
Defined.

Local Ltac refute_resolution :=
  split;
  [ by intros [? [=]]
  | intros (? & ? & ? & ? & ? & ? & ? & ? & ? & ? & ? & ? & ? & ? & ? & ? & ?
            & ?);
    simplify_eq; congruence ].

(** X2.  A description is resolved to a descriptor exactly when the
    location is a valid [http] or [https] URL, the fetch answers with a 2xx
    status and a readable body, the body parses, the parsed document has a
    device node with an AVTransport service under its [serviceList], and the
    [friendlyName], [deviceType] and [manufacturer] of the device are text or
    absent.  Every other case yields [null]. *)
Theorem resolution_characterised `{Platform} :
  forall (location : string) (net : fetch_outcome),
    is_Some (parseDeviceDescription location net) <->
    isValidHttpUrl location = true
    /\ exists res xml result device serviceList av,
        net = Normal res /\ ok res = true /\ text res = Normal xml
        /\ discoverer_parseString xml = Normal result
        /\ root_device result = Normal device /\ truthy device = true
        /\ get_prop device "serviceList" = Normal serviceList
        /\ findAVTransportService serviceList = Normal (Some av)
        /\ text_or_absent (property device "friendlyName") = true
        /\ text_or_absent (property device "deviceType") = true
        /\ text_or_absent (property device "manufacturer") = true.
Proof.
  intros location net.
  unfold parseDeviceDescription, try_catch.
  destruct (isValidHttpUrl location) eqn:Hvalid; cbn [negb]; [|refute_resolution].
  destruct net as [res|e]; cbn [mbind completion_bind]; [|refute_resolution].
  destruct (ok res) eqn:Hok; cbn [negb]; [|refute_resolution].
  destruct (text res) as [xml|e] eqn:Htext; cbn [mbind completion_bind];
    [|refute_resolution].
  destruct (discoverer_parseString xml) as [result|e] eqn:Hparse;
    cbn [mbind completion_bind]; [|refute_resolution].
  destruct (root_device result) as [device|e] eqn:Hdevice;
    cbn [mbind completion_bind]; [|refute_resolution].
  destruct (truthy device) eqn:Htruthy; cbn [negb]; [|refute_resolution].
  pose proof (get_prop_truthy device "serviceList" Htruthy) as Hlist.
  rewrite !(get_prop_truthy device) by done. cbn [mbind completion_bind].
  destruct (findAVTransportService (property device "serviceList"))
    as [[av|]|e] eqn:Hfind; cbn [mbind completion_bind];
    [|refute_resolution..].
  apply isValidHttpUrl_parsed in Hvalid as (url & -> & _).
  cbn [mbind completion_bind].
  destruct (text_or_absent (property device "friendlyName")) eqn:Hfn.
  2:{ destruct (trimmed_or_throws _ "device.friendlyName" "Unnamed Device" Hfn)
        as [e ->]. refute_resolution. }
  destruct (trimmed_or_text _ "device.friendlyName" "Unnamed Device" Hfn)
    as (nm & -> & _). cbn [mbind completion_bind].
  destruct (text_or_absent (property device "deviceType")) eqn:Hdt.
  2:{ destruct (parseDeviceType_throws _ Hdt) as [e ->]. refute_resolution. }
  destruct (parseDeviceType_text _ Hdt) as [ty ->]. cbn [mbind completion_bind].
  destruct (text_or_absent (property device "manufacturer")) eqn:Hmf.
  2:{ destruct (trimmed_or_throws _ "device.manufacturer" "Unknown Manufacturer"
                  Hmf) as [e ->]. refute_resolution. }
  destruct (trimmed_or_text _ "device.manufacturer" "Unknown Manufacturer" Hmf)
    as (mn & -> & _). cbn [mbind completion_bind].
  split; [intros _|by eexists].
  split; [done|].
  by exists res, xml, result, device, (property device "serviceList"), av.
Qed.

(** ** The life of a scan *)

Section ScanLife.

Context `{Platform}.

Local Ltac callback :=
  cbv [run_callback on_error on_listening on_timeout on_message_received
       on_message_resumed cleanup socket_close socket_send resolve modify
       inspect lift mbind mret action_bind action_ret];
  simpl.

(** The socket of a scan never changes, and the active set only shrinks. *)
Lemma deliver_frame (st : scan) (ev : event) :
  socket (deliver st ev) = socket st
  /\ activeSockets (deliver st ev) ⊆ activeSockets st.
Proof.
  destruct ev as [err|sb am1 am2 mx|msg address|task net|]; simpl.
  - destruct (closed st) eqn:E; [done|]. callback. rewrite E. simpl.
    destruct (resolved st); simpl;
      (split; [done|by apply subseteq_difference_l]).
  - destruct (closed st || listening st); [done|].
    by destruct sb as [[]|], am1 as [[]|], am2 as [[]|].
  - destruct (on_message st && negb (closed st)); [|done]. callback.
    destruct (parse_headers msg !! "location") as [location|]; [|done].
    simpl. by destruct (map_has location (devices st)).
  - destruct (awaiting st !! task) as [[location address]|]; [|done].
    callback. by destruct (parseDeviceDescription location net).
  - destruct (timer st); [|done]. callback.
    destruct (closed st); simpl; [done|].
    destruct (resolved st); simpl;
      (split; [done|by apply subseteq_difference_l]).
Qed.

(** Once the socket is closed, no event settles the promise, reopens the
    socket or touches the active set. *)
Lemma deliver_closed (st : scan) (ev : event) :
  closed st = true ->
  closed (deliver st ev) = true
  /\ resolved (deliver st ev) = resolved st
  /\ activeSockets (deliver st ev) = activeSockets st.
Proof.
  intros C.
  destruct ev as [err|sb am1 am2 mx|msg address|task net|]; simpl.
  - by rewrite C.
  - by rewrite C.
  - by rewrite C, andb_false_r.
  - destruct (awaiting st !! task) as [[location address]|]; [|done].
    callback. by destruct (parseDeviceDescription location net).
  - destruct (timer st); [|done]. callback. by rewrite C.
Qed.

Lemma run_closed (st : scan) (evs : list event) :
  closed st = true ->
  closed (run st evs) = true
  /\ resolved (run st evs) = resolved st
  /\ activeSockets (run st evs) = activeSockets st.
Proof.
  revert st. induction evs as [|ev evs IH]; intros st C; [done|].
  simpl. destruct (deliver_closed st ev C) as (C' & R' & A').
  destruct (IH _ C') as (? & ? & ?). split_and!; congruence.
Qed.

(** A settled promise means the socket has left the active set. *)
Lemma released_deliver (st : scan) (ev : event) :
  (resolved st <> None -> socket st ∉ activeSockets st) ->
  resolved (deliver st ev) <> None ->
  socket (deliver st ev) ∉ activeSockets (deliver st ev).
Proof.
  intros Hinv.
  destruct ev as [err|sb am1 am2 mx|msg address|task net|]; simpl.
  - destruct (closed st) eqn:E; [done|]. callback. rewrite E. simpl.
    destruct (resolved st); simpl; intros _;
      rewrite not_elem_of_difference; right; by apply elem_of_singleton.
  - destruct (closed st || listening st); [done|].
    by destruct sb as [[]|], am1 as [[]|], am2 as [[]|].
  - destruct (on_message st && negb (closed st)); [|done]. callback.
    destruct (parse_headers msg !! "location") as [location|]; [|done].
    simpl. by destruct (map_has location (devices st)).
  - destruct (awaiting st !! task) as [[location address]|]; [|done].
    callback. by destruct (parseDeviceDescription location net).
  - destruct (timer st); [|done]. callback.
    destruct (closed st); simpl; [done|].
    destruct (resolved st); simpl; intros _;
      rewrite not_elem_of_difference; right; by apply elem_of_singleton.
Qed.

Lemma released_run (st : scan) (evs : list event) :
  (resolved st <> None -> socket st ∉ activeSockets st) ->
  resolved (run st evs) <> None ->
  socket (run st evs) ∉ activeSockets (run st evs).
Proof.
  revert st. induction evs as [|ev evs IH]; intros st Hinv; [done|].
  simpl. apply IH. by apply released_deliver.
Qed.

Lemma run_socket (st : scan) (evs : list event) :
  socket (run st evs) = socket st.
Proof.
  revert st. induction evs as [|ev evs IH]; intros st; [done|].
  simpl. rewrite IH. apply deliver_frame.
Qed.

Lemma run_cons (st : scan) (ev : event) (evs : list event) :
  run st (ev :: evs) = run (deliver st ev) evs.
Proof. done. Qed.

Lemma run_app (st : scan) (evs1 evs2 : list event) :
  run st (evs1 ++ evs2) = run (run st evs1) evs2.
Proof. apply fold_left_app. Qed.

(** Without a failing set-up call no callback throws, as long as the timer
    is only pending on an open socket. *)
Lemma deliver_uncaught (st : scan) (ev : event) :
  scan_running st -> setup_ok ev = true ->
  uncaught (deliver st ev) = uncaught st.
Proof.
  intros [Htimer Hclosed] Hok.
  destruct ev as [err|sb am1 am2 mx|msg address|task net|]; simpl.
  - destruct (closed st) eqn:E; [done|]. callback. rewrite E. simpl.
    by destruct (resolved st).
  - destruct (closed st || listening st); [done|].
    by destruct sb as [[]|], am1 as [[]|], am2 as [[]|].
  - destruct (on_message st && negb (closed st)); [|done]. callback.
    destruct (parse_headers msg !! "location") as [location|]; [|done].
    simpl. by destruct (map_has location (devices st)).
  - destruct (awaiting st !! task) as [[location address]|]; [|done].
    callback. by destruct (parseDeviceDescription location net).
  - destruct (timer st) eqn:T; [|done]. callback.
    rewrite Htimer by done. simpl. by destruct (resolved st).
Qed.

Lemma run_uncaught (st : scan) (evs : list event) :
  scan_running st -> forallb setup_ok evs = true ->
  uncaught (run st evs) = uncaught st.
Proof.
  revert st. induction evs as [|ev evs IH]; intros st Hrun Hok; [done|].
  cbn [forallb] in Hok. apply andb_true_iff in Hok as [Hev Hok].
  simpl. rewrite IH; [|by apply scan_running_deliver|done].
  by apply deliver_uncaught.
Qed.

(** The search goes out when the socket starts listening, and only then. *)
Lemma deliver_sent (st : scan) (ev : event) :
  (listening st = false -> sent st = []) ->
  (listening (deliver st ev) = false -> sent (deliver st ev) = [])
  /\ (sent (deliver st ev) = sent st
      \/ sent st = []
         /\ exists mx, sent (deliver st ev) = search_datagrams mx).
Proof.
  intros Hinv.
  assert (Hsame : (listening st = false -> sent st = [])
                  /\ (sent st = sent st
                      \/ sent st = []
                         /\ exists mx, sent st = search_datagrams mx))
    by (split; [exact Hinv|by left]).
  destruct ev as [err|sb am1 am2 mx|msg address|task net|]; simpl.
  - destruct (closed st) eqn:E; [exact Hsame|]. callback. rewrite E. simpl.
    destruct (resolved st); exact Hsame.
  - destruct (closed st) eqn:E; simpl; [exact Hsame|].
    destruct (listening st) eqn:L; [split; [by rewrite L|by left]|].
    destruct sb as [[]|], am1 as [[]|], am2 as [[]|]; callback;
      (split; [done|]); try (by left).
    right. rewrite Hinv by done. split; [done|]. by exists mx.
  - destruct (on_message st && negb (closed st)); [|exact Hsame]. callback.
    destruct (parse_headers msg !! "location") as [location|]; [|exact Hsame].
    simpl. destruct (map_has location (devices st)); exact Hsame.
  - destruct (awaiting st !! task) as [[location address]|]; [|exact Hsame].
    callback. destruct (parseDeviceDescription location net); exact Hsame.
  - destruct (timer st); [|exact Hsame]. callback.
    destruct (closed st); simpl; [exact Hsame|].
    destruct (resolved st); exact Hsame.
Qed.

(** Once the socket listens, or is closed, nothing more is sent, and the
    socket stays that way. *)
Lemma deliver_sent_fixed (st : scan) (ev : event) :
  closed st = true \/ listening st = true ->
  sent (deliver st ev) = sent st
  /\ (closed (deliver st ev) = true \/ listening (deliver st ev) = true).
Proof.
  intros Hfix.
  assert (Hsame : sent st = sent st
                  /\ (closed st = true \/ listening st = true)) by done.
  destruct ev as [err|sb am1 am2 mx|msg address|task net|]; simpl.
  - destruct (closed st) eqn:E; [by rewrite E|]. callback. rewrite E. simpl.
    destruct (resolved st); simpl; (split; [done|by left]).
  - replace (closed st || listening st) with true; [done|].
    symmetry. apply orb_true_iff. by destruct Hfix; [left|right].
  - destruct (on_message st && negb (closed st)); [|done]. callback.
    destruct (parse_headers msg !! "location") as [location|]; [|done].
    simpl. by destruct (map_has location (devices st)).
  - destruct (awaiting st !! task) as [[location address]|]; [|done].
    callback. by destruct (parseDeviceDescription location net).
  - destruct (timer st); [|done]. callback.
    destruct (closed st) eqn:E; simpl; [split; [done|by left]|].
    destruct (resolved st); simpl; (split; [done|by left]).
Qed.

Lemma run_sent_fixed (st : scan) (evs : list event) :
  closed st = true \/ listening st = true ->
  sent (run st evs) = sent st.
Proof.
  revert st. induction evs as [|ev evs IH]; intros st Hfix; [done|].
  rewrite run_cons. destruct (deliver_sent_fixed st ev Hfix) as [Hsent Hfix'].
  by rewrite IH.
Qed.

(** What a scan has sent can be read off the events. *)
Lemma run_searched (active : gset nat) (sock : nat) (evs : list event) :
  sent (run (discover_start active sock) evs) = searched evs.
Proof.
  induction evs as [|ev evs IH]; [done|].
  rewrite run_cons.
  destruct ev as [err|sb am1 am2 mx|msg address|task net|]; try exact IH.
  - by rewrite run_sent_fixed by (by left).
  - rewrite run_sent_fixed.
    + by destruct sb as [[]|], am1 as [[]|], am2 as [[]|].
    + right. by destruct sb as [[]|], am1 as [[]|], am2 as [[]|].
Qed.

(** Datagrams are listened for only after the search went out. *)
Lemma deliver_receiving (st : scan) (ev : event) :
  (listening st = false -> sent st = [] /\ on_message st = false) ->
  (on_message st = true -> exists mx, sent st = search_datagrams mx) ->
  (listening (deliver st ev) = false ->
   sent (deliver st ev) = [] /\ on_message (deliver st ev) = false)
  /\ (on_message (deliver st ev) = true ->
      exists mx, sent (deliver st ev) = search_datagrams mx).
Proof.
  intros Hquiet Hsearch.
  destruct ev as [err|sb am1 am2 mx|msg address|task net|]; simpl.
  - destruct (closed st) eqn:E; [done|]. callback. rewrite E. simpl.
    by destruct (resolved st).
  - destruct (closed st) eqn:E; simpl; [done|].
    destruct (listening st) eqn:L; [by rewrite L|].
    destruct (Hquiet eq_refl) as [Hsent Hoff].
    destruct sb as [[]|], am1 as [[]|], am2 as [[]|]; callback;
      rewrite ?Hsent, ?Hoff; (split; [done|]); try done.
    intros _. by exists mx.
  - destruct (on_message st && negb (closed st)); [|done]. callback.
    destruct (parse_headers msg !! "location") as [location|]; [|done].
    simpl. by destruct (map_has location (devices st)).
  - destruct (awaiting st !! task) as [[location address]|]; [|done].
    callback. by destruct (parseDeviceDescription location net).
  - destruct (timer st); [|done]. callback.
    destruct (closed st); simpl; [done|].
    by destruct (resolved st).
Qed.

Lemma run_receiving (st : scan) (evs : list event) :
  (listening st = false -> sent st = [] /\ on_message st = false) ->
  (on_message st = true -> exists mx, sent st = search_datagrams mx) ->
  (listening (run st evs) = false ->
   sent (run st evs) = [] /\ on_message (run st evs) = false)
  /\ (on_message (run st evs) = true ->
      exists mx, sent (run st evs) = search_datagrams mx).
Proof.
  revert st. induction evs as [|ev evs IH]; intros st Hquiet Hsearch; [done|].
  rewrite run_cons. destruct (deliver_receiving st ev Hquiet Hsearch).
  by apply IH.
Qed.

End ScanLife.

Section Provenance.

Context `{Platform}.

Local Ltac callback :=
  cbv [run_callback on_error on_listening on_timeout on_message_received
       on_message_resumed cleanup socket_close socket_send resolve modify
       inspect lift mbind mret action_bind action_ret];
  simpl.

Lemma deliver_awaiting (st : scan) (ev : event) :
  awaiting (deliver st ev)
  = match ev with
    | EvMessage msg address =>
        if on_message st && negb (closed st)
        then match parse_headers msg !! "location" with
             | Some location =>
                 if map_has location (devices st) then awaiting st
                 else awaiting st ++ [(location, address)]
             | None => awaiting st
             end
        else awaiting st
    | EvFetched task _ =>
        match awaiting st !! task with
        | Some _ => delete task (awaiting st)
        | None => awaiting st
        end
    | _ => awaiting st
    end.
Proof.
  destruct ev as [err|sb am1 am2 mx|msg address|task net|]; simpl.
  - destruct (closed st) eqn:E; [done|]. callback. rewrite E. simpl.
    by destruct (resolved st).
  - destruct (closed st || listening st); [done|].
    by destruct sb as [[]|], am1 as [[]|], am2 as [[]|].
  - destruct (on_message st && negb (closed st)); [|done]. callback.
    destruct (parse_headers msg !! "location") as [location|]; [|done].
    simpl. by destruct (map_has location (devices st)).
  - destruct (awaiting st !! task) as [[location address]|]; [|done].
    callback. by destruct (parseDeviceDescription location net).
  - destruct (timer st); [|done]. callback.
    destruct (closed st); simpl; [done|]. by destruct (resolved st).
Qed.

Lemma announced_app (evs1 evs2 : list event) (location address : string) :
  announced (evs1 ++ evs2) location address
  = announced evs1 location address || announced evs2 location address.
Proof. apply existsb_app. Qed.

Lemma announced_more (evs more : list event) (location address : string) :
  announced evs location address = true ->
  announced (evs ++ more) location address = true.
Proof. intros Ha. by rewrite announced_app, Ha. Qed.

Lemma well_sourced_more (evs more : list event) (d : descriptor) :
  well_sourced evs d -> well_sourced (evs ++ more) d.
Proof.
  intros (? & ? & ? & ?). split_and!; try done. by apply announced_more.
Qed.

Lemma trimmed_or_nonempty (v : jsval) (what fallback t : string) :
  trimmed_or v what fallback = Normal t ->
  fallback <> EmptyString -> t <> EmptyString.
Proof.
  destruct v as [| |s| |]; cbn [trimmed_or]; try done;
    intros [= <-] Hne; try done.
  by case_bool_decide.
Qed.

Lemma descriptor_texts (location : string) (net : fetch_outcome)
    (d : descriptor) :
  parseDeviceDescription location net = Some d ->
  name d <> EmptyString /\ manufacturer d <> EmptyString.
Proof.
  unfold parseDeviceDescription, try_catch.
  destruct (isValidHttpUrl location); cbn [negb]; [|done].
  destruct net as [res|e]; cbn [mbind completion_bind]; [|done].
  destruct (ok res); cbn [negb]; [|done].
  destruct (text res) as [xml|e]; cbn [mbind completion_bind]; [|done].
  destruct (discoverer_parseString xml) as [result|e];
    cbn [mbind completion_bind]; [|done].
  destruct (root_device result) as [device|e];
    cbn [mbind completion_bind]; [|done].
  destruct (truthy device); cbn [negb]; [|done].
  destruct (get_prop device "serviceList") as [serviceList|e];
    cbn [mbind completion_bind]; [|done].
  destruct (findAVTransportService serviceList) as [[av|]|e];
    cbn [mbind completion_bind]; [|done|done].
  destruct (URL_new location None) as [url|e];
    cbn [mbind completion_bind]; [|done].
  destruct (get_prop device "friendlyName") as [fn|e];
    cbn [mbind completion_bind]; [|done].
  destruct (trimmed_or fn _ _) as [nm|e] eqn:Hname;
    cbn [mbind completion_bind]; [|done].
  destruct (get_prop device "deviceType") as [dt|e];
    cbn [mbind completion_bind]; [|done].
  destruct (parseDeviceType dt) as [ty|e]; cbn [mbind completion_bind];
    [|done].
  destruct (get_prop device "manufacturer") as [mf|e];
    cbn [mbind completion_bind]; [|done].
  destruct (trimmed_or mf _ _) as [mn|e] eqn:Hmanufacturer;
    cbn [mbind completion_bind]; [|done].
  intros [= <-]. simpl. split.
  - by apply (trimmed_or_nonempty _ _ _ _ Hname).
  - by apply (trimmed_or_nonempty _ _ _ _ Hmanufacturer).
Qed.

(** What holds of a scan after the events [seen]. *)
Lemma sourced_deliver (st : scan) (seen : list event) (ev : event) :
  Forall (fun la => announced seen la.1 la.2 = true) (awaiting st) ->
  Forall (fun kd => well_sourced seen kd.2) (devices st) ->
  (forall r, resolved st = Some r -> Forall (well_sourced seen) r) ->
  Forall (fun la => announced (seen ++ [ev]) la.1 la.2 = true)
    (awaiting (deliver st ev))
  /\ Forall (fun kd => well_sourced (seen ++ [ev]) kd.2) (devices (deliver st ev))
  /\ (forall r, resolved (deliver st ev) = Some r ->
                Forall (well_sourced (seen ++ [ev])) r).
Proof.
  intros Ha Hd Hr.
  assert (Ha' : Forall (fun la => announced (seen ++ [ev]) la.1 la.2 = true)
                  (awaiting st)).
  { eapply Forall_impl; [exact Ha|]. intros la. apply announced_more. }
  assert (Hd' : Forall (fun kd => well_sourced (seen ++ [ev]) kd.2) (devices st)).
  { eapply Forall_impl; [exact Hd|]. intros kd. apply well_sourced_more. }
  split_and!.
  - rewrite deliver_awaiting.
    destruct ev as [err|sb am1 am2 mx|msg address|task net|]; try done.
    + destruct (on_message st && negb (closed st)); [|done].
      destruct (parse_headers msg !! "location") as [location|] eqn:Hloc;
        [|done].
      destruct (map_has location (devices st)); [done|].
      apply Forall_app. split; [done|]. apply Forall_singleton. simpl.
      rewrite announced_app. apply orb_true_iff. right. simpl.
      by rewrite Hloc, !bool_decide_eq_true_2.
    + destruct (awaiting st !! task); [|done]. by apply Forall_delete.
  - rewrite deliver_devices.
    destruct ev as [err|sb am1 am2 mx|msg address|task net|]; try done.
    destruct (awaiting st !! task) as [[location address]|] eqn:Htask; [|done].
    destruct (parseDeviceDescription location net) as [d|] eqn:Hparse; [|done].
    apply map_set_Forall; [|done]. simpl.
    destruct (parseDeviceDescription_Some _ _ _ Hparse)
      as (Hvalid & ? & ? & ? & ? & ? & ? & ? & _ & _ & _ & _ & _ & _ & _ & _
          & _ & _ & Horiginal & _ & _).
    destruct (descriptor_texts _ _ _ Hparse) as [Hname Hmanufacturer].
    unfold well_sourced. simpl. rewrite Horiginal. split_and!; try done.
    apply announced_more.
    by apply (Forall_lookup_1 _ _ _ _ Ha Htask).
  - intros r Hres.
    destruct (deliver_resolved st ev) as [Hsame|[_ [Hempty|Hvalues]]].
    + rewrite Hsame in Hres. eapply Forall_impl; [by apply Hr|].
      intros d. apply well_sourced_more.
    + rewrite Hempty in Hres. by injection Hres as <-.
    + rewrite Hvalues in Hres. injection Hres as <-.
      unfold map_values. by apply Forall_fmap.
Qed.

Lemma sourced_run (st : scan) (seen evs : list event) :
  Forall (fun la => announced seen la.1 la.2 = true) (awaiting st) ->
  Forall (fun kd => well_sourced seen kd.2) (devices st) ->
  (forall r, resolved st = Some r -> Forall (well_sourced seen) r) ->
  forall r, resolved (run st evs) = Some r ->
            Forall (well_sourced (seen ++ evs)) r.
Proof.
  revert st seen. induction evs as [|ev evs IH]; intros st seen Ha Hd Hr.
  - rewrite app_nil_r. exact Hr.
  - destruct (sourced_deliver st seen ev Ha Hd Hr) as (Ha' & Hd' & Hr').
    simpl. replace (seen ++ ev :: evs) with ((seen ++ [ev]) ++ evs)
      by (by rewrite <- List.app_assoc).
    by apply IH.
Qed.

(** A burst of datagrams that name a location not yet in the map. *)
Lemma deliver_unresolved_location (st : scan) (msg address location : string) :
  on_message st = true -> closed st = false ->
  parse_headers msg !! "location" = Some location ->
  map_has location (devices st) = false ->
  deliver st (EvMessage msg address)
  = set_awaiting (awaiting st ++ [(location, address)]) st.
Proof.
  intros M C Hloc Hhas. simpl. rewrite M, C. simpl. callback.
  rewrite Hloc. simpl. by rewrite Hhas.
Qed.

Lemma deliver_resolved_location (st : scan) (msg address location : string) :
  parse_headers msg !! "location" = Some location ->
  map_has location (devices st) = true ->
  deliver st (EvMessage msg address) = st.
Proof.
  intros Hloc Hhas. simpl.
  destruct (on_message st && negb (closed st)); [|done]. callback.
  rewrite Hloc. simpl. rewrite Hhas. by destruct st.
Qed.

End Provenance.

(** X3.  Every descriptor in the list a scan answers was resolved from a
    location that passes [isValidHttpUrl], carries as [ip] the sender address
    of a datagram of this scan whose [location] header is that location, and
    has a non-empty name and manufacturer. *)
Theorem result_entries_well_sourced `{Platform} :
  forall (active : gset nat) (sock : nat) (evs : list event)
         (r : list descriptor) (d : descriptor),
    resolved (run (discover_start active sock) evs) = Some r ->
    d ∈ r ->
    well_sourced evs d.
Proof.
  intros active sock evs r d Hres Hd.
  assert (Hall : Forall (well_sourced ([] ++ evs)) r).
  { apply (sourced_run (discover_start active sock) [] evs);
      [constructor|constructor|done|done]. }
  by apply (proj1 (Forall_forall _ _) Hall).
Qed.

Lemma result_entries_well_sourced_witness :
  @well_sourced example_platform (example_two_renderers ++ [EvTimeout])
    (mkDescriptor "Living Room TV" "MediaRenderer" "Unknown Manufacturer"
       (Some "http://192.168.1.6:8080/upnp/control/AVTransport")
       "192.168.1.6" "http://192.168.1.6:8080/desc.xml" "8080").
Proof.
  apply (@result_entries_well_sourced example_platform ∅ 7%nat
           (example_two_renderers ++ [EvTimeout])
           [ mkDescriptor "Living Room TV" "MediaRenderer" "Unknown Manufacturer"
               (Some "http://192.168.1.5/upnp/control/AVTransport")
               "192.168.1.5" "http://192.168.1.5/desc.xml" "";
             mkDescriptor "Living Room TV" "MediaRenderer" "Unknown Manufacturer"
               (Some "http://192.168.1.6:8080/upnp/control/AVTransport")
               "192.168.1.6" "http://192.168.1.6:8080/desc.xml" "8080" ]).
  - by vm_compute.
  - apply elem_of_cons. right. apply elem_of_cons. by left.
Defined.

(** X4.  Once a scan has answered, its socket is closed, its timer is
    cleared and the socket has left the set of active sockets; from then on
    no event changes the answer, reopens the socket or touches the set.
    Descriptions that finish resolving later are not in the answer. *)
Theorem settled_scan_is_released `{Platform} :
  forall (active : gset nat) (sock : nat) (evs : list event)
         (r : list descriptor),
    let st := run (discover_start active sock) evs in
    resolved st = Some r ->
    closed st = true /\ timer st = false /\ (sock ∉ activeSockets st)
    /\ forall more : list event,
        resolved (run st more) = Some r
        /\ closed (run st more) = true
        /\ activeSockets (run st more) = activeSockets st.
Proof.
  intros active sock evs r st Hres.
  destruct (scan_inv_start active sock) as [Hinv0 Hrun0].
  destruct (run_invariants _ evs Hinv0 Hrun0) as [_ [Htimer Hclosed]].
  fold st in Htimer, Hclosed.
  assert (C : closed st = true).
  { destruct (closed st); [done|]. rewrite Hclosed in Hres; done. }
  split_and!.
  - exact C.
  - destruct (timer st); [|done]. rewrite Htimer in C; done.
  - assert (Hrel : socket st ∉ activeSockets st).
    { apply released_run; [done|]. fold st. by rewrite Hres. }
    unfold st in Hrel at 1. by rewrite run_socket in Hrel.
  - intros more. destruct (run_closed st more C) as (? & Hsame & ?).
    split_and!; try done. by rewrite Hsame.
Qed.

Lemma settled_scan_is_released_witness :
  let st := @run example_platform (discover_start ∅ 7)
              [ EvListening joined joined joined 2;
                EvMessage (example_datagram "http://192.168.1.5/desc.xml")
                  "192.168.1.5";
                EvTimeout ] in
  closed st = true /\ timer st = false /\ (7%nat ∉ activeSockets st)
  /\ forall more : list event,
      resolved (@run example_platform st more) = Some []
      /\ closed (@run example_platform st more) = true
      /\ activeSockets (@run example_platform st more) = activeSockets st.
Proof.
  apply (@settled_scan_is_released example_platform ∅ 7%nat
           [ EvListening joined joined joined 2;
             EvMessage (example_datagram "http://192.168.1.5/desc.xml")
               "192.168.1.5";
             EvTimeout ] []).
  by vm_compute.
Defined.

(** X5.  A socket error that reaches a scan whose socket is still open ends
    the scan with the empty list, whatever the devices found so far; the
    socket is closed and leaves the active set, the timer is cleared and no
    exception escapes. *)
Theorem socket_error_discards_devices `{Platform} :
  forall (active : gset nat) (sock : nat) (evs : list event) (err : exn),
    let st := run (discover_start active sock) evs in
    closed st = false ->
    let st' := deliver st (EvError err) in
    resolved st' = Some [] /\ devices st' = devices st
    /\ closed st' = true /\ timer st' = false
    /\ (sock ∉ activeSockets st') /\ uncaught st' = uncaught st.
Proof.
  intros active sock evs err st C st'.
  destruct (scan_inv_start active sock) as [Hinv0 Hrun0].
  destruct (run_invariants _ evs Hinv0 Hrun0) as [_ [_ Hclosed]].
  fold st in Hclosed. specialize (Hclosed C).
  assert (Hsock : socket st = sock) by apply run_socket.
  unfold st'. simpl. rewrite C.
  cbv [run_callback on_error cleanup socket_close resolve modify mbind
       action_bind]. simpl. rewrite C. simpl. rewrite Hclosed. simpl.
  split_and!; try done.
  rewrite Hsock, not_elem_of_difference. right. by apply elem_of_singleton.
Qed.

Lemma socket_error_discards_devices_witness :
  let st := @run example_platform (discover_start ∅ 7) example_two_renderers in
  let st' := @deliver example_platform st (EvError (Error "EHOSTUNREACH")) in
  length (devices st) = 2%nat
  /\ resolved st' = Some [] /\ devices st' = devices st
  /\ closed st' = true /\ timer st' = false
  /\ (7%nat ∉ activeSockets st') /\ uncaught st' = uncaught st.
Proof.
  split; [reflexivity|].
  apply (@socket_error_discards_devices example_platform ∅ 7%nat
           example_two_renderers (Error "EHOSTUNREACH")).
  reflexivity.
Defined.

(** X6.  The only exceptions that escape a callback of a scan come from the
    set-up calls in the [bind] callback: when [setBroadcast] and the two
    [addMembership] calls succeed, no callback of the scan throws, in any
    order of errors, datagrams, resolutions and timeouts. *)
Theorem callbacks_throw_only_at_setup `{Platform} :
  forall (active : gset nat) (sock : nat) (evs : list event),
    forallb setup_ok evs = true ->
    uncaught (run (discover_start active sock) evs) = [].
Proof.
  intros active sock evs Hok.
  destruct (scan_inv_start active sock) as [_ Hrun0].
  by rewrite run_uncaught.
Qed.

Lemma callbacks_throw_only_at_setup_witness :
  uncaught
    (@run example_platform (discover_start ∅ 7)
       (example_two_renderers
        ++ [EvTimeout; EvError (Error "EBADF"); EvTimeout;
            EvListening joined joined joined 1]))
  = [].
Proof.
  apply (@callbacks_throw_only_at_setup example_platform ∅ 7%nat
           (example_two_renderers
            ++ [EvTimeout; EvError (Error "EBADF"); EvTimeout;
                EvListening joined joined joined 1])).
  reflexivity.
Defined.

(** X7.  What a scan has sent is decided by the first [error] or
    [listening] event: when the socket starts listening and the three set-up
    calls succeed, exactly two datagrams with the same text go out, one to
    the multicast group and one to the broadcast address, and whatever
    events follow nothing more is sent; when a set-up call fails, or an
    error comes first, nothing is ever sent.  Datagrams are listened for
    only after the search went out. *)
Theorem search_sent_once `{Platform} :
  (forall (active : gset nat) (sock : nat) (evs : list event),
      sent (run (discover_start active sock) evs) = searched evs)
  /\ (forall (active : gset nat) (sock : nat) (mx : N) (evs : list event),
         sent (run (discover_start active sock)
                 (EvListening (Normal tt) (Normal tt) (Normal tt) mx :: evs))
         = [ (searchMsg mx, "239.255.255.250");
             (searchMsg mx, "255.255.255.255") ])
  /\ (forall (active : gset nat) (sock : nat)
             (sb am1 am2 : completion unit) (e : exn) (mx : N)
             (evs : list event),
         sb = Throw e \/ am1 = Throw e \/ am2 = Throw e ->
         sent (run (discover_start active sock)
                 (EvListening sb am1 am2 mx :: evs)) = [])
  /\ (forall (active : gset nat) (sock : nat) (err : exn) (evs : list event),
         sent (run (discover_start active sock) (EvError err :: evs)) = [])
  /\ (forall (st : scan) (evs : list event),
         closed st = true \/ listening st = true ->
         sent (run st evs) = sent st)
  /\ (forall (active : gset nat) (sock : nat) (evs : list event),
         let st := run (discover_start active sock) evs in
         (listening st = false -> sent st = [])
         /\ (sent st = [] \/ exists mx : N, sent st = search_datagrams mx)
         /\ (on_message st = true ->
             exists mx : N, sent st = search_datagrams mx)).
Proof.
  split_and!.
  - apply run_searched.
  - intros active sock mx evs. by rewrite run_searched.
  - intros active sock sb am1 am2 e mx evs Hfail. rewrite run_searched.
    destruct sb as [[]|], am1 as [[]|], am2 as [[]|]; try done;
      by destruct Hfail as [|[|]].
  - intros active sock err evs. by rewrite run_searched.
  - apply run_sent_fixed.
  - intros active sock evs st.
    destruct (run_receiving (discover_start active sock) evs)
      as [Hquiet Hsearch]; [done|done|].
    fold st in Hquiet, Hsearch. split_and!.
    + intros L. by destruct (Hquiet L).
    + subst st. rewrite run_searched. clear Hquiet Hsearch.
      induction evs as [|[err|[[]|] [[]|] [[]|] mx| | |] evs IH];
        simpl; try done; try (by left).
      right. by exists mx.
    + exact Hsearch.
Qed.

Lemma search_sent_once_witness :
  sent (@run example_platform (discover_start ∅ 7)
          (EvListening joined (Throw (Error "addMembership EADDRINUSE")) joined 2
           :: EvListening joined joined joined 3 :: example_two_renderers))
  = []
  /\ sent (@run example_platform
             (@run example_platform (discover_start ∅ 7) example_two_renderers)
             [EvListening joined joined joined 9; EvTimeout;
              EvListening joined joined joined 9])
     = sent (@run example_platform (discover_start ∅ 7) example_two_renderers)
  /\ sent (@run example_platform (discover_start ∅ 7) example_two_renderers)
     = [ (searchMsg 2, "239.255.255.250"); (searchMsg 2, "255.255.255.255") ].
Proof.
  split_and!.
  - apply (proj1 (proj2 (proj2 (@search_sent_once example_platform))) ∅ 7%nat
             joined (Throw (Error "addMembership EADDRINUSE")) joined
             (Error "addMembership EADDRINUSE") 2%N).
    right. by left.
  - apply (proj1 (proj2 (proj2 (proj2 (proj2 (@search_sent_once
                                                example_platform)))))).
    right. reflexivity.
  - apply (proj1 (proj2 (@search_sent_once example_platform)) ∅ 7%nat 2%N).
Defined.

(** X8.  Duplicate suppression looks at finished resolutions only.  While a
    location is not yet in the map, every datagram that names it starts a
    resolution of its own, so a burst of [k] datagrams leaves [k] resolutions
    pending; once the location is in the map, further datagrams naming it
    change nothing. *)
Theorem unresolved_location_fetched_per_datagram `{Platform} :
  forall (st : scan) (msg address location : string) (k : nat),
    parse_headers msg !! "location" = Some location ->
    (on_message st = true -> closed st = false ->
     map_has location (devices st) = false ->
     run st (replicate k (EvMessage msg address))
     = set_awaiting (awaiting st ++ replicate k (location, address)) st)
    /\ (map_has location (devices st) = true ->
        run st (replicate k (EvMessage msg address)) = st).
Proof.
  intros st msg address location k Hloc. split.
  - revert st. induction k as [|k IH]; intros st M C Hhas.
    + simpl. rewrite app_nil_r. by destruct st.
    + cbn [replicate].
      rewrite run_cons, (deliver_unresolved_location st msg address location)
        by done.
      rewrite IH by done. unfold set_awaiting. simpl.
      by rewrite <- List.app_assoc.
  - intros Hhas. induction k as [|k IH]; [done|].
    cbn [replicate].
    by rewrite run_cons, (deliver_resolved_location st msg address location).
Qed.

Lemma unresolved_location_fetched_per_datagram_witness :
  awaiting
    (@run example_platform
       (@run example_platform (discover_start ∅ 7)
          [EvListening joined joined joined 2])
       (replicate 3 (EvMessage (example_datagram "http://192.168.1.5/desc.xml")
                       "192.168.1.5")))
  = replicate 3 ("http://192.168.1.5/desc.xml", "192.168.1.5").
Proof.
  rewrite (proj1 (@unresolved_location_fetched_per_datagram example_platform
                    (@run example_platform (discover_start ∅ 7)
                       [EvListening joined joined joined 2])
                    (example_datagram "http://192.168.1.5/desc.xml")
                    "192.168.1.5" "http://192.168.1.5/desc.xml" 3%nat
                    ltac:(by vm_compute))
             ltac:(reflexivity) ltac:(reflexivity) ltac:(reflexivity)).
  reflexivity.
Defined.

(** ** [shutdown] and a scan in flight *)

Section ShutdownFacts.

Context `{Platform}.

Lemma shutdown_fields (st : scan) :
  activeSockets (shutdown st) = ∅
  /\ uncaught (shutdown st) = uncaught st
  /\ resolved (shutdown st) = resolved st
  /\ timer (shutdown st) = timer st
  /\ devices (shutdown st) = devices st
  /\ socket (shutdown st) = socket st
  /\ closed (shutdown st)
     = closed st || bool_decide (socket st ∈ activeSockets st).
Proof.
  unfold shutdown. case_bool_decide.
  - cbv [action_try removeAllListeners socket_close modify mbind action_bind
         mret action_ret]. simpl.
    destruct (closed st) eqn:C; simpl; rewrite ?C; by split_and!.
  - simpl. rewrite orb_false_r. by split_and!.
Qed.

(** An open socket of a scan is in the active set. *)
Lemma registered_deliver (st : scan) (ev : event) :
  (closed st = false -> socket st ∈ activeSockets st) ->
  closed (deliver st ev) = false ->
  socket (deliver st ev) ∈ activeSockets (deliver st ev).
Proof.
  intros Hinv.
  destruct (closed st) eqn:C.
  { destruct (deliver_closed st ev C) as (C' & _). by rewrite C'. }
  specialize (Hinv eq_refl).
  destruct ev as [err|sb am1 am2 mx|msg address|task net|]; simpl.
  - rewrite C.
    cbv [run_callback on_error cleanup socket_close resolve modify mbind
         action_bind]. simpl. rewrite C. simpl. by destruct (resolved st).
  - rewrite C. simpl. destruct (listening st); [done|].
    by destruct sb as [[]|], am1 as [[]|], am2 as [[]|].
  - destruct (on_message st && negb (closed st)); [|done].
    cbv [run_callback on_message_received modify inspect mbind mret
         action_bind action_ret].
    destruct (parse_headers msg !! "location") as [location|]; [|done].
    simpl. by destruct (map_has location (devices st)).
  - destruct (awaiting st !! task) as [[location address]|]; [|done].
    cbv [run_callback on_message_resumed modify mret action_ret].
    by destruct (parseDeviceDescription location net).
  - destruct (timer st); [|done].
    cbv [run_callback on_timeout cleanup socket_close resolve modify inspect
         mbind action_bind]. simpl. rewrite C. simpl. by destruct (resolved st).
Qed.

Lemma registered_run (st : scan) (evs : list event) :
  (closed st = false -> socket st ∈ activeSockets st) ->
  closed (run st evs) = false ->
  socket (run st evs) ∈ activeSockets (run st evs).
Proof.
  revert st. induction evs as [|ev evs IH]; intros st Hinv; [done|].
  simpl. apply IH. by apply registered_deliver.
Qed.

Lemma timeout_after_close (st : scan) :
  closed st = true -> timer st = true ->
  uncaught (deliver st EvTimeout) = uncaught st ++ [Error "Not running"].
Proof.
  intros C T. simpl. rewrite T.
  cbv [run_callback on_timeout cleanup socket_close resolve modify inspect
       mbind action_bind]. simpl. by rewrite C.
Qed.

End ShutdownFacts.

(** X9.  [shutdown] during a scan closes the scan's socket and empties the
    active set without throwing, also when the socket was closed before.  It
    does not settle the promise of the scan, and no later event does: a scan
    that had not answered never answers.  The timer of the scan is left
    pending, and when it fires its [cleanup] throws on the socket that is
    already closed. *)
Theorem shutdown_leaves_scan_pending `{Platform} :
  forall (active : gset nat) (sock : nat) (evs : list event),
    let st := run (discover_start active sock) evs in
    let st' := shutdown st in
    activeSockets st' = ∅ /\ closed st' = true
    /\ uncaught st' = uncaught st /\ resolved st' = resolved st
    /\ (forall more : list event, resolved (run st' more) = resolved st)
    /\ (timer st = true ->
        resolved st = None
        /\ uncaught (deliver st' EvTimeout)
           = uncaught st ++ [Error "Not running"]).
Proof.
  intros active sock evs st st'.
  destruct (shutdown_fields st) as (A & U & R & T & _ & _ & C).
  fold st' in A, U, R, T, C.
  assert (C' : closed st' = true).
  { rewrite C. destruct (closed st) eqn:E; [done|]. simpl.
    apply bool_decide_eq_true_2. apply registered_run; [|done].
    intros _. simpl. apply elem_of_union_r. by apply elem_of_singleton. }
  split_and!; try done.
  - intros more. destruct (run_closed st' more C') as (_ & -> & _). exact R.
  - intros Htimer.
    destruct (scan_inv_start active sock) as [Hinv0 Hrun0].
    destruct (run_invariants _ evs Hinv0 Hrun0) as [_ [Hopen Hpending]].
    fold st in Hopen, Hpending. split; [by auto|].
    rewrite timeout_after_close by congruence. by rewrite U.
Qed.

Lemma shutdown_leaves_scan_pending_witness :
  let st := @run example_platform (discover_start ∅ 7) example_two_renderers in
  let st' := shutdown st in
  length (devices st) = 2%nat
  /\ resolved st = None
  /\ (forall more : list event, resolved (@run example_platform st' more) = None)
  /\ uncaught (@deliver example_platform st' EvTimeout) = [Error "Not running"].
Proof.
  pose proof (@shutdown_leaves_scan_pending example_platform ∅ 7%nat
                example_two_renderers) as Hshutdown.
  cbv zeta in Hshutdown.
  destruct Hshutdown as (_ & _ & _ & _ & Hmore & Htimeout).
  destruct (Htimeout eq_refl) as [Hnone Hthrows].
  split_and!; [reflexivity|exact Hnone| |exact Hthrows].
  intros more. rewrite Hmore. exact Hnone.
Defined.

(** ** The older copy against the current program *)

Section LegacyFacts.

Context `{Platform}.
Import JsString.

Lemma findServices_preorder (location : string) (node : jsval) :
  LegacyResolver.findServices location node
  = flat_map (LegacyResolver.push_service location) (objects_preorder node).
Proof.
  induction node as [| |s|items IH|props IH] using jsval_nested_ind; try done.
  - cbn [LegacyResolver.findServices objects_preorder].
    induction IH as [|item items Hitem _ IHitems]; [done|].
    by rewrite flat_map_app, Hitem, IHitems.
  - cbn [LegacyResolver.findServices objects_preorder flat_map]. f_equal.
    induction IH as [|[k value] props Hvalue _ IHprops]; [done|].
    simpl in Hvalue. by rewrite flat_map_app, Hvalue, IHprops.
Qed.

Lemma find_AVTransport_decisive (location : string)
    (l : list (list (string * jsval))) :
  settled (LegacyResolver.find_AVTransport
             (flat_map (LegacyResolver.push_service location) l))
  = fmap (M:=option) (normalized location) <$> settled (outcome_of (List.find decisive l)).
Proof.
  induction l as [|props l IH]; [done|].
  cbn [flat_map List.find].
  unfold LegacyResolver.push_service at 1, decisive at 1, outcome_of at 1,
    is_AVTransport, plain_serviceType, normalized, service_of.
  destruct (assoc "serviceType" props) as [[| |st| |]|] eqn:Htype; simpl;
    rewrite ?Htype; try exact IH; try done.
  rewrite orb_false_r. case_bool_decide as Hempty; simpl.
  - subst st. exact IH.
  - destruct (startsWith st AVTransport_prefix) eqn:Hprefix; simpl.
    + by rewrite Htype, Hprefix.
    + exact IH.
Qed.

Lemma legacy_search (location : string) (node : jsval) :
  settled (LegacyResolver.find_AVTransport
             (LegacyResolver.findServices location node))
  = fmap (M:=option) (normalized location) <$> settled (findAVTransportService node).
Proof.
  rewrite findServices_preorder, find_AVTransport_decisive.
  by rewrite findAVTransportService_outcome.
Qed.

Lemma legacy_parseDeviceType_text (v : jsval) :
  text_or_absent v = true -> exists t, Legacy.parseDeviceType v = Normal t.
Proof.
  unfold Legacy.parseDeviceType, js_or.
  destruct v as [| |s| |]; try done; intros _; cbn [truthy mbind completion_bind];
    [by eexists|by eexists|].
  destruct (negb _); by eexists.
Qed.

Lemma legacy_parseDeviceType_throws (v : jsval) :
  text_or_absent v = false -> exists e, Legacy.parseDeviceType v = Throw e.
Proof. destruct v; try done; intros _; by eexists. Qed.

Lemma trimmed_or_fallbacks (v : jsval) (what f1 f2 t1 t2 : string) :
  trimmed_or v what f1 = Normal t1 -> trimmed_or v what f2 = Normal t2 ->
  t1 = t2 \/ t1 = f1 /\ t2 = f2.
Proof.
  destruct v as [| |s| |]; cbn [trimmed_or]; try done;
    intros [= <-] [= <-]; [by right|by right|].
  case_bool_decide; [by right|by left].
Qed.

End LegacyFacts.

Section TrimFacts.

Import JsString.

Lemma all_chars_strip (p : ascii -> bool) (back : bool) (s : string) :
  all_chars p s = true -> all_chars p (strip back s) = true.
Proof.
  remember (String.length s) as n eqn:Hn. revert s Hn.
  induction n as [n IH] using lt_wf_ind. intros s Hn Hall.
  destruct s as [|c1 s1]; [done|]. cbn [strip].
  pose proof Hall as Hall1. cbn [all_chars] in Hall1.
  apply andb_true_iff in Hall1 as [_ Hall1].
  destruct (is_ascii_ws c1).
  { apply (IH (String.length s1)); [simpl in Hn; lia|done|done]. }
  destruct s1 as [|c2 s2]; [done|].
  pose proof Hall1 as Hall2. cbn [all_chars] in Hall2.
  apply andb_true_iff in Hall2 as [_ Hall2].
  destruct (if back then is_ws2 c2 c1 else is_ws2 c1 c2).
  { apply (IH (String.length s2)); [simpl in Hn; lia|done|done]. }
  destruct s2 as [|c3 s3]; [done|].
  pose proof Hall2 as Hall3. cbn [all_chars] in Hall3.
  apply andb_true_iff in Hall3 as [_ Hall3].
  destruct (if back then is_ws3 c3 c2 c1 else is_ws3 c1 c2 c3); [|done].
  apply (IH (String.length s3)); [simpl in Hn; lia|done|done].
Qed.

Lemma all_chars_trim (p : ascii -> bool) (s : string) :
  all_chars p s = true -> all_chars p (trim s) = true.
Proof.
  intros Hall. unfold trim, trimEnd, trimStart.
  rewrite all_chars_rev. apply all_chars_strip.
  rewrite all_chars_rev. by apply all_chars_strip.
Qed.

End TrimFacts.

Section LegacyHeaderFacts.

Context `{Platform}.
Import JsString.

Lemma toLowerCase_empty (s : string) :
  all_chars is_ascii_char s = true ->
  toLowerCase s = EmptyString <-> s = EmptyString.
Proof.
  intros Hascii. unfold toLowerCase. rewrite Hascii. by destruct s.
Qed.

Lemma legacy_header_line_no_colon (acc : gmap string string) (line : string) :
  free_of ":" line -> Legacy.header_line acc line = acc.
Proof.
  intros Hfree. unfold Legacy.header_line.
  by rewrite (split_free ":" line Hfree).
Qed.

Lemma legacy_header_line_one_colon (acc : gmap string string) (k v : string) :
  free_of ":" k -> free_of ":" v ->
  Legacy.header_line acc (k +:+ ":" +:+ v)
  = if negb (bool_decide (trim k = EmptyString))
       && negb (bool_decide (trim v = EmptyString))
    then object_assign acc (toLowerCase (trim k)) (trim v)
    else acc.
Proof.
  intros Hk Hv. unfold Legacy.header_line.
  change (k +:+ ":" +:+ v) with (k +:+ String ":" v).
  by rewrite (split_free_app ":" k v Hk), (split_free ":" v Hv).
Qed.

End LegacyHeaderFacts.

(** X10.  The search for the AVTransport service gives the same answer in
    the older copy and in the current program, on every parsed tree: the
    older [findServices] followed by [find] yields a service exactly when the
    current [findAVTransportService] does, it is the same node with its
    control URL normalized, and one throws exactly when the other does. *)
Theorem legacy_search_agrees `{Platform} :
  forall (location : string) (node : jsval),
    settled (LegacyResolver.find_AVTransport
               (LegacyResolver.findServices location node))
    = fmap (M:=option) (normalized location)
        <$> settled (findAVTransportService node)
    /\ ((exists e, LegacyResolver.find_AVTransport
                     (LegacyResolver.findServices location node) = Throw e)
        <-> exists e, findAVTransportService node = Throw e).
Proof.
  intros location node. pose proof (legacy_search location node) as Hsearch.
  split; [exact Hsearch|].
  destruct (LegacyResolver.find_AVTransport _) as [old|e1],
    (findAVTransportService node) as [new|e2]; simpl in Hsearch; try done.
  - split; by intros [? [=]].
  - split; intros _; by eexists.
Qed.

(** X11.  On a location that passes [isValidHttpUrl], the older and the
    current [parseDeviceDescription] resolve the same descriptions: both
    answer [null] or both answer a descriptor, and then with the same control
    URL, and with the same name and manufacturer unless these fall back to
    the defaults, which differ. *)
Theorem legacy_resolution_agrees `{Platform} :
  forall (location : string) (net : fetch_outcome),
    isValidHttpUrl location = true ->
    match LegacyResolver.parseDeviceDescription location net,
          parseDeviceDescription location net with
    | Some old, Some new => same_device old new
    | None, None => True
    | _, _ => False
    end.
Proof.
  intros location net Hvalid.
  unfold LegacyResolver.parseDeviceDescription, parseDeviceDescription,
    try_catch.
  rewrite Hvalid. cbn [negb].
  destruct net as [res|e]; cbn [mbind completion_bind]; [|done].
  destruct (ok res); cbn [negb]; [|done].
  destruct (text res) as [xml|e]; cbn [mbind completion_bind]; [|done].
  destruct (discoverer_parseString xml) as [result|e];
    cbn [mbind completion_bind]; [|done].
  destruct (root_device result) as [device|e];
    cbn [mbind completion_bind]; [|done].
  destruct (truthy device) eqn:Htruthy; cbn [negb].
  2:{ by destruct device as [| |s| |]. }
  rewrite !(get_prop_truthy device) by done. cbn [mbind completion_bind].
  pose proof (legacy_search location (property device "serviceList"))
    as Hsearch.
  destruct (LegacyResolver.find_AVTransport _) as [[old|]|e1],
    (findAVTransportService (property device "serviceList")) as [[av|]|e2];
    simpl in Hsearch; try done; cbn [mbind completion_bind].
  injection Hsearch as ->.
  apply isValidHttpUrl_parsed in Hvalid as (url & -> & _).
  cbn [mbind completion_bind].
  destruct (text_or_absent (property device "friendlyName")) eqn:Hfn.
  2:{ destruct (trimmed_or_throws _ "device.friendlyName" "Unknown Device" Hfn)
        as [e1 ->].
      by destruct (trimmed_or_throws _ "device.friendlyName" "Unnamed Device"
                     Hfn) as [e2 ->]. }
  destruct (trimmed_or_text _ "device.friendlyName" "Unknown Device" Hfn)
    as (nm1 & Hnm1 & _).
  destruct (trimmed_or_text _ "device.friendlyName" "Unnamed Device" Hfn)
    as (nm2 & Hnm2 & _).
  rewrite Hnm1, Hnm2. cbn [mbind completion_bind].
  destruct (text_or_absent (property device "deviceType")) eqn:Hdt.
  2:{ destruct (legacy_parseDeviceType_throws _ Hdt) as [e1 ->].
      by destruct (parseDeviceType_throws _ Hdt) as [e2 ->]. }
  destruct (legacy_parseDeviceType_text _ Hdt) as [ty1 ->].
  destruct (parseDeviceType_text _ Hdt) as [ty2 ->].
  cbn [mbind completion_bind].
  destruct (text_or_absent (property device "manufacturer")) eqn:Hmf.
  2:{ destruct (trimmed_or_throws _ "device.manufacturer" "Unknown" Hmf)
        as [e1 ->].
      by destruct (trimmed_or_throws _ "device.manufacturer"
                     "Unknown Manufacturer" Hmf) as [e2 ->]. }
  destruct (trimmed_or_text _ "device.manufacturer" "Unknown" Hmf)
    as (mn1 & Hmn1 & _).
  destruct (trimmed_or_text _ "device.manufacturer" "Unknown Manufacturer" Hmf)
    as (mn2 & Hmn2 & _).
  rewrite Hmn1, Hmn2. cbn [mbind completion_bind].
  unfold same_device, normalized. simpl. split_and!; try done.
  - exact (trimmed_or_fallbacks _ _ _ _ _ _ Hnm1 Hnm2).
  - exact (trimmed_or_fallbacks _ _ _ _ _ _ Hmn1 Hmn2).
Qed.

Lemma legacy_resolution_agrees_witness :
  same_device
    (LegacyResolver.mkDescriptor "Kitchen" "MediaRenderer" "Unknown"
       (Some "http://192.168.1.7:8000/av2") "Pending")
    (mkDescriptor "Kitchen" "MediaRenderer" "Unknown Manufacturer"
       (Some "http://192.168.1.7:8000/av2") "Pending"
       "http://192.168.1.7:8000/d.xml" "8000").
Proof.
  apply (@legacy_resolution_agrees example_platform
           "http://192.168.1.7:8000/d.xml"
           (example_fetch "Kitchen"
              [(RenderingControl1, "/rc"); (AVTransport2, "/av2")])).
  reflexivity.
Defined.

(** X12.  Header parsing in the older copy and in the current program agree
    on every line with at most one colon, for header names in ASCII: a line
    without colon adds nothing, and a line [name:value] adds the same
    entry.  (On a value that contains a colon they differ: the older copy
    keeps only the part before the second colon.) *)
Theorem legacy_header_line_agrees `{Platform} :
  (forall (acc : gmap string string) (line : string),
      JsString.free_of ":" line ->
      Legacy.header_line acc line = header_line acc line)
  /\ (forall (acc : gmap string string) (k v : string),
         JsString.free_of ":" k -> JsString.free_of ":" v ->
         JsString.all_chars JsString.is_ascii_char k = true ->
         Legacy.header_line acc (k +:+ ":" +:+ v)
         = header_line acc (k +:+ ":" +:+ v)).
Proof.
  split.
  - intros acc line Hfree.
    by rewrite legacy_header_line_no_colon, header_line_no_colon.
  - intros acc k v Hk Hv Hascii.
    rewrite legacy_header_line_one_colon, header_line_first_colon by done.
    cbv zeta.
    rewrite (bool_decide_ext (toLowerCase (JsString.trim k) = EmptyString)
               (JsString.trim k = EmptyString)); [done|].
    apply toLowerCase_empty. by apply all_chars_trim.
Qed.

Lemma legacy_header_line_agrees_witness :
  @Legacy.header_line example_platform ∅ "ST: upnp"
  = @header_line example_platform ∅ "ST: upnp"
  /\ @Legacy.header_line example_platform ∅ "HTTP/1.1 200 OK"
     = @header_line example_platform ∅ "HTTP/1.1 200 OK".
Proof.
  split.
  - apply (proj2 (@legacy_header_line_agrees example_platform) ∅ "ST" " upnp");
      reflexivity.
  - apply (proj1 (@legacy_header_line_agrees example_platform) ∅
             "HTTP/1.1 200 OK").
    reflexivity.
Defined.

(** X13.  On a device type of five segments with a non-empty fourth one,
    the form [urn:schemas-upnp-org:device:Class:version], the older and the
    current [parseDeviceType] both answer the fourth segment. *)
Theorem legacy_parseDeviceType_agrees `{Platform} :
  forall a b c d e : string,
    Forall (JsString.free_of ":") [a; b; c; d; e] ->
    d <> EmptyString ->
    Legacy.parseDeviceType (JString (JsString.join ":" [a; b; c; d; e]))
    = Normal d
    /\ parseDeviceType (JString (JsString.join ":" [a; b; c; d; e]))
       = Normal d.
Proof.
  intros a b c d e Hfree Hd.
  unfold Legacy.parseDeviceType, parseDeviceType.
  assert (Hsplit : JsString.split (JsString.join ":" [a; b; c; d; e]) ":"
                   = [a; b; c; d; e]) by (by apply split_join).
  assert (Hor : js_or (JString (JsString.join ":" [a; b; c; d; e]))
                  (JString EmptyString)
                = JString (JsString.join ":" [a; b; c; d; e])).
  { unfold js_or. cbn [truthy]. rewrite bool_decide_eq_false_2; [done|].
    cbn [JsString.join]. intros Hempty.
    destruct a; [|by rewrite app_cons in Hempty].
    by rewrite app_empty_l in Hempty. }
  rewrite Hor. cbn [mbind completion_bind]. rewrite Hsplit. simpl.
  split; [|done].
  unfold js_or. cbn [truthy]. by rewrite bool_decide_eq_false_2.
Qed.

Lemma legacy_parseDeviceType_agrees_witness :
  Legacy.parseDeviceType (JString "urn:schemas-upnp-org:device:MediaServer:1")
  = Normal "MediaServer"
  /\ parseDeviceType (JString "urn:schemas-upnp-org:device:MediaServer:1")
     = Normal "MediaServer".
Proof.
  apply (@legacy_parseDeviceType_agrees example_platform
           "urn" "schemas-upnp-org" "device" "MediaServer" "1").
  - by repeat constructor.
  - done.
Defined.

(** ** [DLNAController]: the stages of [play] *)

Section PlayFacts.

Context `{Platform}.
Variable net : network.

Lemma getDeviceDetails_unfold (location : string) (issued : list request) :
  DLNAController.getDeviceDetails net location issued
  = (match avTransport_of (net issued (getRequest location)) with
     | Normal v => Normal v
     | Throw e => Throw (Error (description_failure (message e)))
     end,
     issued ++ [getRequest location]).
Proof.
  unfold DLNAController.getDeviceDetails, avTransport_of, io_try, fetch, io_lift,
    getRequest.
  cbv [mbind io_bind].
  destruct (net issued _) as [res|e]; cbn [completion_bind]; [|done].
  destruct (text res) as [xml|e]; cbn [completion_bind]; [|done].
  destruct (controller_parseString xml) as [result|e]; cbn [completion_bind];
    [|done].
  destruct (root_device result) as [device|e]; cbn [completion_bind]; [|done].
  destruct (get_prop device "serviceList") as [serviceList|e];
    cbn [completion_bind]; [|done].
  by destruct (DLNAController.findAVTransportService serviceList).
Qed.

Lemma sendSoapRequest_unfold (url serviceType action body : string)
    (issued : list request) :
  DLNAController.sendSoapRequest net url serviceType action body issued
  = (soap_exchange (net issued (soapRequest url serviceType action body)),
     issued ++ [soapRequest url serviceType action body]).
Proof.
  unfold DLNAController.sendSoapRequest, soap_exchange, io_lift, fetch,
    soapFailure.
  cbv [mbind io_bind].
  destruct (net issued _) as [res|e]; cbn [completion_bind]; [|done].
  destruct (ok res); cbn [negb].
  - by destruct (text res) as [received|e].
  - by destruct (text res) as [errorText|e].
Qed.

Lemma soap_exchange_accepted (r : fetch_outcome) :
  (exists v, soap_exchange r = Normal v) <-> accepted r.
Proof.
  unfold soap_exchange, accepted. split.
  - intros [v Hv]. destruct r as [res|e]; cbn [mbind completion_bind] in Hv;
      [|done].
    destruct (ok res) eqn:Hok; cbn [negb] in Hv.
    + destruct (text res) as [body|e] eqn:Htext;
        cbn [mbind completion_bind] in Hv; [|done].
      by exists res, body, v.
    + by destruct (text res).
  - intros (res & body & v & -> & Hok & Htext & Hparse).
    exists v. cbn [mbind completion_bind]. rewrite Hok, Htext. done.
Qed.

Lemma soap_exchange_refused (res : response) (errorText : string) :
  ok res = false -> text res = Normal errorText ->
  soap_exchange (Normal res)
  = Throw (Error (soapFailure (status res) errorText)).
Proof.
  intros Hok Htext. unfold soap_exchange. cbn [mbind completion_bind].
  by rewrite Hok, Htext.
Qed.

(** [play], stage by stage. *)
Lemma play_unfold (deviceLocation : playTarget) (mediaURL : string) :
  let get := getRequest (target_location deviceLocation) in
  DLNAController.play net deviceLocation mediaURL []
  = match avTransport_of (net [] get) with
    | Throw e =>
        (Normal (mkResult false (Some (description_failure (message e)))), [get])
    | Normal None => (Normal (mkResult false (Some unsupported_device)), [get])
    | Normal (Some av) =>
        let set := setRequest deviceLocation av mediaURL in
        let play := playRequest deviceLocation av in
        match soap_exchange (net [get] set) with
        | Throw e => (Normal (mkResult false (Some (message e))), [get; set])
        | Normal _ =>
            match soap_exchange (net [get; set] play) with
            | Throw e =>
                (Normal (mkResult false (Some (message e))), [get; set; play])
            | Normal _ => (Normal (mkResult true None), [get; set; play])
            end
        end
    end.
Proof.
  intros get. unfold DLNAController.play, io_try.
  cbv [mbind io_bind]. rewrite getDeviceDetails_unfold.
  fold get. cbn [app].
  destruct (avTransport_of (net [] get)) as [[av|]|e]; [|done|done].
  rewrite sendSoapRequest_unfold. cbn [app].
  fold (setRequest deviceLocation av mediaURL).
  destruct (soap_exchange (net [get] _)) as [v1|e1]; [|done].
  rewrite sendSoapRequest_unfold. cbn [app].
  fold (playRequest deviceLocation av).
  by destruct (soap_exchange (net [get; _] _)) as [v2|e2].
Qed.

End PlayFacts.

Section ServiceListFacts.

Context `{Platform}.

Lemma text_only_plain (props : list (string * jsval)) :
  text_only props -> plain_serviceType props = true.
Proof.
  unfold plain_serviceType. intros Htext.
  induction Htext as [|[k v] props [s Hv] _ IH]; [done|].
  simpl in Hv. subst v. simpl. by case_bool_decide.
Qed.

Lemma text_only_preorder (props : list (string * jsval)) :
  text_only props -> objects_preorder (JObject props) = [props].
Proof.
  intros Htext. cbn [objects_preorder]. f_equal.
  induction Htext as [|[k v] props [s Hv] _ IH]; [done|].
  simpl in Hv. subst v. exact IH.
Qed.

Lemma text_only_array_preorder (services : list (list (string * jsval))) :
  Forall text_only services ->
  objects_preorder (JArray (JObject <$> services)) = services.
Proof.
  intros Hall. cbn [objects_preorder].
  induction Hall as [|props services Hprops _ IH]; [done|].
  rewrite fmap_cons, (text_only_preorder props Hprops). simpl. by f_equal.
Qed.

Lemma flat_preorder (services : list (list (string * jsval))) :
  Forall text_only services ->
  exists top,
    objects_preorder (flat_serviceList services) = top :: services
    /\ is_AVTransport top = false /\ plain_serviceType top = true.
Proof.
  intros Hall. unfold flat_serviceList.
  exists [("service",
           match services with
           | [props] => JObject props
           | _ => JArray (JObject <$> services)
           end)].
  split; [|by vm_compute].
  cbn [objects_preorder]. f_equal. rewrite app_nil_r.
  destruct services as [|props [|props' services]].
  - done.
  - apply text_only_preorder. by inversion Hall.
  - by apply text_only_array_preorder.
Qed.

Lemma find_service_text_only (services : list (list (string * jsval))) :
  Forall text_only services ->
  DLNAController.find_service (JObject <$> services)
  = Normal (JObject <$> List.find is_AVTransport services).
Proof.
  intros Hall. induction Hall as [|props services Hprops _ IH]; [done|].
  rewrite fmap_cons. cbn [DLNAController.find_service List.find get_prop].
  cbn [mbind completion_bind].
  pose proof (text_only_plain props Hprops) as Hplain.
  unfold plain_serviceType in Hplain. unfold is_AVTransport.
  destruct (assoc "serviceType" props) as [[| |st| |]|]; simpl; try done.
  by destruct (JsString.startsWith st AVTransport_prefix).
Qed.

End ServiceListFacts.



(** X15.  When the device accepts [SetAVTransportURI] and answers [Play]
    with a status that is not 2xx, [play] has issued all three requests and
    reports failure with the status and the body of the [Play] response. *)
Theorem play_refused_at_play `{Platform} :
  forall (net : network) (deviceLocation : playTarget) (mediaURL : string)
         (av : controlService) (res : response) (errorText : string),
    let get := getRequest (target_location deviceLocation) in
    let set := setRequest deviceLocation av mediaURL in
    let play := playRequest deviceLocation av in
    DLNAController.getDeviceDetails net (target_location deviceLocation) []
    = (Normal (Some av), [get]) ->
    accepted (net [get] set) ->
    net [get; set] play = Normal res ->
    ok res = false ->
    text res = Normal errorText ->
    DLNAController.play net deviceLocation mediaURL []
    = (Normal (mkResult false (Some (soapFailure (status res) errorText))),
       [get; set; play]).
Proof.
  intros net deviceLocation mediaURL av res errorText get set play
    Hdetails Hset Hplay Hok Htext.
  rewrite getDeviceDetails_unfold in Hdetails. cbn [app] in Hdetails.
  fold get in Hdetails.
  rewrite play_unfold. cbv zeta. fold get.
  destruct (avTransport_of (net [] get)) as [[av'|]|e]; simplify_eq.
  fold set play.
  apply soap_exchange_accepted in Hset as [v ->].
  by rewrite Hplay, (soap_exchange_refused res errorText Hok Htext).
Qed.

Lemma play_refused_at_play_witness :
  @DLNAController.play example_platform
    (fun issued _ =>
       match issued with
       | [] => example_fetch "Living Room TV"
                 [(AVTransport1, "/upnp/control/AVTransport")]
       | [_] => Normal (mkResponse 200 (Normal "<ok></ok>"))
       | _ => Normal (mkResponse 500 (Normal "UPnPError 701"))
       end)
    example_target "http://media.local/a.mp4" []
  = (Normal (mkResult false (Some (soapFailure 500 "UPnPError 701"))),
     [ getRequest "http://192.168.1.5/desc.xml";
       setRequest example_target example_service "http://media.local/a.mp4";
       playRequest example_target example_service ]).
Proof.
  apply (@play_refused_at_play example_platform _ example_target
           "http://media.local/a.mp4" example_service
           (mkResponse 500 (Normal "UPnPError 701")) "UPnPError 701").
  - reflexivity.
  - by exists (mkResponse 200 (Normal "<ok></ok>")), "<ok></ok>",
      (JObject [("ok", JString EmptyString)]).
  - reflexivity.
  - reflexivity.
  - reflexivity.
Defined.

(** X16.  [play] reports success exactly when the description yields an
    AVTransport service and both control requests are accepted: each answered
    with a 2xx status and a body that can be read and parses as XML.  Then
    exactly the three requests were issued, in order, and no error is
    reported.  A 2xx answer whose body does not parse is reported as a
    failure. *)
Theorem play_succeeds_iff `{Platform} :
  forall (net : network) (deviceLocation : playTarget) (mediaURL : string),
    let get := getRequest (target_location deviceLocation) in
    exists (r : playResult) (issued : list request),
      DLNAController.play net deviceLocation mediaURL [] = (Normal r, issued)
      /\ (success r = true <->
          exists av : controlService,
            DLNAController.getDeviceDetails net (target_location deviceLocation) []
            = (Normal (Some av), [get])
            /\ accepted (net [get] (setRequest deviceLocation av mediaURL))
            /\ accepted (net [get; setRequest deviceLocation av mediaURL]
                           (playRequest deviceLocation av))
            /\ issued = [get; setRequest deviceLocation av mediaURL;
                         playRequest deviceLocation av]
            /\ error r = None).
Proof.
  intros net deviceLocation mediaURL get.
  rewrite play_unfold, getDeviceDetails_unfold. cbv zeta. cbn [app]. fold get.
  destruct (avTransport_of (net [] get)) as [[av|]|e].
  - destruct (soap_exchange (net [get] _)) as [v1|e1] eqn:Hset.
    + destruct (soap_exchange (net [get; _] _)) as [v2|e2] eqn:Hplay.
      * do 2 eexists. split; [done|]. split; [intros _|done].
        exists av. split_and!; try done.
        -- apply soap_exchange_accepted. by exists v1.
        -- apply soap_exchange_accepted. by exists v2.
      * do 2 eexists. split; [done|]. split; [done|].
        intros (av' & [= <-] & _ & Haccepted & _).
        apply soap_exchange_accepted in Haccepted as [v Hv]. congruence.
    + do 2 eexists. split; [done|]. split; [done|].
      intros (av' & [= <-] & Haccepted & _).
      apply soap_exchange_accepted in Haccepted as [v Hv]. congruence.
  - do 2 eexists. split; [done|]. split; [done|]. by intros (av' & [=] & _).
  - do 2 eexists. split; [done|]. split; [done|]. by intros (av' & [=] & _).
Qed.

(** X17.  [getDeviceDetails] does not look at the status of the description
    response: two answers with the same body give the same result, whatever
    their status.  [parseDeviceDescription] of the discoverer does look: an
    answer that is not 2xx is dropped whatever its body. *)
Theorem getDeviceDetails_ignores_status `{Platform} :
  (forall (net1 net2 : network) (location : string) (res1 res2 : response),
      net1 [] (getRequest location) = Normal res1 ->
      net2 [] (getRequest location) = Normal res2 ->
      text res1 = text res2 ->
      DLNAController.getDeviceDetails net1 location []
      = DLNAController.getDeviceDetails net2 location [])
  /\ (forall (location : string) (res : response),
         ok res = false ->
         parseDeviceDescription location (Normal res) = None).
Proof.
  split.
  - intros net1 net2 location res1 res2 H1 H2 Htext.
    rewrite !getDeviceDetails_unfold, H1, H2. unfold avTransport_of.
    cbn [mbind completion_bind]. by rewrite Htext.
  - intros location res Hok. unfold parseDeviceDescription, try_catch.
    destruct (isValidHttpUrl location); cbn [negb]; [|done].
    cbn [mbind completion_bind]. by rewrite Hok.
Qed.

Lemma getDeviceDetails_ignores_status_witness :
  @DLNAController.getDeviceDetails example_platform
    (fun _ _ => Normal (mkResponse 404
                          (Normal (device_xml "Living Room TV"
                                     [(AVTransport1, "/upnp/control/AVTransport")]))))
    "http://192.168.1.5/desc.xml" []
  = @DLNAController.getDeviceDetails example_platform accepting_network
      "http://192.168.1.5/desc.xml" []
  /\ @parseDeviceDescription example_platform "http://192.168.1.5/desc.xml"
       (Normal (mkResponse 404
                  (Normal (device_xml "Living Room TV"
                             [(AVTransport1, "/upnp/control/AVTransport")]))))
     = None.
Proof.
  split.
  - apply (proj1 (@getDeviceDetails_ignores_status example_platform) _ _
             "http://192.168.1.5/desc.xml"
             (mkResponse 404
                (Normal (device_xml "Living Room TV"
                           [(AVTransport1, "/upnp/control/AVTransport")])))
             (mkResponse 200
                (Normal (device_xml "Living Room TV"
                           [(AVTransport1, "/upnp/control/AVTransport")]))));
      reflexivity.
  - apply (proj2 (@getDeviceDetails_ignores_status example_platform)).
    reflexivity.
Defined.

(** X18.  On a service list whose services consist of text elements only,
    the shape of a standard description, the search of the controller and the
    search of the discoverer select the same service: the first one whose
    type begins with the AVTransport prefix, or none. *)
Theorem controller_search_agrees `{Platform} :
  forall services : list (list (string * jsval)),
    Forall text_only services ->
    DLNAController.findAVTransportService (flat_serviceList services)
    = Normal (control_of <$> List.find is_AVTransport services)
    /\ findAVTransportService (flat_serviceList services)
       = Normal (service_of <$> List.find is_AVTransport services).
Proof.
  intros services Hall. split.
  - pose proof (find_service_text_only services Hall) as Hfind.
    unfold DLNAController.findAVTransportService, flat_serviceList.
    destruct services as [|props [|props' services]]; [done| |];
      cbn [get_prop assoc];
      rewrite bool_decide_eq_true_2 by done;
      cbn [default from_option id mbind completion_bind];
      [change [JObject props] with (JObject <$> [props])|];
      rewrite Hfind; cbn [mbind completion_bind];
      by destruct (List.find is_AVTransport _).
  - destruct (flat_preorder services Hall) as (top & Hpre & Hav & Hplain).
    rewrite findAVTransportService_outcome. unfold search_outcome.
    rewrite Hpre, find_decisive_plain.
    + cbn [List.find]. rewrite Hav.
      destruct (List.find is_AVTransport services) as [props|] eqn:Hfound;
        [|done].
      simpl. by rewrite (find_is_AVTransport _ _ Hfound).
    + constructor; [done|].
      eapply Forall_impl; [exact Hall|]. apply text_only_plain.
Qed.

Lemma controller_search_agrees_witness :
  @DLNAController.findAVTransportService
    (flat_serviceList
       [ [("serviceType", JString RenderingControl1);
          ("controlURL", JString "/rc")];
         [("serviceType", JString AVTransport1);
          ("controlURL", JString "/av")] ])
  = Normal (Some (mkControlService (JString "/av") (JString AVTransport1)))
  /\ @findAVTransportService
       (flat_serviceList
          [ [("serviceType", JString RenderingControl1);
             ("controlURL", JString "/rc")];
            [("serviceType", JString AVTransport1);
             ("controlURL", JString "/av")] ])
     = Normal (Some (mkService AVTransport1 (JString "/av"))).
Proof.
  apply (@controller_search_agrees example_platform
           [ [("serviceType", JString RenderingControl1);
              ("controlURL", JString "/rc")];
             [("serviceType", JString AVTransport1);
              ("controlURL", JString "/av")] ]).
  repeat constructor; by eexists.
Defined.

(** ** The URL of the control requests *)

Section ControlUrlFacts.

Context `{Platform}.
Import JsString.

Lemma digit_char_facts (c : ascii) :
  is_digit c = true ->
  WhatWG.safe_char c = true /\ WhatWG.char_in c "/?#" = false
  /\ WhatWG.char_in c ":" = false.
Proof.
  destruct c as [[] [] [] [] [] [] [] []]; vm_compute; intros;
    by repeat split.
Qed.



Lemma break_at_safe (stops s : string) :
  all_chars WhatWG.safe_char s = true ->
  all_chars WhatWG.safe_char (WhatWG.break_at stops s).1 = true.
Proof.
  induction s as [|a s IH]; [done|]. cbn [all_chars WhatWG.break_at].
  intros [Ha Hs]%andb_true_iff. destruct (WhatWG.char_in a stops); [done|].
  specialize (IH Hs). destruct (WhatWG.break_at stops s) as [h t].
  simpl in *. by rewrite Ha, IH.
Qed.


End ControlUrlFacts.



(** ** Headers of a datagram *)

Section HeaderOrder.

Context `{Platform}.

Lemma header_line_lookup (acc : gmap string string) (line k : string) :
  header_line acc line !! k
  = match header_line ∅ line !! k with
    | Some v => Some v
    | None => acc !! k
    end.
Proof.
  unfold header_line. case_bool_decide; [by rewrite lookup_empty|].
  destruct (negb _ && negb _); [|by rewrite lookup_empty].
  unfold object_assign. case_bool_decide; [by rewrite lookup_empty|].
  rewrite !lookup_insert. case_decide; [done|]. by rewrite lookup_empty.
Qed.

Lemma header_line_clean (line k v : string) :
  header_line ∅ line !! k = Some v ->
  k <> EmptyString /\ v <> EmptyString /\ k <> "__proto__".
Proof.
  unfold header_line. case_bool_decide; [by rewrite lookup_empty|].
  destruct (negb (bool_decide (_ = EmptyString))
            && negb (bool_decide (_ = EmptyString))) eqn:Hcond;
    [|by rewrite lookup_empty].
  apply andb_true_iff in Hcond as [Hkey Hvalue].
  apply negb_true_iff, bool_decide_eq_false in Hkey.
  apply negb_true_iff, bool_decide_eq_false in Hvalue.
  unfold object_assign. case_bool_decide as Hproto; [by rewrite lookup_empty|].
  rewrite lookup_insert. case_decide as Heq; [|by rewrite lookup_empty].
  intros [= <-]. by rewrite <- Heq.
Qed.

Lemma fold_header_source (lines : list string) (acc : gmap string string)
    (k v : string) :
  fold_left header_line lines acc !! k = Some v ->
  acc !! k = Some v
  \/ exists line, line ∈ lines /\ header_line ∅ line !! k = Some v.
Proof.
  revert acc. induction lines as [|line lines IH]; intros acc; [by left|].
  simpl. intros Hfold. destruct (IH _ Hfold) as [Hacc|(l & Hin & Hl)].
  - rewrite header_line_lookup in Hacc.
    destruct (header_line ∅ line !! k) as [w|] eqn:Hline; [|by left].
    right. exists line. split; [apply elem_of_cons; by left|congruence].
  - right. exists l. split; [apply elem_of_cons; by right|done].
Qed.

Lemma fold_header_silent (lines : list string) (acc : gmap string string)
    (k : string) :
  Forall (fun l => header_line ∅ l !! k = None) lines ->
  fold_left header_line lines acc !! k = acc !! k.
Proof.
  intros Hsilent. revert acc.
  induction Hsilent as [|line lines Hline _ IH]; intros acc; [done|].
  simpl. by rewrite IH, header_line_lookup, Hline.
Qed.

End HeaderOrder.

(** X20.  Every entry of the parsed headers has a non-empty name other
    than [__proto__] and a non-empty value, both taken from one line of the
    datagram; so a [location] header, when present, is never empty.  When
    several lines carry the same name the last of them gives the value. *)
Theorem header_last_wins `{Platform} :
  (forall msg k v : string,
      parse_headers msg !! k = Some v ->
      k <> EmptyString /\ v <> EmptyString /\ k <> "__proto__"
      /\ exists line, line ∈ JsString.split msg CRLF
                      /\ header_line ∅ line !! k = Some v)
  /\ (forall (msg : string) (before : list string) (line : string)
             (after : list string) (k v : string),
         JsString.split msg CRLF = before ++ line :: after ->
         header_line ∅ line !! k = Some v ->
         Forall (fun l => header_line ∅ l !! k = None) after ->
         parse_headers msg !! k = Some v).
Proof.
  split.
  - intros msg k v Hlookup. unfold parse_headers in Hlookup.
    destruct (fold_header_source _ _ _ _ Hlookup) as [Hempty|(line & Hin & Hl)].
    + by rewrite lookup_empty in Hempty.
    + destruct (header_line_clean _ _ _ Hl) as (? & ? & ?).
      split_and!; try done. by exists line.
  - intros msg before line after k v Hsplit Hline Hsilent.
    unfold parse_headers. rewrite Hsplit, fold_left_app. simpl.
    by rewrite fold_header_silent, header_line_lookup, Hline.
Qed.

Lemma header_last_wins_witness :
  @parse_headers example_platform
    ("HTTP/1.1 200 OK" +:+ CRLF
     +:+ "LOCATION: http://192.168.1.5/old.xml" +:+ CRLF
     +:+ "Location: http://192.168.1.5/new.xml" +:+ CRLF
     +:+ "ST: upnp:rootdevice" +:+ CRLF +:+ CRLF) !! "location"
  = Some "http://192.168.1.5/new.xml".
Proof.
  apply (proj2 (@header_last_wins example_platform)
           ("HTTP/1.1 200 OK" +:+ CRLF
            +:+ "LOCATION: http://192.168.1.5/old.xml" +:+ CRLF
            +:+ "Location: http://192.168.1.5/new.xml" +:+ CRLF
            +:+ "ST: upnp:rootdevice" +:+ CRLF +:+ CRLF)
           ["HTTP/1.1 200 OK"; "LOCATION: http://192.168.1.5/old.xml"]
           "Location: http://192.168.1.5/new.xml"
           ["ST: upnp:rootdevice"; EmptyString; EmptyString]).
  - by vm_compute.
  - by vm_compute.
  - repeat constructor; by vm_compute.
Defined.

(** ** The active set *)

Section ActiveSet.

Context `{Platform}.

Lemma unregistered_deliver (st : scan) (ev : event) :
  (closed st = true -> socket st ∉ activeSockets st) ->
  closed (deliver st ev) = true ->
  socket (deliver st ev) ∉ activeSockets (deliver st ev).
Proof.
  intros Hinv.
  destruct (closed st) eqn:C.
  { destruct (deliver_closed st ev C) as (_ & _ & ->).
    rewrite (proj1 (deliver_frame st ev)). by auto. }
  destruct ev as [err|sb am1 am2 mx|msg address|task net|]; simpl.
  - rewrite C.
    cbv [run_callback on_error cleanup socket_close resolve modify mbind
         action_bind]. simpl. rewrite C. simpl.
    destruct (resolved st); simpl; intros _;
      rewrite not_elem_of_difference; right; by apply elem_of_singleton.
  - rewrite C. simpl. destruct (listening st); [by rewrite C|].
    destruct sb as [[]|], am1 as [[]|], am2 as [[]|]; simpl; by rewrite C.
  - destruct (on_message st && negb (closed st)); [|by rewrite C].
    cbv [run_callback on_message_received modify inspect mbind mret
         action_bind action_ret].
    destruct (parse_headers msg !! "location") as [location|]; [|by rewrite C].
    simpl. destruct (map_has location (devices st)); simpl; by rewrite C.
  - destruct (awaiting st !! task) as [[location address]|]; [|by rewrite C].
    cbv [run_callback on_message_resumed modify mret action_ret].
    destruct (parseDeviceDescription location net); simpl; by rewrite C.
  - destruct (timer st); [|by rewrite C].
    cbv [run_callback on_timeout cleanup socket_close resolve modify inspect
         mbind action_bind]. simpl. rewrite C. simpl.
    destruct (resolved st); simpl; intros _;
      rewrite not_elem_of_difference; right; by apply elem_of_singleton.
Qed.

Lemma unregistered_run (st : scan) (evs : list event) :
  (closed st = true -> socket st ∉ activeSockets st) ->
  closed (run st evs) = true ->
  socket (run st evs) ∉ activeSockets (run st evs).
Proof.
  revert st. induction evs as [|ev evs IH]; intros st Hinv; [done|].
  simpl. apply IH. by apply unregistered_deliver.
Qed.

End ActiveSet.

(** X21.  Throughout a scan the discoverer's set of active sockets holds the
    socket of the scan exactly as long as this socket has not been closed:
    it is added when the scan starts and removed by the one [cleanup] that
    closes it. *)
Theorem active_set_tracks_open_socket `{Platform} :
  forall (active : gset nat) (sock : nat) (evs : list event),
    let st := run (discover_start active sock) evs in
    sock ∈ activeSockets st <-> closed st = false.
Proof.
  intros active sock evs st.
  assert (Hsock : socket st = sock) by apply run_socket.
  split.
  - intros Hin. destruct (closed st) eqn:C; [|done].
    exfalso. revert Hin. rewrite <- Hsock.
    apply unregistered_run; [done|exact C].
  - intros C. rewrite <- Hsock. apply registered_run; [|exact C].
    intros _. simpl. apply elem_of_union_r. by apply elem_of_singleton.
Qed.

(** ** The heartbeat *)

Section HeartbeatFacts.

Import Heartbeat.



End HeartbeatFacts.



(** ** Decimal numbers *)

Section DecimalFacts.

Import JsString.

Lemma parse_decimal_app (s t : string) (a : N) :
  WhatWG.parse_decimal (s +:+ t) a
  = WhatWG.parse_decimal t (WhatWG.parse_decimal s a).
Proof.
  revert a. induction s as [|c s IH]; intros a.
  - by rewrite app_empty_l.
  - rewrite app_cons. cbn [WhatWG.parse_decimal]. apply IH.
Qed.

Lemma digit_char_spec (d : N) :
  (d < 10)%N ->
  is_digit (digit_char d) = true
  /\ (N_of_ascii (digit_char d) - 48 = d)%N.
Proof.
  intros Hd. unfold digit_char, is_digit.
  rewrite N_ascii_embedding by lia. split; [|lia].
  apply andb_true_iff. split; apply N.leb_le; lia.
Qed.

(** What [decimal_go] prepends: the digits of [n], most significant
    first. *)
Lemma decimal_go_spec (k : nat) (n : N) (t : string) :
  (n < 2 ^ N.of_nat (S k))%N ->
  exists ds,
    decimal_go (S k) n t = ds +:+ t
    /\ all_chars is_digit ds = true
    /\ ds <> EmptyString
    /\ forall a, (WhatWG.parse_decimal ds a
                  = a * 10 ^ N.of_nat (String.length ds) + n)%N.
Proof.
  revert n t. induction k as [|k IH]; intros n t Hn.
  - assert (Hsmall : (n < 10)%N) by (simpl in Hn; lia).
    cbn [decimal_go]. rewrite (proj2 (N.ltb_lt _ _) Hsmall).
    rewrite (N.mod_small n 10%N) by done.
    destruct (digit_char_spec n Hsmall) as [Hdigit Hvalue].
    exists (String (digit_char n) EmptyString). split_and!; try done.
    + cbn [all_chars]. by rewrite Hdigit.
    + intros a. cbn [WhatWG.parse_decimal String.length]. rewrite Hvalue.
      change (N.of_nat 1) with 1%N. lia.
  - cbn [decimal_go].
    assert (Hmod : (n mod 10 < 10)%N) by (apply N.mod_lt; lia).
    destruct (digit_char_spec _ Hmod) as [Hdigit Hvalue].
    destruct (n <? 10)%N eqn:Hsmall.
    + apply N.ltb_lt in Hsmall. rewrite (N.mod_small n 10%N) in * by done.
      exists (String (digit_char n) EmptyString). split_and!; try done.
      * cbn [all_chars]. by rewrite Hdigit.
      * intros a. cbn [WhatWG.parse_decimal String.length]. rewrite Hvalue.
        change (N.of_nat 1) with 1%N. lia.
    + apply N.ltb_ge in Hsmall.
      assert (Hdiv : (n / 10 < 2 ^ N.of_nat (S k))%N).
      { apply N.Div0.div_lt_upper_bound.
        replace (N.of_nat (S (S k))) with (N.succ (N.of_nat (S k))) in Hn
          by lia.
        rewrite N.pow_succ_r' in Hn. lia. }
      destruct (IH (n / 10)%N (String (digit_char (n mod 10)) t) Hdiv)
        as (ds & Hgo & Hdigits & Hne & Hparse).
      exists (ds +:+ String (digit_char (n mod 10)) EmptyString).
      split_and!.
      * change (decimal_go (S k) (n / 10) (String (digit_char (n mod 10)) t)
                = (ds +:+ String (digit_char (n mod 10)) EmptyString) +:+ t).
        by rewrite Hgo, app_assoc.
      * rewrite all_chars_app, Hdigits. cbn [all_chars]. by rewrite Hdigit.
      * destruct ds; by rewrite ?app_cons.
      * intros a. rewrite parse_decimal_app, Hparse.
        cbn [WhatWG.parse_decimal]. rewrite Hvalue, length_app.
        cbn [String.length].
        replace (N.of_nat (String.length ds + 1))
          with (N.succ (N.of_nat (String.length ds))) by lia.
        rewrite N.pow_succ_r'.
        pose proof (N.Div0.div_mod n 10%N) as Hdm. lia.
Qed.

(** Rendering a number and reading it back. *)
Lemma decimal_parse (n : N) :
  all_chars is_digit (decimal n) = true
  /\ decimal n <> EmptyString
  /\ WhatWG.parse_decimal (decimal n) 0%N = n.
Proof.
  unfold decimal.
  assert (Hfuel : (n < 2 ^ N.of_nat (S (N.to_nat (N.log2 n))))%N).
  { replace (N.of_nat (S (N.to_nat (N.log2 n)))) with (N.succ (N.log2 n))
      by lia.
    destruct (N.eq_dec n 0%N) as [->|Hpos]; [done|].
    apply N.log2_spec. lia. }
  destruct (decimal_go_spec _ n EmptyString Hfuel)
    as (ds & -> & Hdigits & Hne & Hparse).
  rewrite app_empty_r. split_and!; [done|done|]. rewrite Hparse. lia.
Qed.

Lemma canonical_port_range (scheme : string) (p : option N) :
  (forall n, p = Some n ->
             (n <= 65535)%N /\ WhatWG.default_port scheme <> Some n) ->
  canonical_port scheme p.
Proof.
  intros Hrange n Hp. destruct (Hrange n Hp) as [Hle Hdefault].
  destruct (decimal_parse n) as (Hdigits & Hne & Hparse).
  unfold WhatWG.parse_port.
  rewrite bool_decide_eq_false_2 by done. rewrite Hdigits. cbn [negb].
  rewrite Hparse, (proj2 (N.ltb_ge _ _) Hle).
  by rewrite bool_decide_eq_false_2.
Qed.

End DecimalFacts.

(** ** The control URL a descriptor reports *)

Section RelativeFacts.

Context `{Platform}.
Import JsString.

Lemma rev_app_rev_app (s a b : string) :
  String.rev_app (String.rev_app s a) b = String.rev_app a (s +:+ b).
Proof.
  revert a b. induction s as [|c s IH]; intros a b.
  - by rewrite app_empty_l.
  - cbn [String.rev_app]. rewrite IH. by rewrite app_cons.
Qed.

Lemma rev_rev_app (s : string) :
  String.rev (String.rev_app s EmptyString) = s.
Proof.
  unfold String.rev. rewrite rev_app_rev_app. cbn [String.rev_app].
  apply app_empty_r.
Qed.

Lemma plain_char (c : ascii) :
  WhatWG.safe_char c && negb (WhatWG.char_in c "/?#") = true ->
  WhatWG.safe_char c = true /\ char_eqb c "/" = false
  /\ WhatWG.char_in c "?#" = false /\ char_eqb c "?" = false
  /\ char_eqb c "#" = false.
Proof.
  destruct c as [[] [] [] [] [] [] [] []]; vm_compute; intros;
    by repeat split.
Qed.

Lemma path_state_read (seg buf : string) (path : list string) (rest : string) :
  all_chars (fun c => WhatWG.safe_char c && negb (WhatWG.char_in c "/?#")) seg
  = true ->
  WhatWG.path_state path buf (seg +:+ rest)
  = WhatWG.path_state path (String.rev_app seg buf) rest.
Proof.
  revert buf. induction seg as [|c seg IH]; intros buf Hseg.
  - by rewrite app_empty_l.
  - cbn [all_chars] in Hseg. apply andb_true_iff in Hseg as [Hc Hseg].
    destruct (plain_char c Hc) as (_ & Hslash & Hstop & _ & _).
    rewrite app_cons. cbn [WhatWG.path_state String.rev_app].
    rewrite Hslash, Hstop. by apply IH.
Qed.

Lemma close_segment_plain (path : list string) (seg : string) (slash : bool) :
  seg <> "." -> seg <> ".." ->
  WhatWG.close_segment path seg slash = path ++ [seg].
Proof.
  intros Hdot Hdots. unfold WhatWG.close_segment.
  by rewrite !bool_decide_eq_false_2.
Qed.

Lemma path_state_serialize (segs : list string) (seg : string)
    (path : list string) :
  plain_segment seg -> Forall plain_segment segs ->
  WhatWG.path_state path EmptyString
    (seg +:+ WhatWG.serialize_path (ListPath segs))
  = (path ++ seg :: segs, EmptyString).
Proof.
  revert seg path. induction segs as [|s segs IH];
    intros seg path (Hseg & Hdot & Hdots) Hsegs.
  - cbn [WhatWG.serialize_path fold_right].
    rewrite path_state_read by done. cbn [WhatWG.path_state].
    by rewrite rev_rev_app, close_segment_plain.
  - apply Forall_cons in Hsegs as [Hs Hsegs].
    cbn [WhatWG.serialize_path fold_right].
    rewrite path_state_read by done.
    change ("/" +:+ s +:+ ?t) with (String "/" (s +:+ t)).
    cbn [WhatWG.path_state]. rewrite char_eqb_refl.
    rewrite rev_rev_app, close_segment_plain by done.
    change (fold_right (fun seg acc => "/" +:+ seg +:+ acc) EmptyString segs)
      with (WhatWG.serialize_path (ListPath segs)).
    rewrite IH by done. by rewrite <- List.app_assoc.
Qed.

Lemma path_start_serialize (seg : string) (segs : list string) :
  plain_segment seg -> Forall plain_segment segs ->
  WhatWG.path_start (WhatWG.serialize_path (ListPath (seg :: segs)))
  = (seg :: segs, EmptyString).
Proof.
  intros Hseg Hsegs. cbn [WhatWG.serialize_path fold_right].
  change ("/" +:+ seg +:+ ?t) with (String "/" (seg +:+ t)).
  cbn [WhatWG.path_start]. rewrite char_eqb_refl.
  change (fold_right (fun seg acc => "/" +:+ seg +:+ acc) EmptyString segs)
    with (WhatWG.serialize_path (ListPath segs)).
  by rewrite path_state_serialize.
Qed.

Lemma serialize_path_chars (p : ascii -> bool) (segs : list string) :
  p "/"%char = true ->
  Forall (fun seg => all_chars p seg = true) segs ->
  all_chars p (WhatWG.serialize_path (ListPath segs)) = true.
Proof.
  intros Hslash Hsegs. induction Hsegs as [|seg segs Hseg _ IH]; [done|].
  cbn [WhatWG.serialize_path fold_right].
  change ("/" +:+ seg +:+ ?t) with (String "/" (seg +:+ t)).
  cbn [all_chars]. rewrite Hslash, all_chars_app, Hseg. exact IH.
Qed.

Lemma scan_scheme_free (seg rest acc : string) :
  free_of ":" seg -> starts_with_one_of "/" rest = true ->
  WhatWG.scan_scheme (seg +:+ rest) acc = None.
Proof.
  intros Hfree Hrest. revert acc. induction seg as [|c seg IH]; intros acc.
  - rewrite app_empty_l. destruct rest as [|c rest]; [done|].
    simpl in Hrest. rewrite orb_false_r in Hrest.
    apply char_eqb_eq in Hrest as <-. done.
  - apply free_of_cons in Hfree as [Hc Hfree]. rewrite app_cons.
    cbn [WhatWG.scan_scheme].
    destruct (char_eqb c ":") eqn:Hcolon; [by apply char_eqb_eq in Hcolon|].
    destruct (is_alnum c || WhatWG.char_in c "+-."); [by apply IH|done].
Qed.

Lemma serialize_path_start (segs : list string) :
  starts_with_one_of "/" (WhatWG.serialize_path (ListPath segs)) = true.
Proof. by destruct segs. Qed.

Lemma canonical_port_digits (scheme : string) (n : N) :
  WhatWG.parse_port scheme (decimal n) = Some (Some n) ->
  all_chars is_digit (decimal n) = true.
Proof.
  unfold WhatWG.parse_port. case_bool_decide; [done|].
  by destruct (all_chars is_digit (decimal n)).
Qed.

(** Parsing [scheme://host], a canonical port if any, and what follows. *)
Lemma parse_origin (scheme host tail : string) (p : option N) :
  scheme = "http" \/ scheme = "https" ->
  WhatWG.classify_host host = WhatWG.HostOk host ->
  canonical_port scheme p ->
  all_chars WhatWG.safe_char tail = true ->
  starts_with_one_of "/?#" tail = true ->
  WhatWG.basic_parse (scheme +:+ "://" +:+ host +:+ port_suffix p +:+ tail) None
  = let '(path, rest') := WhatWG.path_start tail in
    let '(q, f) := WhatWG.query_fragment None rest' in
    WhatWG.Parsed
      (mkURL scheme EmptyString EmptyString (Some host) p (ListPath path) q f).
Proof.
  intros Hscheme Hhost Hcanonical Htail Hstart.
  destruct (classify_host_chars _ _ Hhost) as [Hchars Hne].
  set (portpart := port_suffix p).
  assert (Hport : all_chars WhatWG.safe_char portpart = true
                  /\ all_chars (fun c => negb (WhatWG.char_in c "/?#")) portpart
                     = true
                  /\ starts_with_one_of ":" portpart = true
                  /\ WhatWG.parse_port scheme
                       (match portpart with
                        | String _ d => d
                        | EmptyString => EmptyString
                        end) = Some p).
  { unfold portpart, port_suffix. destruct p as [n|]; [|done].
    pose proof (Hcanonical n eq_refl) as Hn.
    pose proof (canonical_port_digits scheme n Hn) as Hdigits.
    change (":" +:+ decimal n) with (String ":" (decimal n)).
    cbn [all_chars]. split_and!; try done.
    - rewrite andb_true_l. revert Hdigits. apply all_chars_impl.
      intros c Hc. by destruct (digit_char_facts c Hc) as (? & _).
    - rewrite andb_true_l. revert Hdigits. apply all_chars_impl.
      intros c Hc. destruct (digit_char_facts c Hc) as (_ & -> & _). done. }
  destruct Hport as (Hpsafe & Hpstop & Hpcolon & Hpparse).
  assert (Hhsafe : all_chars WhatWG.safe_char host = true).
  { revert Hchars. apply all_chars_impl. intros c Hc.
    by destruct (host_char_facts c Hc) as (_ & _ & ? & _). }
  assert (Hhstop : all_chars (fun c => negb (WhatWG.char_in c "/?#")) host = true).
  { revert Hchars. apply all_chars_impl. intros c Hc.
    destruct (host_char_facts c Hc) as (-> & _). done. }
  assert (Hhcolon : all_chars (fun c => negb (WhatWG.char_in c ":")) host = true).
  { revert Hchars. apply all_chars_impl. intros c Hc.
    destruct (host_char_facts c Hc) as (_ & -> & _). done. }
  assert (Hsafe : all_chars WhatWG.safe_char
                    (scheme +:+ "://" +:+ host +:+ portpart +:+ tail) = true).
  { rewrite !all_chars_app, Hhsafe, Hpsafe, Htail.
    by destruct Hscheme as [->| ->]. }
  unfold WhatWG.basic_parse. rewrite Hsafe. cbn [negb].
  assert (Hdrop : WhatWG.drop_slashes ("//" +:+ host +:+ portpart +:+ tail)
                  = host +:+ portpart +:+ tail).
  { destruct host as [|a host]; [done|].
    cbn [all_chars] in Hchars. apply andb_true_iff in Hchars as [Ha _].
    destruct (host_char_facts a Ha) as (_ & _ & _ & Hslash).
    change ("//" +:+ String a host +:+ portpart +:+ tail)
      with (String "/" (String "/" (String a (host +:+ portpart +:+ tail)))).
    cbn [WhatWG.drop_slashes]. rewrite Hslash. done. }
  assert (Hauth : WhatWG.parse_authority scheme (host +:+ portpart +:+ tail)
                  = let '(path, rest') := WhatWG.path_start tail in
                    let '(q, f) := WhatWG.query_fragment None rest' in
                    WhatWG.Parsed
                      (mkURL scheme EmptyString EmptyString (Some host) p
                         (ListPath path) q f)).
  { unfold WhatWG.parse_authority.
    replace (host +:+ portpart +:+ tail) with ((host +:+ portpart) +:+ tail)
      by apply app_assoc.
    rewrite break_at_app; [|by rewrite all_chars_app, Hhstop, Hpstop|done].
    rewrite break_at_app by done.
    rewrite bool_decide_eq_false_2 by done.
    by rewrite Hhost, Hpparse. }
  assert (Hscan : WhatWG.take_scheme
                    (scheme +:+ "://" +:+ host +:+ portpart +:+ tail)
                  = Some (scheme, "//" +:+ host +:+ portpart +:+ tail)).
  { by destruct Hscheme as [->| ->]. }
  rewrite Hscan.
  assert (WhatWG.is_http scheme = true) as -> by (by destruct Hscheme as [->| ->]).
  cbn [negb]. by rewrite Hdrop, Hauth.
Qed.

(** Resolving a serialized path, with or without its leading slash, against
    a URL that has nothing after its authority. *)
Lemma resolve_serialized (b : URLrecord) (first : string) (more : list string)
    (absolute : bool) :
  WhatWG.is_http (url_scheme b) = true ->
  url_path_of b = ListPath [EmptyString] ->
  plain_segment first -> Forall plain_segment more ->
  (first = EmptyString -> more = [] /\ absolute = true) ->
  (absolute = false -> free_of ":" first) ->
  WhatWG.basic_parse
    ((if absolute then "/" else EmptyString)
     +:+ first +:+ WhatWG.serialize_path (ListPath more)) (Some b)
  = WhatWG.Parsed
      (mkURL (url_scheme b) (url_username b) (url_password b) (url_host b)
         (url_port b) (ListPath (first :: more)) None None).
Proof.
  intros Hhttp Hpath Hfirst Hmore Hempty Hrelative.
  pose proof (path_state_serialize more first [] Hfirst Hmore) as Hstate.
  cbn [app] in Hstate.
  set (rest := first +:+ WhatWG.serialize_path (ListPath more)) in *.
  assert (Hsafe : all_chars WhatWG.safe_char rest = true).
  { unfold rest. rewrite all_chars_app. apply andb_true_iff. split.
    - destruct Hfirst as [Hchars _]. revert Hchars. apply all_chars_impl.
      intros c Hc. by destruct (plain_char c Hc) as (? & _).
    - apply serialize_path_chars; [done|].
      eapply Forall_impl; [exact Hmore|]. intros seg [Hchars _].
      revert Hchars. apply all_chars_impl.
      intros c Hc. by destruct (plain_char c Hc) as (? & _). }
  unfold WhatWG.basic_parse.
  destruct absolute.
  - change ("/" +:+ rest) with (String "/" rest).
    cbn [all_chars]. rewrite Hsafe. cbn [negb WhatWG.take_scheme].
    assert (Halpha : is_alpha "/" = false) by done.
    assert (Hslashsafe : WhatWG.safe_char "/" = true) by done.
    rewrite Hslashsafe, Halpha. cbn [andb negb]. rewrite Hpath, Hhttp.
    unfold WhatWG.parse_relative. rewrite char_eqb_refl.
    assert (Hcase : match rest with
                    | String c2 _ => char_eqb c2 "/" = false
                    | EmptyString => True
                    end).
    { unfold rest. destruct first as [|c first]; [|rewrite app_cons].
      - destruct (Hempty eq_refl) as [-> _]. done.
      - destruct Hfirst as [Hchars _]. cbn [all_chars] in Hchars.
        apply andb_true_iff in Hchars as [Hc _].
        by destruct (plain_char c Hc) as (_ & ? & _). }
    destruct rest as [|c2 s2]; [|rewrite Hcase]; by rewrite Hstate.
  - rewrite app_empty_l. rewrite Hsafe. cbn [negb].
    assert (Hne : first <> EmptyString).
    { intros Hfe. by destruct (Hempty Hfe) as [_ ?]. }
    assert (Hscheme : WhatWG.take_scheme rest = None).
    { unfold WhatWG.take_scheme.
      destruct rest as [|c r] eqn:Hrest; [done|].
      destruct (is_alpha c); [|done]. rewrite <- Hrest. unfold rest.
      apply scan_scheme_free; [by apply Hrelative|].
      apply serialize_path_start. }
    rewrite Hscheme, Hpath, Hhttp.
    unfold WhatWG.parse_relative.
    assert (Hhead : exists c r, rest = String c r
                                /\ char_eqb c "/" = false
                                /\ char_eqb c "?" = false
                                /\ char_eqb c "#" = false).
    { unfold rest. destruct first as [|c first]; [done|].
      rewrite app_cons. destruct Hfirst as [Hchars _].
      cbn [all_chars] in Hchars. apply andb_true_iff in Hchars as [Hc _].
      destruct (plain_char c Hc) as (_ & ? & _ & ? & ?). by do 2 eexists. }
    destruct Hhead as (c & r & Hrest & Hslash & Hquery & Hfragment).
    rewrite Hrest, Hslash, Hquery, Hfragment. rewrite <- Hrest.
    cbn [removelast]. by rewrite Hstate.
Qed.

End RelativeFacts.

Section NormalizePlain.

Context `{Platform}.
Import JsString.

Lemma plain_segment_free (seg : string) :
  plain_segment seg -> free_of "/" seg.
Proof.
  intros [Hchars _]. revert Hchars. apply all_chars_impl.
  intros c Hc. by destruct (plain_char c Hc) as (_ & -> & _).
Qed.

Lemma normalizeURL_serialized (scheme host tail : string) (p : option N)
    (first : string) (more : list string) (absolute : bool) :
  scheme = "http" \/ scheme = "https" ->
  WhatWG.classify_host host = WhatWG.HostOk host ->
  canonical_port scheme p ->
  all_chars WhatWG.safe_char tail = true ->
  starts_with_one_of "/?#" tail = true ->
  plain_segment first -> Forall plain_segment more ->
  (first = EmptyString -> more = [] /\ absolute = true) ->
  (absolute = false -> free_of ":" first) ->
  has_double_slash (WhatWG.serialize_path (ListPath (first :: more))) = false ->
  normalizeURL ((scheme +:+ "://" +:+ host +:+ port_suffix p) +:+ tail)
    (JString ((if absolute then "/" else EmptyString)
              +:+ first +:+ WhatWG.serialize_path (ListPath more)))
  = Some ((scheme +:+ "://" +:+ host +:+ port_suffix p)
          +:+ WhatWG.serialize_path (ListPath (first :: more))).
Proof.
  intros Hscheme Hhost Hport Htail Hstart Hfirst Hmore Hempty Hrelative Hdouble.
  assert (Hhttp : WhatWG.is_http scheme = true)
    by (by destruct Hscheme as [->| ->]).
  assert (Htuple : WhatWG.has_tuple_origin scheme = true)
    by (by destruct Hscheme as [->| ->]).
  set (origin := scheme +:+ "://" +:+ host +:+ port_suffix p).
  set (path := WhatWG.serialize_path (ListPath (first :: more))).
  unfold normalizeURL, try_catch.
  (* the base *)
  assert (Hbase : exists bp q f,
             URL_new (origin +:+ tail) None
             = Normal (mkURL scheme EmptyString EmptyString (Some host) p
                         (ListPath bp) q f)).
  { unfold URL_new, url_parse, origin. rewrite !app_assoc.
    rewrite parse_origin by done.
    destruct (WhatWG.path_start tail) as [bp rest'].
    destruct (WhatWG.query_fragment None rest') as [q f]. by do 3 eexists. }
  destruct Hbase as (bp & q & f & ->). cbn [mbind completion_bind].
  assert (Horigin : URL_origin (mkURL scheme EmptyString EmptyString
                                  (Some host) p (ListPath bp) q f) = origin).
  { unfold URL_origin. cbn [url_scheme]. by rewrite Htuple. }
  rewrite Horigin.
  (* the control URL against the origin *)
  set (resolved := mkURL scheme EmptyString EmptyString (Some host) p
                     (ListPath (first :: more)) None None).
  assert (Hresolved : URL_new
                        ((if absolute then "/" else EmptyString)
                         +:+ first +:+ WhatWG.serialize_path (ListPath more))
                        (Some origin)
                      = Normal resolved).
  { unfold URL_new, url_parse.
    assert (Hparsed : WhatWG.basic_parse origin None
                      = WhatWG.Parsed
                          (mkURL scheme EmptyString EmptyString (Some host) p
                             (ListPath [EmptyString]) None None)).
    { replace origin with (scheme +:+ "://" +:+ host +:+ port_suffix p
                           +:+ EmptyString)
        by (unfold origin; by rewrite ?app_assoc, ?app_empty_r).
      by rewrite parse_origin. }
    rewrite Hparsed.
    by rewrite (resolve_serialized _ first more absolute). }
  cbn [to_string]. rewrite Hresolved. cbn [mbind completion_bind].
  (* the path is left as it is *)
  assert (Hpathname : URL_pathname resolved = path) by done.
  rewrite Hpathname, (collapse_fixed path Hdouble).
  assert (Hset : URL_set_pathname resolved path = resolved).
  { unfold URL_set_pathname. cbn [url_path_of url_scheme resolved].
    rewrite Htuple.
    assert (Hplain : WhatWG.plain_path_value path = true).
    { unfold WhatWG.plain_path_value, path. apply serialize_path_chars; [done|].
      assert (Hweaker : forall seg, plain_segment seg ->
                 all_chars (fun c => WhatWG.safe_char c
                                     && negb (WhatWG.char_in c "?#")) seg
                 = true).
      { intros seg [Hchars _]. revert Hchars. apply all_chars_impl.
        intros c Hc. by destruct (plain_char c Hc) as (-> & _ & -> & _). }
      constructor; [by apply Hweaker|].
      eapply Forall_impl; [exact Hmore|]. exact Hweaker. }
    rewrite Hplain. cbn [andb]. unfold path.
    by rewrite path_start_serialize. }
  rewrite Hset. f_equal.
  unfold URL_href, WhatWG.serialize, resolved, origin, port_suffix.
  cbn [url_scheme url_host url_username url_password url_port url_path_of
       url_query url_fragment].
  rewrite !bool_decide_eq_true_2 by done. cbn [andb]. fold path.
  rewrite !app_assoc, !app_empty_r, ?app_empty_l. by destruct p.
Qed.

Lemma canonical_location (scheme host tail : string) (p : option N) :
  scheme = "http" \/ scheme = "https" ->
  WhatWG.classify_host host = WhatWG.HostOk host ->
  canonical_port scheme p ->
  all_chars WhatWG.safe_char tail = true ->
  starts_with_one_of "/?#" tail = true ->
  exists u,
    URL_new ((scheme +:+ "://" +:+ host +:+ port_suffix p) +:+ tail) None
    = Normal u
    /\ url_scheme u = scheme /\ url_host u = Some host /\ url_port u = p
    /\ URL_origin u = scheme +:+ "://" +:+ host +:+ port_suffix p.
Proof.
  intros Hscheme Hhost Hport Htail Hstart.
  unfold URL_new, url_parse. rewrite !app_assoc.
  rewrite parse_origin by done.
  destruct (WhatWG.path_start tail) as [bp rest'].
  destruct (WhatWG.query_fragment None rest') as [q f].
  eexists. split; [done|]. split_and!; try done.
  unfold URL_origin. cbn [url_scheme].
  assert (WhatWG.has_tuple_origin scheme = true) as ->
    by (by destruct Hscheme as [->| ->]).
  done.
Qed.

End NormalizePlain.

(** The control URL reported for a canonical location and a plain path. *)
Lemma normalizeURL_canonical `{Platform} :
  forall (scheme host tail : string) (p : option N) (segs : list string)
         (last : string) (absolute : bool),
    scheme = "http" \/ scheme = "https" ->
    WhatWG.classify_host host = WhatWG.HostOk host ->
    (forall n, p = Some n ->
               (n <= 65535)%N /\ WhatWG.default_port scheme <> Some n) ->
    JsString.all_chars WhatWG.safe_char tail = true ->
    starts_with_one_of "/?#" tail = true ->
    Forall plain_segment (segs ++ [last]) ->
    Forall (fun seg => seg <> EmptyString) segs ->
    (absolute = false ->
     last <> EmptyString /\ Forall (JsString.free_of ":") (segs ++ [last])) ->
    let origin := scheme +:+ "://" +:+ host +:+ port_suffix p in
    let path := WhatWG.serialize_path (ListPath (segs ++ [last])) in
    normalizeURL (origin +:+ tail)
      (JString (if absolute then path else JsString.slice path 1 None))
    = Some (origin +:+ path)
    /\ isValidHttpUrl (origin +:+ tail) = true
    /\ exists u,
        URL_new (origin +:+ tail) None = Normal u
        /\ url_host u = Some host /\ url_port u = p
        /\ URL_origin u = origin
        /\ URL_port u = match p with
                        | Some n => JsString.decimal n
                        | None => EmptyString
                        end.
Proof.
  intros scheme host tail p segs last absolute Hscheme Hhost Hrange Htail
    Hstart Hplain Hinner Hrelative origin path.
  pose proof (canonical_port_range scheme p Hrange) as Hport.
  destruct (canonical_location scheme host tail p Hscheme Hhost Hport Htail
              Hstart) as (u & Hu & Hus & Huh & Hup & Huo).
  fold origin in Hu, Huo.
  split_and!.
  2:{ apply isValidHttpUrl_parsed. exists u. split; [done|].
      rewrite Hus. by destruct Hscheme as [->| ->]. }
  2:{ exists u. split_and!; try done. unfold URL_port. by rewrite Hup. }
  assert (Hdouble : has_double_slash path = false).
  { apply serialize_path_no_double_slash.
    - apply Forall_forall. intros seg Hin. split.
      + apply plain_segment_free.
        apply (proj1 (Forall_forall _ _) Hplain), elem_of_app. by left.
      + by apply (proj1 (Forall_forall _ _) Hinner).
    - apply plain_segment_free.
      apply (proj1 (Forall_forall _ _) Hplain), elem_of_app. right.
      by apply list_elem_of_singleton. }
  assert (Hcons : exists first more,
             segs ++ [last] = first :: more
             /\ (first = EmptyString -> more = [] /\ absolute = true)
             /\ (absolute = false -> JsString.free_of ":" first)).
  { destruct segs as [|first segs'].
    - exists last, []. split_and!; [done| |].
      + intros ->. split; [done|]. destruct absolute; [done|].
        by destruct (Hrelative eq_refl).
      + intros Habs. destruct (Hrelative Habs) as [_ Hfree].
        by apply Forall_cons in Hfree as [? _].
    - exists first, (segs' ++ [last]). split_and!; [done| |].
      + intros ->. by apply Forall_cons in Hinner as [? _].
      + intros Habs. destruct (Hrelative Habs) as [_ Hfree].
        by apply Forall_cons in Hfree as [? _]. }
  destruct Hcons as (first & more & Heq & Hempty & Hcolon).
  unfold path in *. rewrite Heq in *.
  apply Forall_cons in Hplain as [Hfirst Hmore].
  assert (Hcontrol : (if absolute
                      then WhatWG.serialize_path (ListPath (first :: more))
                      else JsString.slice
                             (WhatWG.serialize_path (ListPath (first :: more)))
                             1 None)
                     = (if absolute then "/" else EmptyString)
                       +:+ first +:+ WhatWG.serialize_path (ListPath more)).
  { destruct absolute; [done|]. rewrite app_empty_l.
    exact (slice_drop "/" (first +:+ WhatWG.serialize_path (ListPath more))). }
  rewrite Hcontrol. by apply normalizeURL_serialized.
Qed.

(** X23.  For a location written in canonical form, that is with a host
    that host parsing leaves unchanged and a port that is absent or a number
    up to 65535 other than the default, the URL class reads back scheme,
    host and port as written, so the location passes [isValidHttpUrl].  For
    such a location and a control URL that is a path of plain segments
    without dot or empty inner segments, [normalizeURL] returns the origin of
    the location followed by that path.  This holds for the path with its
    leading slash and, when the segments contain no colon and the last one
    is not empty, also without it; what follows the authority in the
    location plays no part. *)
Theorem normalizeURL_plain_path `{Platform} :
  forall (scheme host tail : string) (p : option N) (segs : list string)
         (last : string) (absolute : bool),
    scheme = "http" \/ scheme = "https" ->
    WhatWG.classify_host host = WhatWG.HostOk host ->
    (forall n, p = Some n ->
               (n <= 65535)%N /\ WhatWG.default_port scheme <> Some n) ->
    JsString.all_chars WhatWG.safe_char tail = true ->
    starts_with_one_of "/?#" tail = true ->
    Forall plain_segment (segs ++ [last]) ->
    Forall (fun seg => seg <> EmptyString) segs ->
    (absolute = false ->
     last <> EmptyString /\ Forall (JsString.free_of ":") (segs ++ [last])) ->
    let origin := scheme +:+ "://" +:+ host +:+ port_suffix p in
    let path := WhatWG.serialize_path (ListPath (segs ++ [last])) in
    normalizeURL (origin +:+ tail)
      (JString (if absolute then path else JsString.slice path 1 None))
    = Some (origin +:+ path)
    /\ isValidHttpUrl (origin +:+ tail) = true
    /\ exists u,
        URL_new (origin +:+ tail) None = Normal u
        /\ url_host u = Some host /\ url_port u = p
        /\ URL_origin u = origin
        /\ URL_port u = match p with
                        | Some n => JsString.decimal n
                        | None => EmptyString
                        end.
Proof.
  intros scheme host tail p segs last absolute.
  apply normalizeURL_canonical.
Qed.

Lemma normalizeURL_plain_path_witness :
  @normalizeURL example_platform "http://192.168.1.5:8080/desc.xml?id=1"
    (JString "upnp/control/AVTransport")
  = Some "http://192.168.1.5:8080/upnp/control/AVTransport"
  /\ @normalizeURL example_platform "https://tv.local/a/b/c"
       (JString "/ctl/")
     = Some "https://tv.local/ctl/".
Proof.
  split.
  - apply (@normalizeURL_plain_path example_platform "http" "192.168.1.5"
             "/desc.xml?id=1" (Some 8080%N) ["upnp"; "control"] "AVTransport"
             false).
    + by left.
    + reflexivity.
    + intros n [= <-]. split; [lia|done].
    + reflexivity.
    + reflexivity.
    + repeat constructor; by vm_compute.
    + by repeat constructor.
    + intros _. split; [done|]. repeat constructor; by vm_compute.
  - apply (@normalizeURL_plain_path example_platform "https" "tv.local"
             "/a/b/c" None ["ctl"] EmptyString true).
    + by right.
    + reflexivity.
    + by intros n [=].
    + reflexivity.
    + reflexivity.
    + repeat constructor; by vm_compute.
    + by repeat constructor.
    + by intros [=].
Defined.

(** X24.  Discovery and [play] meet on the control URL.  For a device that
    answers from the host of its own location, an [http] location on a port
    other than 80 and a control URL that is an absolute path of plain
    segments, the URL [play] posts to, built from the [ip] and [port] of the
    descriptor and the control URL of the description, is exactly the
    [controlURL] the descriptor reports. *)
Theorem play_url_is_reported_control_url `{Platform} :
  forall (host tail : string) (n : N) (segs : list string) (last : string)
         (serviceType : jsval) (url : URLrecord),
    WhatWG.classify_host host = WhatWG.HostOk host ->
    (n <= 65535)%N -> n <> 80%N ->
    JsString.all_chars WhatWG.safe_char tail = true ->
    starts_with_one_of "/?#" tail = true ->
    Forall plain_segment (segs ++ [last]) ->
    Forall (fun seg => seg <> EmptyString) segs ->
    let location := ("http://" +:+ host +:+ ":" +:+ JsString.decimal n) +:+ tail in
    let path := WhatWG.serialize_path (ListPath (segs ++ [last])) in
    URL_new location None = Normal url ->
    normalizeURL location (JString path)
    = Some (controlUrlFull (mkTarget location host (URL_port url))
              (mkControlService (JString path) serviceType)).
Proof.
  intros host tail n segs last serviceType url Hhost Hle Hdefault Htail Hstart
    Hplain Hinner location path Hurl.
  destruct (normalizeURL_canonical "http" host tail (Some n) segs last true)
    as (Hnormalized & _ & u & Hu & _ & _ & _ & Hport); try done.
  { by left. }
  { intros m [= <-]. split; [done|]. unfold WhatWG.default_port. simpl.
    intros [= Heq]. by apply Hdefault. }
  cbv zeta in Hnormalized, Hu, Hport. unfold port_suffix in *.
  change ("http" +:+ "://" +:+ host +:+ ":" +:+ JsString.decimal n)
    with ("http://" +:+ host +:+ ":" +:+ JsString.decimal n)
    in Hnormalized, Hu.
  fold location path in Hnormalized, Hu.
  rewrite Hu in Hurl. injection Hurl as <-.
  rewrite Hnormalized. f_equal.
  unfold controlUrlFull. cbn [target_ip target_port cs_controlURL to_string].
  rewrite Hport. by rewrite !app_assoc.
Qed.

Lemma play_url_is_reported_control_url_witness :
  @normalizeURL example_platform "http://192.168.1.5:49152/desc.xml"
    (JString "/upnp/control/AVTransport")
  = Some (controlUrlFull
            (mkTarget "http://192.168.1.5:49152/desc.xml" "192.168.1.5" "49152")
            example_service).
Proof.
  apply (@play_url_is_reported_control_url example_platform "192.168.1.5"
           "/desc.xml" 49152%N ["upnp"; "control"] "AVTransport"
           (JString AVTransport1)
           (mkURL "http" "" "" (Some "192.168.1.5") (Some 49152%N)
              (ListPath ["desc.xml"]) None None)).
  - reflexivity.
  - lia.
  - lia.
  - reflexivity.
  - reflexivity.
  - repeat constructor; by vm_compute.
  - by repeat constructor.
  - reflexivity.
Defined.

(** ** Commands over the WebSocket *)

Section CommandFacts.

Context `{Platform}.
Variable JSON_parse : string -> completion json.
Variable net : network.

Lemma json_get_opt_field (data : option json) (k : string) :
  json_get_opt data k = Normal (command_field data k).
Proof. unfold command_field. by destruct data as [[]|]. Qed.

Lemma json_get_object (props : list (string * json)) (k : string) :
  json_get (Some (JsonObject props)) k = Normal (json_assoc k props).
Proof. done. Qed.

Lemma copy_devices (devices : list descriptor) :
  copy_device <$> filter (fun _ => True) devices = devices.
Proof.
  induction devices as [|d devices IH]; [done|].
  rewrite filter_cons_True by done. rewrite fmap_cons, IH. by destruct d.
Qed.

Lemma play_command_total (device mediaURL : option json) :
  exists r issued,
    play_command net device mediaURL [] = (Normal r, issued)
    /\ (forall s, mediaURL = Some (JsonString s) ->
          DLNAController.play net (target_of device) s [] = (Normal r, issued))
    /\ hd_error issued
       = Some (getRequest (target_location (target_of device))).
Proof.
  assert (Hplay : forall s,
             exists r issued,
               DLNAController.play net (target_of device) s []
               = (Normal r, issued)
               /\ hd_error issued
                  = Some (getRequest (target_location (target_of device)))).
  { intros s. rewrite play_unfold. cbv zeta.
    destruct (avTransport_of _) as [[av|]|e]; [|by do 2 eexists..].
    destruct (soap_exchange _); [|by do 2 eexists].
    destruct (soap_exchange _); by do 2 eexists. }
  assert (Hother : exists r issued,
             io_try
               (avTransport ← DLNAController.getDeviceDetails net
                                (target_location (target_of device));
                match avTransport with
                | None => io_lift (Throw (Error unsupported_device))
                | Some _ => io_lift (Throw (not_a_function "str.replace"))
                end)
               (fun err => mret (mkResult false (Some (message err)))) []
             = (Normal r, issued)
             /\ hd_error issued
                = Some (getRequest (target_location (target_of device)))).
  { unfold io_try. cbv [mbind io_bind]. rewrite getDeviceDetails_unfold.
    destruct (avTransport_of _) as [[av|]|e]; by do 2 eexists. }
  unfold play_command.
  destruct mediaURL as [[| | |s| |]|];
    try (destruct Hother as (r & issued & Hr & Hhd); exists r, issued;
         split_and!; by try done).
  destruct (Hplay s) as (r & issued & Hr & Hhd). exists r, issued.
  split_and!; try done. by intros ? [= <-].
Qed.

End CommandFacts.

(** X25.  On a connection on which [ws.send] does not throw, the [message]
    handler never throws and sends at most one reply.
    A message that [JSON.parse] rejects is answered with the error reply that
    carries the parser's message, and so is the JSON text [null]; a command
    whose [type] is neither [discover] nor [play] gets no reply at all.  None
    of these cases issues a request. *)
Theorem malformed_command_replies `{Platform} :
  forall (JSON_parse : string -> completion json) (net : network)
         (scanned : option (list descriptor)) (now : N) (received : string),
    (forall e : exn,
        JSON_parse received = Throw e ->
        on_ws_message JSON_parse net scanned now received []
        = (Normal [CommandError (message e)], []))
    /\ (JSON_parse received = Normal JsonNull ->
        on_ws_message JSON_parse net scanned now received []
        = (Normal [CommandError
                     "Cannot read properties of null (reading 'type')"], []))
    /\ (forall (command : json) (type : option json),
           JSON_parse received = Normal command ->
           json_get (Some command) "type" = Normal type ->
           json_is type "discover" = false ->
           json_is type "play" = false ->
           on_ws_message JSON_parse net scanned now received []
           = (Normal [], []))
    /\ exists (replies : list reply) (issued : list request),
        on_ws_message JSON_parse net scanned now received []
        = (Normal replies, issued)
        /\ (length replies <= 1)%nat.
Proof.
  intros JSON_parse net scanned now received.
  unfold on_ws_message, io_try, io_lift. cbv [mbind io_bind].
  split_and!.
  - by intros e ->.
  - by intros ->.
  - intros command type -> -> Hdiscover Hplay. by rewrite Hdiscover, Hplay.
  - destruct (JSON_parse received) as [command|e]; [|by do 2 eexists].
    destruct (json_get (Some command) "type") as [type|e];
      [|by do 2 eexists].
    destruct (json_is type "discover").
    { destruct scanned; do 2 eexists; (split; [done|simpl; lia]). }
    destruct (json_is type "play"); [|do 2 eexists; (split; [done|simpl; lia])].
    destruct (json_get (Some command) "data") as [data|e];
      [|by do 2 eexists].
    rewrite !json_get_opt_field.
    destruct (negb _ || negb _); [do 2 eexists; (split; [done|simpl; lia])|].
    destruct (play_command_total net (command_field data "device")
                (command_field data "mediaURL")) as (r & issued & -> & _).
    do 2 eexists. split; [done|]. simpl. lia.
Qed.

Lemma malformed_command_replies_witness :
  @on_ws_message example_platform
    (fun _ => Throw (Error "Unexpected token h in JSON at position 0"))
    accepting_network None 1 "hello" []
  = (Normal [CommandError "Unexpected token h in JSON at position 0"], [])
  /\ @on_ws_message example_platform
       (fun _ => Normal (JsonObject [("type", JsonString "stop")]))
       accepting_network None 1 "{...}" []
     = (Normal [], []).
Proof.
  split.
  - apply (proj1 (@malformed_command_replies example_platform
                    (fun _ => Throw (Error "Unexpected token h in JSON at position 0"))
                    accepting_network None 1%N "hello")
             (Error "Unexpected token h in JSON at position 0")).
    reflexivity.
  - apply (proj1 (proj2 (proj2 (@malformed_command_replies example_platform
                    (fun _ => Normal (JsonObject [("type", JsonString "stop")]))
                    accepting_network None 1%N "{...}")))
             (JsonObject [("type", JsonString "stop")])
             (Some (JsonString "stop"))); reflexivity.
Defined.

(** X26.  A [play] command is checked before anything is requested: when
    its [data] has no [device] or no [mediaURL], or one of them is a falsy
    value, the only reply is the invalid-parameters error and no request is
    issued.  Otherwise the reply is the result of [play], never the
    command-format error: for a media URL that is a string it is the result
    of [play] on the [location], [ip] and [port] of the device, and in every
    case the first request issued is the fetch of that [location]. *)
Theorem play_command_is_validated `{Platform} :
  forall (JSON_parse : string -> completion json) (net : network)
         (scanned : option (list descriptor)) (now : N) (received : string)
         (props : list (string * json)),
    JSON_parse received = Normal (JsonObject props) ->
    json_assoc "type" props = Some (JsonString "play") ->
    let data := json_assoc "data" props in
    let device := command_field data "device" in
    let mediaURL := command_field data "mediaURL" in
    (json_truthy device && json_truthy mediaURL = false ->
     on_ws_message JSON_parse net scanned now received []
     = (Normal [InvalidParameters], []))
    /\ (json_truthy device && json_truthy mediaURL = true ->
        exists (r : playResult) (issued : list request),
          on_ws_message JSON_parse net scanned now received []
          = (Normal [Result r], issued)
          /\ hd_error issued
             = Some (getRequest (target_location (target_of device)))
          /\ forall s, mediaURL = Some (JsonString s) ->
               DLNAController.play net (target_of device) s []
               = (Normal r, issued)).
Proof.
  intros JSON_parse net scanned now received props Hparse Htype data device
    mediaURL.
  unfold on_ws_message, io_try, io_lift. cbv [mbind io_bind].
  rewrite Hparse, !json_get_object, Htype. cbn [json_is].
  rewrite bool_decide_eq_false_2 by done.
  rewrite bool_decide_eq_true_2 by done.
  rewrite !json_get_opt_field. fold data device mediaURL.
  split.
  - intros Hfalsy. apply andb_false_iff in Hfalsy.
    assert (negb (json_truthy device) || negb (json_truthy mediaURL) = true)
      as ->; [|done].
    apply orb_true_iff. destruct Hfalsy as [->| ->]; [by left|by right].
  - intros Htruthy. apply andb_true_iff in Htruthy as [-> ->]. cbn [negb orb].
    destruct (play_command_total net device mediaURL)
      as (r & issued & -> & Hplay & Hhd).
    by exists r, issued.
Qed.

Lemma play_command_is_validated_witness :
  @on_ws_message example_platform
    (fun _ => Normal (JsonObject
                        [("type", JsonString "play");
                         ("data", JsonObject
                                    [("device",
                                      JsonObject [("ip", JsonString "192.168.1.5")]);
                                     ("mediaURL", JsonString EmptyString)])]))
    accepting_network None 1 "{...}" []
  = (Normal [InvalidParameters], []).
Proof.
  apply (proj1 (@play_command_is_validated example_platform
                  (fun _ => Normal (JsonObject
                        [("type", JsonString "play");
                         ("data", JsonObject
                                    [("device",
                                      JsonObject [("ip", JsonString "192.168.1.5")]);
                                     ("mediaURL", JsonString EmptyString)])]))
                  accepting_network None 1%N "{...}"
                  [("type", JsonString "play");
                   ("data", JsonObject
                              [("device",
                                JsonObject [("ip", JsonString "192.168.1.5")]);
                               ("mediaURL", JsonString EmptyString)])]
                  eq_refl eq_refl)).
  reflexivity.
Defined.

(** X27.  A [discover] command is answered with the list its scan answers,
    device by device and in the same order, and issues no request of its
    own.  When the scan never answers there is no reply at all: so it is
    after a failed multicast join, as long as no socket error follows. *)
Theorem discover_command_reply `{Platform} :
  forall (JSON_parse : string -> completion json) (net : network) (now : N)
         (received : string) (props : list (string * json)),
    JSON_parse received = Normal (JsonObject props) ->
    json_assoc "type" props = Some (JsonString "discover") ->
    (forall scanned : option (list descriptor),
        on_ws_message JSON_parse net scanned now received []
        = (Normal (discover_reply scanned now), []))
    /\ (forall (active : gset nat) (sock : nat) (err : exn)
               (addMembership2 : completion unit) (mx : N) (evs : list event),
           on_ws_message JSON_parse net
             (resolved
                (run (deliver (discover_start active sock)
                        (EvListening joined (Throw err) addMembership2 mx))
                   (filter (fun ev => is_error ev = false) evs)))
             now received []
           = (Normal [], [])).
Proof.
  intros JSON_parse net now received props Hparse Htype.
  assert (Hreply : forall scanned : option (list descriptor),
             on_ws_message JSON_parse net scanned now received []
             = (Normal (discover_reply scanned now), [])).
  { intros scanned.
    unfold on_ws_message, io_try, io_lift. cbv [mbind io_bind].
    rewrite Hparse, !json_get_object, Htype. cbn [json_is].
    rewrite bool_decide_eq_true_2 by done.
    destruct scanned as [devices|]; [|done].
    cbv [mret io_ret]. by rewrite copy_devices. }
  split; [exact Hreply|].
  intros active sock err addMembership2 mx evs. rewrite Hreply.
  by rewrite run_stuck.
Qed.

Lemma discover_command_reply_witness :
  @on_ws_message example_platform
    (fun _ => Normal (JsonObject [("type", JsonString "discover")]))
    accepting_network
    (resolved (@run example_platform (discover_start ∅ 7)
                 (example_two_renderers ++ [EvTimeout])))
    1730000000000 "{...}" []
  = (Normal
       [Devices
          [ mkDescriptor "Living Room TV" "MediaRenderer" "Unknown Manufacturer"
              (Some "http://192.168.1.5/upnp/control/AVTransport")
              "192.168.1.5" "http://192.168.1.5/desc.xml" "";
            mkDescriptor "Living Room TV" "MediaRenderer" "Unknown Manufacturer"
              (Some "http://192.168.1.6:8080/upnp/control/AVTransport")
              "192.168.1.6" "http://192.168.1.6:8080/desc.xml" "8080" ]
          1730000000000], []).
Proof.
  rewrite (proj1 (@discover_command_reply example_platform
                    (fun _ => Normal (JsonObject [("type", JsonString "discover")]))
                    accepting_network 1730000000000%N "{...}"
                    [("type", JsonString "discover")] eq_refl eq_refl)).
  by vm_compute.
Defined.
